(** * Verification of TStarBot1's vectorised environment and A2C agent

    The development embeds three source files:
    - [envs/parallel_env.py]: the pipe worker and [ParallelEnvWrapper];
    - [agents/a2c_agent.py]: [A2CAgent] (rollout, bootstrap, loss);
    - [wrappers/zerg_observation_wrappers.py]: the Zerg feature extractors.

    Python values are modelled as follows.  A float is an exact rational
    ([Qc]): rounding is not modelled, and there is no infinity and no NaN.
    Where a property depends on those, the code is embedded once more on
    IEEE 754 numbers: [_boostrap] on binary32 tensors in [Float32], and the
    grid of the Zerg features under the condition that its cell sizes are
    binary64 numbers.  What the code takes from torch, numpy,
    gym and pysc2 ([softmax], [log_softmax], [multinomial], [log10], the
    environments, the unit ids) is a parameter, given as a class.
    A call that may raise returns a [result]; an object that is mutated in
    place lives in an explicit store.  The first part of the file holds the
    definitions, the second part the theorems. *)

From Stdlib Require Import List ZArith QArith Qcanon Qround String Bool Lia.
From Stdlib Require Import SpecFloat.
From stdpp Require Import base tactics option list numbers strings relations gmap.
Import ListNotations.
#[local] Set Warnings "-register-all".
#[local] Open Scope string_scope.
#[local] Open Scope list_scope.

(** ** Python exceptions and fallible calls *)

Inductive exn : Type :=
| NameError (name : string)
| IndexError
| ValueError
| TypeError
| UnboundLocalError (name : string)
| ZeroDivisionError
| RuntimeError
| NotImplementedError
| OtherError (what : string)
| Blocked. (* not an exception: the call never returns (a [recv] nobody answers) *)

Inductive result (A : Type) : Type :=
| Ok (a : A)
| Raise (e : exn).
Arguments Ok {A} a.
Arguments Raise {A} e.

#[global] Instance result_ret : MRet result := fun _ a => Ok a.
#[global] Instance result_bind : MBind result := fun _ _ k m =>
  match m with
  | Ok a => k a
  | Raise e => Raise e
  end.

Definition is_ok {A} (r : result A) : bool :=
  match r with Ok _ => true | Raise _ => false end.

(** [l[i]] for a list, and [l[-1]]. *)
Definition getitem {A} (l : list A) (i : nat) : result A :=
  match l !! i with Some x => Ok x | None => Raise IndexError end.

Definition getitem_last {A} (l : list A) : result A :=
  match last l with Some x => Ok x | None => Raise IndexError end.

(** ** numpy arrays *)

(** An [ndarray] of floats, as the nesting of its axes. *)
Inductive ndarray : Type :=
| Scalar (x : Qc)
| Arr (items : list ndarray).

Fixpoint shape (a : ndarray) : list nat :=
  match a with
  | Scalar _ => []
  | Arr items => length items :: match items with [] => [] | x :: _ => shape x end
  end.

(** [np.stack(arrays)]: a new leading axis; the arrays must have one shape. *)
Definition np_stack (arrays : list ndarray) : result ndarray :=
  match arrays with
  | [] => Raise ValueError
  | a :: _ =>
      if forallb (fun b => bool_decide (shape b = shape a)) arrays
      then Ok (Arr arrays) else Raise ValueError
  end.

(** [a[c]] on an array. *)
Definition nd_getitem (a : ndarray) (c : nat) : result ndarray :=
  match a with
  | Scalar _ => Raise IndexError
  | Arr items => getitem items c
  end.

(** An observation is one array or a tuple of arrays. *)
Inductive observation : Type :=
| ObArray (a : ndarray)
| ObTuple (fields : list ndarray).

(** ** envs/parallel_env.py *)

(** The [gym.Env] interface a worker drives.  A call returns the new state of
    the environment with its value, or raises. *)
Class Env : Type := {
  env_state : Type;
  action : Type;
  info : Type;
  space : Type;
  env_step : env_state -> option action ->
             result (observation * Qc * bool * info * env_state);
  env_reset : env_state -> result (observation * env_state);
  env_close : env_state -> result unit;
  action_space : env_state -> space;
  observation_space : env_state -> space
}.

(** A message on a pipe towards the worker: [(cmd, data)]. *)
Abbreviation msg := (string * option action)%type.

Section ParallelEnv.
Context `{Env}.


(** What a worker sends back. *)
Inductive reply : Type :=
| StepReply (ob : observation) (reward : Qc) (done : bool) (i : info)
| ResetReply (ob : observation)
| SpacesReply (a o : space).

(** The outcome of one pass through the body of [while True]. *)
Inductive loop_ctl : Type :=
| Continue (env : env_state) (sent : reply)
| Break.

(** The [if cmd == ...] chain of [worker]; [Raise] leaves the function. *)
Definition worker_dispatch (env : env_state) (cmd : string) (data : option action)
  : result loop_ctl :=
  if String.eqb cmd "step" then
    '(ob, reward, done, i, env) ← env_step env data;
    '(ob, env) ← (if done : bool then env_reset env else Ok (ob, env));
    Ok (Continue env (StepReply ob reward done i))
  else if String.eqb cmd "reset" then
    '(ob, env) ← env_reset env;
    Ok (Continue env (ResetReply ob))
  else if String.eqb cmd "close" then
    _ ← env_close env;
    Ok Break
  else if String.eqb cmd "get_spaces" then
    Ok (Continue env (SpacesReply (action_space env) (observation_space env)))
  else Raise NotImplementedError.

Inductive wstatus : Type :=
| Running (env : env_state)
| Terminated
| Crashed (e : exn).

(** A worker process with the two directions of its pipe. *)
Record proc : Type := Proc {
  status : wstatus;
  inbox : list msg;     (* sent by the manager, not yet received *)
  outbox : list reply   (* sent by the worker, not yet received *)
}.

(** One iteration of the loop of [worker]: [pipe.recv()], then the dispatch.
    [None]: the worker has left the loop, or waits in [recv]. *)
Definition worker_iter (p : proc) : option proc :=
  match status p, inbox p with
  | Running env, (cmd, data) :: rest =>
      Some match worker_dispatch env cmd data with
           | Ok (Continue env' sent) => Proc (Running env') rest (outbox p ++ [sent])
           | Ok Break => Proc Terminated rest (outbox p)
           | Raise e => Proc (Crashed e) rest (outbox p)
           end
  | _, _ => None
  end.

(** [worker]'s loop, run until it leaves the loop or the pipe is empty. *)
Fixpoint worker_loop (st : wstatus) (inbox : list msg) (outbox : list reply) : proc :=
  match st, inbox with
  | Running env, (cmd, data) :: rest =>
      match worker_dispatch env cmd data with
      | Ok (Continue env' sent) => worker_loop (Running env') rest (outbox ++ [sent])
      | Ok Break => Proc Terminated rest outbox
      | Raise e => Proc (Crashed e) rest outbox
      end
  | _, _ => Proc st inbox outbox
  end.

Definition worker (pipe : list msg) (env_create_func : unit -> result env_state) : proc :=
  match env_create_func () with
  | Ok env => worker_loop (Running env) pipe []
  | Raise e => Proc (Crashed e) pipe []
  end.

Definition run (p : proc) : proc := worker_loop (status p) (inbox p) (outbox p).

(** [pipe.send] and [pipe.recv] on the manager's end. *)
Definition send (m : msg) (p : proc) : proc :=
  Proc (status p) (inbox p ++ [m]) (outbox p).

Definition recv (p : proc) : option (reply * proc) :=
  match outbox p with
  | r :: rest => Some (r, Proc (status p) (inbox p) rest)
  | [] => None
  end.

(** [ParallelEnvWrapper.__init__]: a pipe and a started process per creation
    function.  With no function, [zip] over no pipe returns nothing to unpack
    into the two names. *)
Definition __init__ (env_create_funcs : list (unit -> result env_state))
  : result (list proc) :=
  match env_create_funcs with
  | [] => Raise ValueError
  | _ :: _ => Ok (map (worker []) env_create_funcs)
  end.

(** [for pipe, action in zip(self._pipes, actions): pipe.send(('step', action))]. *)
Fixpoint send_steps (pipes : list proc) (actions : list action) : list proc :=
  match pipes, actions with
  | p :: pipes', a :: actions' => send ("step", Some a) p :: send_steps pipes' actions'
  | _, _ => pipes
  end.

(** [[pipe.recv() for pipe in self._pipes]]; an empty pipe blocks for ever. *)
Fixpoint recv_all (pipes : list proc) : result (list reply) * list proc :=
  match pipes with
  | [] => (Ok [], [])
  | p :: pipes' =>
      match recv p with
      | None => (Raise Blocked, pipes)
      | Some (r, p') =>
          let '(rs, pipes'') := recv_all pipes' in
          (rs ← rs; Ok (r :: rs), p' :: pipes'')
      end
  end.

(** [obs, rewards, dones, infos = zip] over the unpacked [results]. *)
Fixpoint unzip4 (results : list reply)
  : result (list observation * list Qc * list bool * list info) :=
  match results with
  | [] => Ok ([], [], [], [])
  | StepReply ob reward done i :: rest =>
      '(obs, rewards, dones, infos) ← unzip4 rest;
      Ok (ob :: obs, reward :: rewards, done :: dones, i :: infos)
  | _ :: _ => Raise TypeError
  end.

Definition zip_star (results : list reply)
  : result (list observation * list Qc * list bool * list info) :=
  match results with
  | [] => Raise ValueError
  | _ => unzip4 results
  end.

(** [ob[c]] and [np.asanyarray(ob)] for what a worker returned. *)
Definition ob_getitem (ob : observation) (c : nat) : result ndarray :=
  match ob with
  | ObArray a => nd_getitem a c
  | ObTuple fields => getitem fields c
  end.

Definition asanyarray (ob : observation) : ndarray :=
  match ob with
  | ObArray a => a
  | ObTuple fields => Arr fields
  end.

(** The [isinstance(obs[0], tuple)] block shared by [_step] and [_reset]. *)
Definition stack_obs (obs : list observation) : result observation :=
  ob0 ← getitem obs 0;
  match ob0 with
  | ObTuple fields0 =>
      let n := length fields0 in
      fields ← mapM (fun c => col ← mapM (fun ob => ob_getitem ob c) obs; np_stack col)
                    (seq 0 n);
      Ok (ObTuple fields)
  | ObArray _ =>
      a ← np_stack (map asanyarray obs);
      Ok (ObArray a)
  end.

(** What [_step] returns: the batch, rewards and dones as arrays of [N]. *)
Definition step_batch : Type := observation * list Qc * list bool * list info.

Definition batch_results (results : list reply) : result step_batch :=
  '(obs, rewards, dones, infos) ← zip_star results;
  obs ← stack_obs obs;
  Ok (obs, rewards, dones, infos).

(** [ParallelEnvWrapper._step], every worker answering as soon as it can. *)
Definition _step (self : list proc) (actions : list action)
  : result step_batch * list proc :=
  let pipes := map run (send_steps self actions) in
  let '(results, pipes) := recv_all pipes in
  (results ← results; batch_results results, pipes).

Definition reset_obs (r : reply) : result observation :=
  match r with
  | ResetReply ob => Ok ob
  | StepReply _ _ _ _ | SpacesReply _ _ => Raise TypeError
  end.

Definition _reset (self : list proc) : result observation * list proc :=
  let pipes := map run (map (send ("reset", None)) self) in
  let '(results, pipes) := recv_all pipes in
  (results ← results; obs ← mapM reset_obs results; stack_obs obs, pipes).

(** [_close]: [p.join()] returns once the process has ended. *)
Definition join (p : proc) : result unit :=
  match status p with
  | Running _ => Raise Blocked
  | Terminated | Crashed _ => Ok ()
  end.

Definition _close (self : list proc) : result unit * list proc :=
  let pipes := map run (map (send ("close", None)) self) in
  (_ ← mapM join pipes; Ok (), pipes).

Definition num_envs (self : list proc) : nat := length self.

(** *** The manager and its workers as concurrent processes

    The program counter of the manager inside [_step]. *)
Inductive mgr_pc : Type :=
| Sending (k : nat)                        (* the loop over [zip] is at pair [k] *)
| Receiving (k : nat) (results : list reply) (* the comprehension is at pipe [k] *)
| Returned (r : result step_batch).

Record system : Type := System { pc : mgr_pc; procs : list proc }.

(** One move of one process; any process that can move may be the next. *)
Inductive sys_step (actions : list action) : system -> system -> Prop :=
| mgr_send k a p ps :
    actions !! k = Some a -> ps !! k = Some p ->
    sys_step actions (System (Sending k) ps)
                     (System (Sending (S k)) (<[k := send ("step", Some a) p]> ps))
| mgr_sent k ps :
    (actions !! k = None \/ ps !! k = None) ->
    sys_step actions (System (Sending k) ps) (System (Receiving 0 []) ps)
| mgr_recv k results p r p' ps :
    ps !! k = Some p -> recv p = Some (r, p') ->
    sys_step actions (System (Receiving k results) ps)
                     (System (Receiving (S k) (results ++ [r])) (<[k := p']> ps))
| mgr_return k results ps :
    ps !! k = None ->
    sys_step actions (System (Receiving k results) ps)
                     (System (Returned (batch_results results)) ps)
| worker_move i p p' c ps :
    ps !! i = Some p -> worker_iter p = Some p' ->
    sys_step actions (System c ps) (System c (<[i := p']> ps)).

(** The commands [worker] serves, and what it means that a call into the
    environment, made for [cmd], raised [e]. *)
Definition known_cmd (cmd : string) : Prop :=
  cmd = "step" \/ cmd = "reset" \/ cmd = "close" \/ cmd = "get_spaces".

Definition env_raised (env : env_state) (cmd : string) (data : option action) (e : exn)
  : Prop :=
  (cmd = "step" /\
     (env_step env data = Raise e \/
      exists ob reward i env1,
        env_step env data = Ok (ob, reward, true, i, env1) /\ env_reset env1 = Raise e)) \/
  (cmd = "reset" /\ env_reset env = Raise e) \/
  (cmd = "close" /\ env_close env = Raise e).

(** A process between two calls of the manager: both directions empty. *)
Definition idle (p : proc) : Prop := inbox p = [] /\ outbox p = [].

(** A process that was sent the step command with [a] and has served what
    it could. *)
Definition answered (p : proc) (a : action) : proc := run (send ("step", Some a) p).

(** One worker alone, sent one step command after another. *)
Fixpoint solo (p : proc) (acts : list action) : option (list reply * proc) :=
  match acts with
  | [] => Some ([], p)
  | a :: acts' =>
      '(r, p') ← recv (answered p a);
      '(rs, p'') ← solo p' acts';
      Some (r :: rs, p'')
  end.

(** Where one worker stands while the manager is inside [_step]. *)
Definition after_send (p0 : proc) (a : action) (p : proc) : Prop :=
  p = send ("step", Some a) p0 \/ p = answered p0 a.

Definition after_recv (p0 : proc) (a : action) (r : reply) (p : proc) : Prop :=
  recv (answered p0 a) = Some (r, p).

(** Slot [i] of a stacked observation [batch] of [n] workers is made of
    [ob]: the array itself, or field by field for a tuple. *)
Definition ob_in_slot (batch : observation) (n i : nat) (ob : observation) : Prop :=
  match batch with
  | ObArray a =>
      exists items, a = Arr items /\ length items = n /\
                    items !! i = Some (asanyarray ob)
  | ObTuple fields =>
      forall c col, fields !! c = Some col ->
        exists items x, col = Arr items /\ length items = n /\
                        ob_getitem ob c = Ok x /\ items !! i = Some x
  end.

(** [batch] is the observations [obs] of the workers, stacked: one array
    with a row per worker or, when worker 0 returned a tuple, a tuple of as
    many fields as that one has, field [c] being the array of every worker's
    [ob[c]], in the order of the workers. *)
Definition stacked (batch : observation) (obs : list observation) : Prop :=
  match obs with
  | ObTuple fields0 :: _ =>
      exists fields, batch = ObTuple fields /\ length fields = length fields0 /\
        forall c, c < length fields0 ->
          exists items, fields !! c = Some (Arr items) /\
                        Forall2 (fun x ob => ob_getitem ob c = Ok x) items obs
  | ObArray _ :: _ => batch = ObArray (Arr (map asanyarray obs))
  | [] => False
  end.

(** What every state of a run of [_step] from [ps0] satisfies. *)
Definition step_inv (ps0 : list proc) (actions : list action) (s : system) : Prop :=
  length (procs s) = length ps0 /\
  match pc s with
  | Sending k =>
      forall i p0, ps0 !! i = Some p0 ->
        (i < k -> exists a p, actions !! i = Some a /\ procs s !! i = Some p /\
                              after_send p0 a p) /\
        (k <= i -> procs s !! i = Some p0)
  | Receiving k results =>
      length results = k /\ k <= length ps0 /\
      forall i p0, ps0 !! i = Some p0 ->
        (i < k -> exists a r p, actions !! i = Some a /\ results !! i = Some r /\
                                procs s !! i = Some p /\ after_recv p0 a r p) /\
        (k <= i -> forall a, actions !! i = Some a ->
                   exists p, procs s !! i = Some p /\ after_send p0 a p) /\
        (k <= i -> actions !! i = None -> procs s !! i = Some p0)
  | Returned r => r = fst (_step ps0 actions)
  end.

End ParallelEnv.

(** A small environment for closed examples: it counts its steps, pays the
    action as reward, and ends an episode at the second step. *)
Definition counter_env : Env := {|
  env_state := nat;
  action := nat;
  info := nat;
  space := nat;
  env_step := fun s a =>
    match a with
    | Some a => Ok (ObArray (Arr [Scalar (Q2Qc (inject_Z (Z.of_nat (S s))))]),
                    Q2Qc (inject_Z (Z.of_nat a)), Nat.eqb (S s) 2, s, S s)
    | None => Raise TypeError
    end;
  env_reset := fun _ => Ok (ObArray (Arr [Scalar 0%Qc]), 0);
  env_close := fun _ => Ok ();
  action_space := fun _ => 2;
  observation_space := fun _ => 1
|}.

(** The same environment with a composite observation: the count of its
    steps and the action it was given, an array each. *)
Definition tuple_env : Env := {|
  env_state := nat;
  action := nat;
  info := nat;
  space := nat;
  env_step := fun s a =>
    match a with
    | Some a => Ok (ObTuple [Arr [Scalar (Q2Qc (inject_Z (Z.of_nat (S s))))];
                             Arr [Scalar (Q2Qc (inject_Z (Z.of_nat a))); Scalar 0%Qc]],
                    Q2Qc (inject_Z (Z.of_nat a)), Nat.eqb (S s) 2, s, S s)
    | None => Raise TypeError
    end;
  env_reset := fun _ => Ok (ObTuple [Arr [Scalar 0%Qc]; Arr [Scalar 0%Qc; Scalar 0%Qc]], 0);
  env_close := fun _ => Ok ();
  action_space := fun _ => 2;
  observation_space := fun _ => 2
|}.
(** ** agents/a2c_agent.py *)

(** *** torch tensors

    A tensor made from an observation is never written to again: it is its
    device and its value. *)
Inductive device : Type := cpu | cuda.

Record tensor : Type := Tensor { t_device : device; t_value : ndarray }.

Definition from_numpy (a : ndarray) : tensor := Tensor cpu a.
Definition to_cuda (t : tensor) : tensor := Tensor cuda (t_value t).

(** What [_ndarray_to_tensor] returns: a list of tensors, or one tensor. *)
Inductive tensors : Type :=
| TList (ts : list tensor)
| TOne (t : tensor).

(** The arrays a converted observation holds. *)
Definition unwrap (ts : tensors) : observation :=
  match ts with
  | TList ts => ObTuple (map t_value ts)
  | TOne t => ObArray (t_value t)
  end.

(** [for tensor in obs]: a list gives its elements, a tensor its rows. *)
Definition iter_tensors (obs : tensors) : result (list tensor) :=
  match obs with
  | TList ts => Ok ts
  | TOne t =>
      match t_value t with
      | Arr rows => Ok (map (Tensor (t_device t)) rows)
      | Scalar _ => Raise TypeError
      end
  end.

(** A one-dimensional float tensor by value, and its pointwise operations
    with broadcasting of a one-element operand. *)
Definition pointwise {A} (f : A -> A -> A) (a b : list A) : result (list A) :=
  if decide (length a = length b) then Ok (zip_with f a b)
  else match a, b with
       | [x], _ => Ok (map (f x) b)
       | _, [y] => Ok (map (fun x => f x y) a)
       | _, _ => Raise RuntimeError
       end.

(** [1 - t] and [c * t] for a Python number on the left. *)
Definition rsub (c : Qc) (t : list Qc) : list Qc := map (fun x => c - x)%Qc t.
Definition rmul (c : Qc) (t : list Qc) : list Qc := map (fun x => c * x)%Qc t.

(** [torch.Tensor(done.tolist())]: [True] is [1.0], [False] is [0.0]. *)
Definition float_of_bool (b : bool) : Qc := if b then 1%Qc else 0%Qc.

(** Tensors that are written in place live in a store of storages; a tensor
    object is a view on one of them, and two objects may share a storage. *)
Abbreviation heap := (list (list Qc)) (only parsing).

Record tref : Type := TRef { storage : nat; tsize : list nat }.

Definition H (A : Type) : Type := heap -> result (A * heap).

#[global] Instance H_ret : MRet H := fun _ a h => Ok (a, h).
#[global] Instance H_bind : MBind H := fun _ _ k m h =>
  match m h with
  | Ok (a, h') => k a h'
  | Raise e => Raise e
  end.

Definition lift {A} (r : result A) : H A := fun h =>
  match r with Ok a => Ok (a, h) | Raise e => Raise e end.

(** A fresh tensor holding [v]. *)
Definition new_tensor (v : list Qc) : H tref := fun h =>
  Ok (TRef (length h) [length v], h ++ [v]).

(** The elements a tensor object shows. *)
Definition read (t : tref) : H (list Qc) := fun h =>
  match h !! storage t with
  | Some v => Ok (v, h)
  | None => Raise RuntimeError
  end.

(** [t *= x]: [Tensor.__imul__] is [mul_], which writes into [t]'s storage;
    [x] may broadcast to [t], [t] is never resized.  The product is that of
    rationals: [Float32.imul] below is the same command on binary32
    elements, where a product with zero is NaN for an infinite or NaN
    factor. *)
Definition imul (t : tref) (x : list Qc) : H unit := fun h =>
  match h !! storage t with
  | Some v =>
      if decide (length v = length x) then
        Ok ((), <[storage t := zip_with Qcmult v x]> h)
      else match x with
           | [y] => Ok ((), <[storage t := map (fun a => a * y)%Qc v]> h)
           | _ => Raise RuntimeError
           end
  | None => Raise RuntimeError
  end.

(** [t.unsqueeze(1)]: a new tensor object on the same storage. *)
Definition unsqueeze1 (t : tref) : tref := TRef (storage t) (tsize t ++ [1]).

(** *** The agent *)

Record A2CAgent : Type := {
  (* the network: policy logits [N, A] and values [N, 1], row by row *)
  _actor_critic : list tensor -> result (list (list Qc) * list Qc);
  _rollout_num_steps : Z;
  _discount : Qc;
  _ent_coef : Qc;
  _val_coef : Qc;
  _use_gpu : bool
}.

(** The module binds no name [o]: looking it up raises. *)
Definition name_o : result ndarray := Raise (NameError "o").

Definition _ndarray_to_tensor (self : A2CAgent) (arrays : observation) : result tensors :=
  match arrays with
  | ObTuple arrays =>
      if _use_gpu self then
        Ok (TList (map (fun array => to_cuda (from_numpy array)) arrays))
      else
        ts ← mapM (fun array : ndarray => o ← name_o; Ok (from_numpy o)) arrays;
        Ok (TList ts)
  | ObArray arrays =>
      if _use_gpu self then Ok (TOne (to_cuda (from_numpy arrays)))
      else Ok (TOne (from_numpy arrays))
  end.

(** [reversed(zip(reward_mb, done_mb))]'s loop.  [r] is the tensor the name
    [r] is bound to; [target_value] holds tensor objects, not copies. *)
Fixpoint boostrap_loop (self : A2CAgent) (steps : list (list Qc * list Qc))
    (r : tref) (target_value : list tref) : H (list tref) :=
  match steps with
  | [] => mret target_value
  | (reward, done) :: steps' =>
      _ ← imul r (rsub 1 done);
      rv ← read r;
      v ← lift (pointwise Qcplus (rmul (_discount self) rv) reward);
      r ← new_tensor v;
      boostrap_loop self steps' r (target_value ++ [unsqueeze1 r])
  end.

Definition _boostrap (self : A2CAgent) (reward_mb done_mb : list (list Qc))
    (last_obs : observation) : H (list tref) :=
  last_obs ← lift (_ndarray_to_tensor self last_obs);
  vars ← lift (iter_tensors last_obs);
  '(_, last_value) ← lift (_actor_critic self vars);
  done_last ← lift (getitem_last done_mb);
  v ← lift (pointwise Qcmult last_value (rsub 1 done_last));
  r ← new_tensor v;
  target_value ← boostrap_loop self (reverse (zip reward_mb done_mb)) r [];
  mret (reverse target_value).

(** The values of the tensors [_boostrap] returns, read when it returns. *)
Definition boostrap_targets (self : A2CAgent) (reward_mb done_mb : list (list Qc))
    (last_obs : observation) : result (list (list Qc)) :=
  '(target_value, h) ← _boostrap self reward_mb done_mb last_obs [];
  mapM (fun t => getitem h (storage t)) target_value.

(** The storages the loop leaves behind, by value: the one [r] names on
    entry, multiplied in place by the first pass, then one per pass. *)
Fixpoint loop_storages (discount : Qc) (steps : list (list Qc * list Qc)) (v : list Qc)
  : list (list Qc) :=
  match steps with
  | [] => [v]
  | (reward, done) :: steps' =>
      let v' := zip_with Qcmult v (rsub 1 done) in
      v' :: loop_storages discount steps' (zip_with Qcplus (rmul discount v') reward)
  end.

(** What [_boostrap] returns, by value, for the terminal values [last_value]. *)
Definition targets_by_value (discount : Qc) (reward_mb done_mb : list (list Qc))
    (last_value : list Qc) : list (list Qc) :=
  match last done_mb with
  | Some done_last =>
      reverse (tail (loop_storages discount (reverse (zip reward_mb done_mb))
                       (zip_with Qcmult last_value (rsub 1 done_last))))
  | None => []
  end.

(** Entry [i] of row [t] of a buffer. *)
Definition entry {A} (mb : list (list A)) (t i : nat) : option A := mb !! t ≫= (.!! i).

(** Column [i] of a buffer: what it holds for replica [i], step by step. *)
Definition column {A} (i : nat) (mb : list (list A)) : option (list A) :=
  mapM (fun row => row !! i) mb.

(** An agent for closed examples: its network answers every batch with the
    same logits and values. *)
Definition constant_agent (logits : list (list Qc)) (v : list Qc) (discount : Qc)
    (steps : Z) (gpu : bool) : A2CAgent :=
  {| _actor_critic := fun _ => Ok (logits, v);
     _rollout_num_steps := steps;
     _discount := discount;
     _ent_coef := Q2Qc (1 # 1000);
     _val_coef := 1%Qc;
     _use_gpu := gpu |}.

(** [v] is the value the network gives for [last_obs]. *)
Definition value_of (self : A2CAgent) (last_obs : observation) (v : list Qc) : Prop :=
  exists ts vars logits,
    _ndarray_to_tensor self last_obs = Ok ts /\ iter_tensors ts = Ok vars /\
    _actor_critic self vars = Ok (logits, v).

(** Rollout buffers of [T] steps for [n] replicas. *)
Definition shaped {A} (T n : nat) (mb : list (list A)) : Prop :=
  length mb = T /\ Forall (fun row => length row = n) mb.

(** The recursion as the specification words it, for one replica:
    [R = V_T * (1 - d_{T-1})], then for [t = T-1] down to [0]
    [R = r_t + discount * R * (1 - d_t)] and [target[t] = R]. *)
Definition spec_targets (discount : Qc) (rewards dones : list Qc) (v_T : Qc) : list Qc :=
  let R := (v_T * (1 - List.last dones 0))%Qc in
  snd (fold_right (fun '(r_t, d_t) '(R, target) =>
                     let R := (r_t + discount * R * (1 - d_t))%Qc in (R, R :: target))
                  (R, []) (zip rewards dones)).

(** *** Sampling, acting and collecting a rollout *)

(** An autograd [Variable]: its data, and whether gradients flow into it. *)
Record TVariable (T : Type) : Type := Var { data : T; requires_grad : bool }.
Arguments Var {T} data requires_grad.
Arguments data {T} _.
Arguments requires_grad {T} _.

Definition vmap {A B} (f : A -> B) (x : TVariable A) : TVariable B :=
  Var (f (data x)) (requires_grad x).

Definition vmap2 {A B C} (f : A -> B -> C) (x : TVariable A) (y : TVariable B)
  : TVariable C :=
  Var (f (data x) (data y)) (requires_grad x || requires_grad y).

Definition vbind2 {A B C} (f : A -> B -> result C) (x : TVariable A) (y : TVariable B)
  : result (TVariable C) :=
  c ← f (data x) (data y); Ok (Var c (requires_grad x || requires_grad y)).

(** What the agent takes from torch: the state of its random generator,
    [multinomial(1)] on a batch of distributions, and [F.softmax(x, 1)] and
    [F.log_softmax(x, 1)] on one row. *)
Class Torch : Type := {
  rng : Type;
  multinomial : rng -> list (list Qc) -> list nat * rng;
  softmax : list Qc -> list Qc;
  log_softmax : list Qc -> list Qc
}.

(** The row [array([a])] of a sampled index, as an environment reads it. *)
Class ActionRows `{Env} : Type := { np_action : nat -> action }.

Section Agent.
Context `{Env} `{Torch} `{!ActionRows}.

Definition _sample_action (g : rng) (logit : list (list Qc)) : list nat * rng :=
  multinomial g (map softmax logit).

(** [np.asarray] of a tuple of arrays, as [np.expand_dims] applies it. *)
Definition np_asarray (fields : list ndarray) : result ndarray :=
  match fields with
  | [] => Ok (Arr [])
  | _ :: _ => np_stack fields
  end.

Definition step (self : A2CAgent) (g : rng) (ob : observation) : result (list nat * rng) :=
  ob ← match ob with
       | ObTuple fields =>
           (* the generator's body expands [ob], the whole tuple, for each [o] *)
           es ← mapM (fun o : ndarray => a ← np_asarray fields; Ok (Arr [a])) fields;
           Ok (ObTuple es)
       | ObArray a => Ok (ObArray (Arr [a]))
       end;
  ob ← _ndarray_to_tensor self ob;
  vars ← iter_tensors ob;
  '(prob_logit, _) ← _actor_critic self vars;
  let '(action, g) := _sample_action g prob_logit in
  Ok (action, g).

(** The four buffers of [_rollout]. *)
Record buffers : Type := Buffers {
  obs_mb : list tensors;
  action_mb : list (list nat);
  reward_mb : list (list Qc);
  done_mb : list (list Qc)
}.

(** The [for _ in xrange(self._rollout_num_steps)] loop, [n] passes to go. *)
Fixpoint rollout_loop (self : A2CAgent) (n : nat) (g : rng) (envs : list proc)
    (obs : observation) (mb : buffers)
  : result (buffers * observation * rng * list proc) :=
  match n with
  | O => Ok (mb, obs, g, envs)
  | S n' =>
      obs ← _ndarray_to_tensor self obs;
      vars ← iter_tensors obs;
      '(prob_logit, _) ← _actor_critic self vars;
      let '(action, g) := _sample_action g prob_logit in
      let obs_mb := obs_mb mb ++ [obs] in
      let action_mb := action_mb mb ++ [action] in
      let '(r, envs) := _step envs (map np_action action) in
      '(obs, reward, done, _) ← r;
      let reward_mb := reward_mb mb ++ [reward] in
      let done_mb := done_mb mb ++ [map float_of_bool done] in
      rollout_loop self n' g envs obs (Buffers obs_mb action_mb reward_mb done_mb)
  end.

Definition _rollout (self : A2CAgent) (g : rng) (envs : list proc) (obs : observation)
  : result (list tensors * list (list nat) * list (list Qc) * observation
            * rng * list proc) :=
  '(mb, obs, g, envs) ← rollout_loop self (Z.to_nat (_rollout_num_steps self)) g envs obs
                                     (Buffers [] [] [] []);
  target_value_mb ← boostrap_targets self (reward_mb mb) (done_mb mb) obs;
  Ok (obs_mb mb, action_mb mb, target_value_mb, obs, g, envs).

(** *** The loss of [_update] *)

Definition sum_all (l : list Qc) : Qc := fold_right Qcplus 0%Qc l.

(** [t.mean()] over all elements of a tensor (of at least one element). *)
Definition mean (l : list Qc) : Qc := (sum_all l / Q2Qc (inject_Z (Z.of_nat (length l))))%Qc.

(** [a * b] on two matrices of one shape, row by row. *)
Definition mat_mul (a b : list (list Qc)) : result (list (list Qc)) :=
  if decide (length a = length b) then
    mapM (fun '(x, y) => if decide (length x = length y) then Ok (zip_with Qcmult x y)
                         else Raise RuntimeError) (zip a b)
  else Raise RuntimeError.

(** [m.gather(1, index)] for an index of shape [B, 1]. *)
Definition gather1 (m : list (list Qc)) (index : list nat) : result (list Qc) :=
  if decide (length m = length index) then
    mapM (fun '(row, a) => match row !! a with Some x => Ok x | None => Raise RuntimeError end)
         (zip m index)
  else Raise RuntimeError.

(** [torch.cat(tensors)] along the first axis. *)
Definition rows_of (t : tensor) : result (list ndarray) :=
  match t_value t with
  | Arr rows => Ok rows
  | Scalar _ => Raise RuntimeError
  end.

Definition torch_cat (ts : list tensor) : result tensor :=
  match ts with
  | [] => Raise RuntimeError
  | t :: _ =>
      rows ← mapM rows_of ts;
      let rows := concat rows in
      match rows with
      | [] => Ok (Tensor (t_device t) (Arr []))
      | r :: _ =>
          if forallb (fun x => bool_decide (shape x = shape r)) rows
          then Ok (Tensor (t_device t) (Arr rows)) else Raise RuntimeError
      end
  end.

(** [obs[c]] and [len(obs)] on what [_ndarray_to_tensor] returned. *)
Definition tensors_getitem (obs : tensors) (c : nat) : result tensor :=
  match obs with
  | TList ts => getitem ts c
  | TOne t => a ← nd_getitem (t_value t) c; Ok (Tensor (t_device t) a)
  end.

Definition tensors_len (obs : tensors) : result nat :=
  match obs with
  | TList ts => Ok (length ts)
  | TOne t => match t_value t with Arr rows => Ok (length rows) | Scalar _ => Raise TypeError end
  end.

(** The terms of the loss, as [_update] computes them. *)
Record losses : Type := Losses {
  entropy : TVariable (list Qc);
  advantage : TVariable (list Qc);
  detached : TVariable (list Qc);     (* [Variable(advantage.data)] *)
  value_loss : TVariable Qc;
  policy_loss : TVariable Qc;
  entropy_loss : TVariable Qc;
  loss : TVariable Qc
}.

(** Lines 90 to 101 of [_update]: from the outputs of the network to [loss]. *)
Definition update_losses (self : A2CAgent) (prob_logit : list (list Qc)) (value : list Qc)
    (action_mb : list (list nat)) (target_value_mb : list (list Qc)) : result losses :=
  (* the network's parameters require gradients, hence its outputs do *)
  let prob_logit := Var prob_logit true in
  let value := Var value true in
  let log_prob := vmap (map log_softmax) prob_logit in
  let prob := vmap (map softmax) prob_logit in
  prod ← vbind2 mat_mul log_prob prob;
  let entropy := vmap (map (fun row => - sum_all row)%Qc) prod in
  target ← (match target_value_mb with
            | [] => Raise RuntimeError
            | _ => Ok (concat target_value_mb)
            end);
  advantage ← vbind2 (pointwise Qcminus) (Var target false) value;
  action ← (match action_mb with [] => Raise RuntimeError | _ => Ok (concat action_mb) end);
  let value_loss := vmap (fun a => mean (map (fun x => x * x) a) * Q2Qc (1 # 2))%Qc advantage in
  chosen ← vbind2 gather1 log_prob (Var action false);
  let detached := Var (data advantage) false in
  weighted ← vbind2 (pointwise Qcmult) chosen detached;
  let policy_loss := vmap (fun w => - mean w)%Qc weighted in
  let entropy_loss := vmap mean entropy in
  let loss := vmap2 Qcplus
                (vmap2 Qcplus policy_loss (vmap (Qcmult (_val_coef self)) value_loss))
                (vmap (Qcmult (_ent_coef self)) entropy_loss) in
  Ok (Losses entropy advantage detached value_loss policy_loss entropy_loss loss).

(** [_update] up to [loss]; the optimizer's step that follows is not modelled. *)
Definition _update (self : A2CAgent) (obs_mb : list tensors)
    (action_mb : list (list nat)) (target_value_mb : list (list Qc)) : result losses :=
  obs0 ← getitem obs_mb 0;
  n ← tensors_len obs0;
  inputs ← mapM (fun c => col ← mapM (fun obs => tensors_getitem obs c) obs_mb; torch_cat col)
               (seq 0 n);
  '(prob_logit, value) ← _actor_critic self inputs;
  update_losses self prob_logit value action_mb target_value_mb.

(** The loss as the specification words it. *)
Definition shannon_entropy (logits : list Qc) : Qc :=
  (- sum_all (zip_with Qcmult (softmax logits) (log_softmax logits)))%Qc.

Definition spec_loss (val_coef ent_coef : Qc) (logits : list (list Qc)) (value : list Qc)
    (action : list nat) (target : list Qc) : Qc :=
  let adv := zip_with Qcminus target value in
  let chosen := zip_with (fun row a => default 0%Qc (log_softmax row !! a)) logits action in
  let policy_loss := (- mean (zip_with Qcmult chosen adv))%Qc in
  let value_loss := (Q2Qc (1 # 2) * mean (map (fun x => x * x) adv))%Qc in
  let entropy_term := mean (map shannon_entropy logits) in
  (policy_loss + val_coef * value_loss + ent_coef * entropy_term)%Qc.

End Agent.

(** A generator for closed examples: it counts its draws and gives every
    replica the parity of the count. *)
Definition toy_torch : Torch := {|
  rng := nat;
  multinomial := fun g logits => (map (fun _ => g mod 2) logits, S g);
  softmax := fun row => row;
  log_softmax := fun row => row
|}.

Definition counter_rows : @ActionRows counter_env :=
  @Build_ActionRows counter_env (fun a : nat => a).

(** ** wrappers/zerg_observation_wrappers.py *)

(** [pysc2.lib.typeenums.UNIT_TYPEID] is not part of the repository: the
    values of the members the wrapper names are parameters. *)
Class UNIT_TYPEID : Type := {
  ZERG_DRONE : Z; ZERG_ZERGLING : Z; ZERG_ROACH : Z; ZERG_HYDRALISK : Z;
  ZERG_OVERLORD : Z; ZERG_OVERSEER : Z; ZERG_QUEEN : Z;
  ZERG_CHANGELINGZERGLING : Z; ZERG_RAVAGER : Z; ZERG_EGG : Z;
  ZERG_EVOLUTIONCHAMBER : Z; ZERG_BANELING : Z; ZERG_BROODLING : Z;
  ZERG_LARVA : Z; ZERG_HATCHERY : Z; ZERG_LAIR : Z; ZERG_HIVE : Z;
  ZERG_BANELINGNEST : Z; ZERG_SPAWNINGPOOL : Z; ZERG_ROACHWARREN : Z;
  ZERG_HYDRALISKDEN : Z; ZERG_EXTRACTOR : Z
}.

Inductive AllianceType : Type := SELF | ALLY | NEUTRAL | ENEMY.

Definition alliance_value (a : AllianceType) : Z :=
  match a with SELF => 1 | ALLY => 2 | NEUTRAL => 3 | ENEMY => 4 end.

(** A unit of the raw observation, with the attributes the wrapper reads. *)
Record unit_ : Type := Unit {
  unit_type : Z;
  alliance : Z;
  pos_x : Qc;
  pos_y : Qc;
  is_flying : bool
}.

Record raw_observation : Type := RawObs {
  units : list unit_;
  player : list Qc
}.

(** Arrays of one and of three axes. *)
Abbreviation array1 := (list Qc) (only parsing).
Abbreviation array3 := (list (list (list Qc))) (only parsing).

Definition zeros3 (c h w : nat) : array3 := replicate c (replicate h (replicate w 0%Qc)).

(** Python's [/] and [//] on floats, without rounding.  [truediv] gives the
    quotient itself: it is the float the code holds when that quotient is a
    binary64 number, and the nearest one otherwise.  [//] on two floats is
    the floor of their exact quotient, which [floordiv] gives. *)
Definition truediv (a b : Qc) : result Qc :=
  if decide (b = 0%Qc) then Raise ZeroDivisionError else Ok (a / b)%Qc.

Definition floordiv (a b : Qc) : result Z :=
  if decide (b = 0%Qc) then Raise ZeroDivisionError else Ok (Qfloor (a / b)%Qc).

(** An index into an axis of [n]: negative ones count from the end. *)
Definition norm_index (n : nat) (i : Z) : result nat :=
  if decide (0 <= i < Z.of_nat n)%Z then Ok (Z.to_nat i)
  else if decide (- Z.of_nat n <= i < 0)%Z then Ok (Z.to_nat (i + Z.of_nat n))
  else Raise IndexError.

(** [features[c, y, x] += 1.0]. *)
Definition incr3 (features : array3) (c : nat) (y x : Z) : result array3 :=
  channel ← getitem features c;
  yi ← norm_index (length channel) y;
  row ← getitem channel yi;
  xi ← norm_index (length row) x;
  v ← getitem row xi;
  Ok (<[c := <[yi := <[xi := (v + 1)%Qc]> row]> channel]> features).

(** The grid cell of a unit: [y] and [x] as [_generate_features] computes them. *)
Definition grid_cell (resolution : nat) (grid_width grid_height : Qc) (u : unit_)
  : result (Z * Z) :=
  x ← floordiv (pos_x u) grid_width;
  fy ← floordiv (pos_y u) grid_height;
  Ok (Z.of_nat resolution - 1 - fy, x)%Z.

(** An array of [c] channels of [h] rows of [w] entries. *)
Definition has_shape3 (c h w : nat) (a : list (list (list Qc))) : Prop :=
  length a = c /\
  Forall (fun channel => length channel = h /\ Forall (fun row => length row = w) channel) a.

(** A dict display [{k1: v1, k2: v2, ...}]: a later key replaces an equal one. *)
Definition dict_of {V} (items : list (Z * V)) : gmap Z V :=
  foldl (fun m kv => <[kv.1 := kv.2]> m) ∅ items.

(** [dict.values()], in the order of the keys: Python lists them in the
    order of its hash table, so that only what does not depend on the order
    of the values carries over to the code. *)
Definition dict_values {V} (m : gmap Z V) : list V := (map_to_list m).*2.

(** [max(values)]. *)
Definition max_of (values : list nat) : result nat :=
  match values with
  | [] => Raise ValueError
  | v :: vs => Ok (foldr Nat.max v vs)
  end.

Definition default_world_size : Qc * Qc := (Q2Qc 200, Q2Qc 176).

(** A unit inside the world: the positions the game reports. *)
Definition in_world (world_size : Qc * Qc) (u : unit_) : Prop :=
  (0 <= pos_x u)%Qc /\ (pos_x u < fst world_size)%Qc /\
  (0 <= pos_y u)%Qc /\ (pos_y u < snd world_size)%Qc.

Module UnitType3DFeature.

Record t : Type := Build {
  _type_map : gmap Z nat;
  _resolution : nat;
  _world_size : Qc * Qc
}.

Definition num_channels (self : t) : result nat :=
  m ← max_of (dict_values (_type_map self)); Ok ((m + 1) * 2).

Definition _generate_features (self : t) (us : list unit_) : result array3 :=
  m ← max_of (dict_values (_type_map self));
  let num_channels := m + 1 in
  let features := zeros3 num_channels (_resolution self) (_resolution self) in
  grid_width ← truediv (fst (_world_size self)) (Q2Qc (inject_Z (Z.of_nat (_resolution self))));
  grid_height ← truediv (snd (_world_size self)) (Q2Qc (inject_Z (Z.of_nat (_resolution self))));
  foldl (fun features u =>
           features ← features;
           match _type_map self !! unit_type u with
           | Some c =>
               '(y, x) ← grid_cell (_resolution self) grid_width grid_height u;
               incr3 features c y x
           | None => Ok features
           end) (Ok features) us.

Definition features (self : t) (observation : raw_observation) : result array3 :=
  let self_units := filter (fun u => alliance u = alliance_value SELF) (units observation) in
  let enemy_units := filter (fun u => alliance u = alliance_value ENEMY) (units observation) in
  self_features ← _generate_features self self_units;
  enemy_features ← _generate_features self enemy_units;
  Ok (self_features ++ enemy_features).

End UnitType3DFeature.

Module PlayerRelative3DFeature.

Record t : Type := Build {
  _resolution : nat;
  _world_size : Qc * Qc
}.

Definition num_channels (self : t) : nat := 3.

Definition _generate_features (self : t) (us : list unit_) : result array3 :=
  let features := zeros3 1 (_resolution self) (_resolution self) in
  grid_width ← truediv (fst (_world_size self)) (Q2Qc (inject_Z (Z.of_nat (_resolution self))));
  grid_height ← truediv (snd (_world_size self)) (Q2Qc (inject_Z (Z.of_nat (_resolution self))));
  foldl (fun features u =>
           features ← features;
           '(y, x) ← grid_cell (_resolution self) grid_width grid_height u;
           incr3 features 0 y x) (Ok features) us.

Definition features (self : t) (observation : raw_observation) : result array3 :=
  let self_units := filter (fun u => alliance u = alliance_value SELF) (units observation) in
  let enemy_units := filter (fun u => alliance u = alliance_value ENEMY) (units observation) in
  let neutral_units := filter (fun u => alliance u = alliance_value NEUTRAL) (units observation) in
  self_features ← _generate_features self self_units;
  enemy_features ← _generate_features self enemy_units;
  neutral_features ← _generate_features self neutral_units;
  Ok (self_features ++ enemy_features ++ neutral_features).

End PlayerRelative3DFeature.

(** [np.log10] is numpy's: the wrapper only applies it, elementwise. *)
Class Numpy : Type := { log10 : Qc -> Qc }.

Definition of_nat (n : nat) : Qc := Q2Qc (inject_Z (Z.of_nat n)).

(** [a / b] on two arrays of one axis, with numpy's broadcasting. *)
Definition np_divide (a b : array1) : result array1 :=
  if decide (length a = length b) then Ok (zip_with Qcdiv a b)
  else match a, b with
       | [x], _ => Ok (map (fun y => x / y)%Qc b)
       | _, [y] => Ok (map (fun x => x / y)%Qc a)
       | _, _ => Raise ValueError
       end.

(** [l[1:-2]]. *)
Definition slice_1_m2 {A} (l : list A) : list A := drop 1 (take (length l - 2) l).

Module Player1DFeature.
Section WithNumpy.
Context `{Numpy}.

Definition features (observation : raw_observation) : result array1 :=
  let player_features := slice_1_m2 (player observation) in
  let scale := map of_nat [1000; 1000; 10; 10; 10; 10; 10; 10] in
  scaled_features ← np_divide player_features scale;
  let log_features := map (fun x => log10 (x + 1)%Qc) player_features in
  Ok (scaled_features ++ log_features).

Definition num_dims : nat := 8 * 2.

End WithNumpy.
End Player1DFeature.

Module UnitCount1DFeature.
Section WithNumpy.
Context `{Numpy}.

Record t : Type := Build { _type_list : list Z }.

Definition _generate_features (self : t) (us : list unit_) : array1 :=
  let count : gmap Z nat := dict_of (map (fun t => (t, 0)) (_type_list self)) in
  let count := foldl (fun count u =>
                        if decide (is_Some (count !! unit_type u))
                        then alter S (unit_type u) count else count) count us in
  map of_nat (dict_values count).

Definition features (self : t) (observation : raw_observation) : array1 :=
  let self_units := filter (fun u => alliance u = alliance_value SELF) (units observation) in
  let enemy_units := filter (fun u => alliance u = alliance_value ENEMY) (units observation) in
  let self_features := _generate_features self self_units in
  let enemy_features := _generate_features self enemy_units in
  let features := self_features ++ enemy_features in
  let scaled_features := map (fun x => x / of_nat 10)%Qc features in
  let log_features := map (fun x => log10 (x + 1)%Qc) features in
  scaled_features ++ log_features.

Definition num_dims (self : t) : nat := length (_type_list self) * 2 * 2.

End WithNumpy.
End UnitCount1DFeature.

Module UnitStat1DFeature.
Section WithNumpy.
Context `{Numpy}.

Definition features (observation : raw_observation) : array1 :=
  let self_units := filter (fun u => alliance u = alliance_value SELF) (units observation) in
  let self_flying_units := filter (fun u => is_flying u = true) self_units in
  let enemy_units := filter (fun u => alliance u = alliance_value ENEMY) (units observation) in
  let enemy_flying_units := filter (fun u => is_flying u = true) enemy_units in
  let features := map of_nat [length self_units; length self_flying_units;
                              length enemy_units; length enemy_flying_units] in
  let scaled_features := map (fun x => x / of_nat 50)%Qc features in
  let log_features := map (fun x => log10 (x + 1)%Qc) features in
  scaled_features ++ log_features.

Definition num_dims : nat := 4 * 2.

End WithNumpy.
End UnitStat1DFeature.

(** [np.concatenate] of two arrays of three axes: the last two must agree. *)
Definition inner_dims (a : array3) : list (nat * list nat) :=
  map (fun channel => (length channel, map length channel)) a.

Definition np_concatenate3 (a b : array3) : result array3 :=
  match inner_dims a, inner_dims b with
  | d :: _, e :: _ => if decide (d = e) then Ok (a ++ b) else Raise ValueError
  | _, _ => Ok (a ++ b)
  end.

(** [np.flip(np.flip(feature, axis=1), axis=2)]. *)
Definition np_flip_1_2 (feature : array3) : array3 :=
  map (map reverse) (map reverse feature).

Module ZergObservationWrapper.
Section WithEnums.
Context `{Numpy} `{UNIT_TYPEID}.

Record t : Type := Build {
  _unit_type_feature : UnitType3DFeature.t;
  _player_relative_feature : PlayerRelative3DFeature.t;
  _unit_count_feature : UnitCount1DFeature.t;
  _flip : bool;
  (* [isinstance(self.env.action_space, MaskableDiscrete)] *)
  env_maskable : bool;
  (* [isinstance(self.action_space, MaskableDiscrete)] *)
  self_maskable : bool;
  env_player_position : Z;
  (* the shapes of the two [Box]es of [observation_space] *)
  observation_space : list nat * list nat
}.

Definition type_map : gmap Z nat :=
  dict_of [(ZERG_DRONE, 0); (ZERG_ZERGLING, 1); (ZERG_ROACH, 2); (ZERG_HYDRALISK, 3);
           (ZERG_OVERLORD, 4); (ZERG_OVERSEER, 5); (ZERG_HATCHERY, 6); (ZERG_LAIR, 6);
           (ZERG_HIVE, 6); (ZERG_EXTRACTOR, 7); (ZERG_QUEEN, 8); (ZERG_RAVAGER, 9);
           (ZERG_BANELING, 10)].

Definition type_list : list Z :=
  [ZERG_DRONE; ZERG_ZERGLING; ZERG_ROACH; ZERG_HYDRALISK; ZERG_OVERLORD;
   ZERG_OVERSEER; ZERG_QUEEN; ZERG_CHANGELINGZERGLING; ZERG_RAVAGER; ZERG_EGG;
   ZERG_EVOLUTIONCHAMBER; ZERG_BANELING; ZERG_BROODLING; ZERG_LARVA; ZERG_HATCHERY;
   ZERG_LAIR; ZERG_HIVE; ZERG_BANELINGNEST; ZERG_SPAWNINGPOOL; ZERG_ROACHWARREN;
   ZERG_HYDRALISKDEN; ZERG_EXTRACTOR].

(** [__init__].  [resolution] is what the source reads from the minimap
    entry of the environment's observation space; the two [isinstance]
    answers and the player position are read off [env] as well. *)
Definition __init__ (resolution : nat) (env_masked self_masked : bool)
    (position : Z) (flip : bool) : result t :=
  let unit_type_feature :=
    UnitType3DFeature.Build type_map resolution default_world_size in
  let player_relative_feature :=
    PlayerRelative3DFeature.Build resolution default_world_size in
  let unit_count_feature := UnitCount1DFeature.Build type_list in
  c ← UnitType3DFeature.num_channels unit_type_feature;
  let n_channels := c + PlayerRelative3DFeature.num_channels player_relative_feature in
  let n_dims := UnitStat1DFeature.num_dims + UnitCount1DFeature.num_dims unit_count_feature
                + Player1DFeature.num_dims in
  Ok {| _unit_type_feature := unit_type_feature;
        _player_relative_feature := player_relative_feature;
        _unit_count_feature := unit_count_feature;
        _flip := flip;
        env_maskable := env_masked;
        self_maskable := self_masked;
        env_player_position := position;
        observation_space := ([n_channels; resolution; resolution], [n_dims]) |}.

Definition _diagonal_flip (self : t) (feature : array3) : array3 :=
  if decide (env_player_position self = 0%Z) then np_flip_1_2 feature else feature.

(** What the wrapped environment hands over: the raw observation, or a pair
    of it and an action mask. *)
Inductive wrapped_observation : Type :=
| Plain (observation : raw_observation)
| WithMask (observation : raw_observation) (action_mask : list bool).

Definition _observation (self : t) (observation : wrapped_observation)
  : result (array3 * array1 * option (list bool)) :=
  '(observation, action_mask) ←
     (if env_maskable self then
        match observation with
        | WithMask o m => Ok (o, Some m)
        | Plain _ => Raise ValueError
        end
      else
        match observation with
        | Plain o => Ok (o, None)
        | WithMask _ _ => Raise TypeError
        end);
  player_rel_feat ← PlayerRelative3DFeature.features (_player_relative_feature self) observation;
  unit_type_feat ← UnitType3DFeature.features (_unit_type_feature self) observation;
  let unit_count_feat := UnitCount1DFeature.features (_unit_count_feature self) observation in
  let unit_stat_feat := UnitStat1DFeature.features observation in
  player_feat ← Player1DFeature.features observation;
  spatial_feat ← np_concatenate3 player_rel_feat unit_type_feat;
  let nonspatial_feat := unit_stat_feat ++ unit_count_feat ++ player_feat in
  let spatial_feat := if _flip self then _diagonal_flip self spatial_feat else spatial_feat in
  if self_maskable self then
    match action_mask with
    | Some m => Ok (spatial_feat, nonspatial_feat, Some m)
    | None => Raise (UnboundLocalError "action_mask")
    end
  else Ok (spatial_feat, nonspatial_feat, None).

End WithEnums.
End ZergObservationWrapper.


(** The ids of the zerg units in StarCraft II's protocol, and a stand-in for
    numpy whose [log10] is the identity: the examples below are about shapes,
    which do not depend on the values [log10] returns. *)
Definition sc2_unit_typeid : UNIT_TYPEID :=
  {| ZERG_DRONE := 104; ZERG_ZERGLING := 105; ZERG_ROACH := 110; ZERG_HYDRALISK := 107;
     ZERG_OVERLORD := 106; ZERG_OVERSEER := 129; ZERG_QUEEN := 126;
     ZERG_CHANGELINGZERGLING := 17; ZERG_RAVAGER := 688; ZERG_EGG := 103;
     ZERG_EVOLUTIONCHAMBER := 90; ZERG_BANELING := 9; ZERG_BROODLING := 289;
     ZERG_LARVA := 151; ZERG_HATCHERY := 86; ZERG_LAIR := 100; ZERG_HIVE := 101;
     ZERG_BANELINGNEST := 96; ZERG_SPAWNINGPOOL := 89; ZERG_ROACHWARREN := 97;
     ZERG_HYDRALISKDEN := 91; ZERG_EXTRACTOR := 88 |}.

Definition shape_numpy : Numpy := {| log10 := fun x => x |}.

(** A raw observation with a drone and an overlord of one's own, an enemy
    zergling and a neutral unit, and the eleven player entries of pysc2. *)
Definition sample_observation : raw_observation :=
  {| units := [Unit 104 1 (Q2Qc 10) (Q2Qc 20) false;
               Unit 106 1 (Q2Qc 150) (Q2Qc 100) true;
               Unit 105 4 (Q2Qc (399 # 2)) (Q2Qc 0) false;
               Unit 341 3 (Q2Qc 60) (Q2Qc 175) false];
     player := map Q2Qc [1; 50; 0; 14; 15; 0; 12; 0; 0; 0; 3]%Q |}.

(** ** Auxiliary definitions for the properties beyond the claims *)

(** *** [_boostrap] for one replica *)

(** The storages that [loop_storages] lists, for one replica. *)
Fixpoint loop_cells (discount : Qc) (steps : list (Qc * Qc)) (v : Qc) : list Qc :=
  match steps with
  | [] => [v]
  | (reward, done) :: steps' =>
      let v' := (v * (1 - done))%Qc in
      v' :: loop_cells discount steps' (discount * v' + reward)%Qc
  end.

(** The value [r] holds, and the storages left behind, latest first, once
    the loop has gone through the steps [zs] of one replica (given here
    earliest first; the loop takes them from the end). *)
Definition cells_after (discount : Qc) (zs : list (Qc * Qc)) (R0 : Qc) : Qc * list Qc :=
  fold_right (fun '(r, d) '(w, stored) =>
                ((discount * (w * (1 - d)) + r)%Qc, (w * (1 - d))%Qc :: stored))
             (R0, []) zs.

(** The recursion inside [spec_targets], from the value [R0] it starts on:
    the value it ends on, and the targets. *)
Definition spec_fold (discount R0 : Qc) (zs : list (Qc * Qc)) : Qc * list Qc :=
  fold_right (fun '(r_t, d_t) '(R, target) =>
                let R := (r_t + discount * R * (1 - d_t))%Qc in (R, R :: target))
             (R0, []) zs.

(** *** The batch of [_update] *)

(** The first statement of [_update]: the tuple of inputs it builds for the
    network, one [torch.cat] over the steps of the rollout for each [c] in
    [xrange(len(obs_mb[0]))]. *)
Definition update_inputs (obs_mb : list tensors) : result (list tensor) :=
  obs0 ← getitem obs_mb 0;
  n ← tensors_len obs0;
  mapM (fun c => col ← mapM (fun obs => tensors_getitem obs c) obs_mb; torch_cat col)
       (seq 0 n).

(** A rollout of [k]-field observations of [N] replicas. *)
Definition fields_of (k N : nat) (obs : tensors) : Prop :=
  exists fs, obs = TList fs /\ length fs = k /\
             Forall (fun f => exists rows, t_value f = Arr rows /\ length rows = N) fs.

(** *** Zerg features *)

(** [a[c, y, x]] for indices inside the array. *)
Definition cell3 (a : list (list (list Qc))) (c y x : nat) : option Qc :=
  channel ← a !! c; row ← channel !! y; row !! x.

(** The units the features look at: those of the player, of the enemy and
    the neutral ones. *)
Definition counted (u : unit_) : Prop :=
  alliance u = alliance_value SELF \/ alliance u = alliance_value ENEMY \/
  alliance u = alliance_value NEUTRAL.

#[global] Instance counted_dec (u : unit_) : Decision (counted u).
Proof. unfold counted. apply _. Defined.

Definition only_counted (ob : raw_observation) : raw_observation :=
  {| units := filter counted (units ob); player := player ob |}.

(** The grid cell, row and column, that [_generate_features] finds for a
    unit, when it lies in the grid. *)
Definition unit_cell (resolution : nat) (world_size : Qc * Qc) (u : unit_)
  : option (nat * nat) :=
  match grid_cell resolution (fst world_size / of_nat resolution)
                             (snd world_size / of_nat resolution) u with
  | Ok (y, x) =>
      if decide ((0 <= y < Z.of_nat resolution)%Z /\ (0 <= x < Z.of_nat resolution)%Z)
      then Some (Z.to_nat y, Z.to_nat x) else None
  | Raise _ => None
  end.

(** A rational that is a binary64 number, the [float] of Python: [m * 2^e]
    with [|m| < 2^53] and [-1074 <= e <= 971]. *)
Definition binary64 (q : Qc) : Prop :=
  exists m e : Z, (Z.abs m < 2 ^ 53)%Z /\ (-1074 <= e <= 971)%Z /\
                  q = Q2Qc (inject_Z m * 2 ^ e).

(** The grid of a feature is exact: the size of the world and the width and
    the height of a cell are binary64 numbers.  The two divisions of
    [_generate_features] then round nothing, and the cell sizes that
    [truediv] gives are the ones the code holds. *)
Definition exact_grid (resolution : nat) (world_size : Qc * Qc) : Prop :=
  binary64 (fst world_size) /\ binary64 (snd world_size) /\
  binary64 (fst world_size / of_nat resolution) /\
  binary64 (snd world_size / of_nat resolution).

(** An observation with a unit of the player on the east border of the
    world. *)
Definition border_observation : raw_observation :=
  {| units := [Unit 104 1 (Q2Qc 10) (Q2Qc 20) false;
               Unit 105 1 (Q2Qc 200) (Q2Qc 100) false];
     player := map Q2Qc [1; 50; 0; 14; 15; 0; 12; 0; 0; 0; 3]%Q |}.

(** [u'] is the unit [u], or [u] moved by the width of the world to the
    west, by its height to the north, or both. *)
Definition wraps_to (world_size : Qc * Qc) (u u' : unit_) : Prop :=
  unit_type u' = unit_type u /\ alliance u' = alliance u /\ is_flying u' = is_flying u /\
  (pos_x u' = pos_x u \/ pos_x u' = (pos_x u - fst world_size)%Qc) /\
  (pos_y u' = pos_y u \/ pos_y u' = (pos_y u + snd world_size)%Qc).

(** The sample observation with its overlord moved by the width of the world
    to the west and its zergling by the height of the world to the north. *)
Definition wrapped_observation_sample : raw_observation :=
  {| units := [Unit 104 1 (Q2Qc 10) (Q2Qc 20) false;
               Unit 106 1 (Q2Qc 150 - Q2Qc 200) (Q2Qc 100) true;
               Unit 105 4 (Q2Qc (399 # 2)) (Q2Qc 0 + Q2Qc 176) false;
               Unit 341 3 (Q2Qc 60) (Q2Qc 175) false];
     player := map Q2Qc [1; 50; 0; 14; 15; 0; 12; 0; 0; 0; 3]%Q |}.

(** ** [A2CAgent._boostrap] on float32 tensors

    [torch.Tensor(reward)], [torch.Tensor(done.tolist())] and the values of
    the network are [FloatTensor]s: their elements are IEEE 754 binary32
    numbers, and [1 - done], [r *= ...], [self._discount * r] and
    [... + reward] round, overflow and hand on NaN as binary32 arithmetic
    does.  This is the code of [_boostrap] once more, on such elements. *)
Module Float32.

(** binary32: 24 bits of mantissa, exponents below 128. *)
Definition prec : Z := 24.
Definition emax : Z := 128.

Definition mul : spec_float -> spec_float -> spec_float := SFmul prec emax.
Definition add : spec_float -> spec_float -> spec_float := SFadd prec emax.
Definition sub : spec_float -> spec_float -> spec_float := SFsub prec emax.

(** [1.0]; the float32 of an integer and of a ratio of two integers. *)
Definition one : spec_float := S754_finite false 8388608 (-23).
Definition of_Z (z : Z) : spec_float := binary_normalize prec emax z 0 false.
Definition of_ratio (n d : Z) : spec_float := SFdiv prec emax (of_Z n) (of_Z d).

Definition is_zero (x : spec_float) : bool :=
  match x with S754_zero _ => true | _ => false end.

Definition finite (x : spec_float) : bool :=
  match x with S754_zero _ | S754_finite _ _ _ => true | _ => false end.

(** The same float32 value, up to the sign of a zero: what [==] compares,
    NaN apart. *)
Definition same (x y : spec_float) : Prop :=
  x = y \/ (is_zero x = true /\ is_zero y = true).

(** Two rows hold the same value for replica [i]. *)
Definition same_at (i : nat) (row row' : list spec_float) : Prop :=
  match row !! i, row' !! i with
  | Some x, Some y => same x y
  | None, None => True
  | _, _ => False
  end.

(** [1 - t] and [c * t] for a Python number on the left. *)
Definition rsub (c : spec_float) (t : list spec_float) : list spec_float :=
  map (fun x => sub c x) t.
Definition rmul (c : spec_float) (t : list spec_float) : list spec_float :=
  map (fun x => mul c x) t.

(** The store of the storages, and the commands on it. *)
Abbreviation heap := (list (list spec_float)) (only parsing).

Definition H (A : Type) : Type := heap -> result (A * heap).

#[global] Instance H_ret : MRet H := fun _ a h => Ok (a, h).
#[global] Instance H_bind : MBind H := fun _ _ k m h =>
  match m h with
  | Ok (a, h') => k a h'
  | Raise e => Raise e
  end.

Definition lift {A} (r : result A) : H A := fun h =>
  match r with Ok a => Ok (a, h) | Raise e => Raise e end.

Definition new_tensor (v : list spec_float) : H tref := fun h =>
  Ok (TRef (length h) [length v], h ++ [v]).

Definition read (t : tref) : H (list spec_float) := fun h =>
  match h !! storage t with
  | Some v => Ok (v, h)
  | None => Raise RuntimeError
  end.

(** [t *= x], in place. *)
Definition imul (t : tref) (x : list spec_float) : H unit := fun h =>
  match h !! storage t with
  | Some v =>
      if decide (length v = length x) then
        Ok ((), <[storage t := zip_with mul v x]> h)
      else match x with
           | [y] => Ok ((), <[storage t := map (fun a => mul a y) v]> h)
           | _ => Raise RuntimeError
           end
  | None => Raise RuntimeError
  end.

(** The agent, its network giving float32 values. *)
Record A2CAgent : Type := {
  _actor_critic : list tensor -> result (list (list spec_float) * list spec_float);
  _rollout_num_steps : Z;
  _discount : spec_float;  (* as a product with a [FloatTensor] takes it *)
  _ent_coef : spec_float;
  _val_coef : spec_float;
  _use_gpu : bool
}.

Definition _ndarray_to_tensor (self : A2CAgent) (arrays : observation) : result tensors :=
  match arrays with
  | ObTuple arrays =>
      if _use_gpu self then
        Ok (TList (map (fun array => to_cuda (from_numpy array)) arrays))
      else
        ts ← mapM (fun array : ndarray => o ← name_o; Ok (from_numpy o)) arrays;
        Ok (TList ts)
  | ObArray arrays =>
      if _use_gpu self then Ok (TOne (to_cuda (from_numpy arrays)))
      else Ok (TOne (from_numpy arrays))
  end.

Fixpoint boostrap_loop (self : A2CAgent) (steps : list (list spec_float * list spec_float))
    (r : tref) (target_value : list tref) : H (list tref) :=
  match steps with
  | [] => mret target_value
  | (reward, done) :: steps' =>
      _ ← imul r (rsub one done);
      rv ← read r;
      v ← lift (pointwise add (rmul (_discount self) rv) reward);
      r ← new_tensor v;
      boostrap_loop self steps' r (target_value ++ [unsqueeze1 r])
  end.

Definition _boostrap (self : A2CAgent) (reward_mb done_mb : list (list spec_float))
    (last_obs : observation) : H (list tref) :=
  last_obs ← lift (_ndarray_to_tensor self last_obs);
  vars ← lift (iter_tensors last_obs);
  '(_, last_value) ← lift (_actor_critic self vars);
  done_last ← lift (getitem_last done_mb);
  v ← lift (pointwise mul last_value (rsub one done_last));
  r ← new_tensor v;
  target_value ← boostrap_loop self (reverse (zip reward_mb done_mb)) r [];
  mret (reverse target_value).

(** The values of the tensors [_boostrap] returns, read when it returns. *)
Definition boostrap_targets (self : A2CAgent) (reward_mb done_mb : list (list spec_float))
    (last_obs : observation) : result (list (list spec_float)) :=
  '(target_value, h) ← _boostrap self reward_mb done_mb last_obs [];
  mapM (fun t => getitem h (storage t)) target_value.

(** The storages the loop leaves behind, by value. *)
Fixpoint loop_storages (discount : spec_float)
    (steps : list (list spec_float * list spec_float)) (v : list spec_float)
  : list (list spec_float) :=
  match steps with
  | [] => [v]
  | (reward, done) :: steps' =>
      let v' := zip_with mul v (rsub one done) in
      v' :: loop_storages discount steps' (zip_with add (rmul discount v') reward)
  end.

Definition targets_by_value (discount : spec_float)
    (reward_mb done_mb : list (list spec_float)) (last_value : list spec_float)
  : list (list spec_float) :=
  match last done_mb with
  | Some done_last =>
      reverse (tail (loop_storages discount (reverse (zip reward_mb done_mb))
                       (zip_with mul last_value (rsub one done_last))))
  | None => []
  end.

(** [v] is the value the network gives for [last_obs]. *)
Definition value_of (self : A2CAgent) (last_obs : observation) (v : list spec_float)
  : Prop :=
  exists ts vars logits,
    _ndarray_to_tensor self last_obs = Ok ts /\ iter_tensors ts = Ok vars /\
    _actor_critic self vars = Ok (logits, v).

(** An agent for closed examples: its network answers every batch with the
    same values. *)
Definition constant_agent (v : list spec_float) (discount : spec_float) : A2CAgent :=
  {| _actor_critic := fun _ => Ok ([], v);
     _rollout_num_steps := 3;
     _discount := discount;
     _ent_coef := of_ratio 1 1000;
     _val_coef := one;
     _use_gpu := false |}.

(** A float32 near the largest one: [1.5 * 2^127]. *)
Definition huge : spec_float := S754_finite false 12582912 104.

End Float32.
(** * Theorems *)

(** ** The worker of envs/parallel_env.py *)

Section WorkerFacts.
Context `{Env}.

Lemma bind_ok {A B} (m : result A) (k : A -> result B) b :
  m ≫= k = Ok b -> exists a, m = Ok a /\ k a = Ok b.
Proof. destruct m as [a|e]; simpl; [eauto | discriminate]. Qed.

Lemma bind_raise {A B} (m : result A) (k : A -> result B) e :
  m ≫= k = Raise e -> m = Raise e \/ exists a, m = Ok a /\ k a = Raise e.
Proof. destruct m as [a|e']; simpl; [eauto | intros [= ->]; auto]. Qed.

Lemma dispatch_step env data :
  worker_dispatch env "step" data =
    '(ob, reward, done, i, env) ← env_step env data;
    '(ob, env) ← (if done : bool then env_reset env else Ok (ob, env));
    Ok (Continue env (StepReply ob reward done i)).
Proof. reflexivity. Qed.

Lemma dispatch_unknown env cmd data :
  ~ known_cmd cmd -> worker_dispatch env cmd data = Raise NotImplementedError.
Proof.
  intros Hk. unfold worker_dispatch.
  destruct (String.eqb_spec cmd "step") as [->|_]; [exfalso; apply Hk; red; auto|].
  destruct (String.eqb_spec cmd "reset") as [->|_]; [exfalso; apply Hk; red; auto|].
  destruct (String.eqb_spec cmd "close") as [->|_]; [exfalso; apply Hk; red; auto|].
  destruct (String.eqb_spec cmd "get_spaces") as [->|_]; [exfalso; apply Hk; red; auto 6|].
  reflexivity.
Qed.

(** Every way [worker_dispatch] can end, by command. *)
Lemma dispatch_inv env cmd data out :
  worker_dispatch env cmd data = out ->
  (cmd = "step" /\
     ((exists e, out = Raise e /\ env_raised env cmd data e) \/
      exists env' r, out = Ok (Continue env' r))) \/
  (cmd = "reset" /\
     ((exists e, out = Raise e /\ env_raised env cmd data e) \/
      exists env' r, out = Ok (Continue env' r))) \/
  (cmd = "close" /\
     ((exists e, out = Raise e /\ env_raised env cmd data e) \/
      (out = Ok Break /\ env_close env = Ok ()))) \/
  (cmd = "get_spaces" /\ exists env' r, out = Ok (Continue env' r)) \/
  (~ known_cmd cmd /\ out = Raise NotImplementedError).
Proof.
  intros <-. unfold worker_dispatch.
  destruct (String.eqb_spec cmd "step") as [->|N1].
  { left. split; [reflexivity|]. unfold env_raised.
    destruct (env_step env data) as [[[[[ob reward] done] i] env1]|e] eqn:E; simpl.
    - destruct done; simpl.
      + destruct (env_reset env1) as [[ob' env2]|e] eqn:E'; simpl.
        * right; eauto.
        * left. exists e. split; [reflexivity|]. left. split; [reflexivity|].
          right. exists ob, reward, i, env1. auto.
      + right; eauto.
    - left. exists e. split; [reflexivity|]. left. auto. }
  destruct (String.eqb_spec cmd "reset") as [->|N2].
  { right; left. split; [reflexivity|]. unfold env_raised.
    destruct (env_reset env) as [[ob' env2]|e] eqn:E; simpl.
    - right; eauto.
    - left. exists e. split; [reflexivity|]. right; left. auto. }
  destruct (String.eqb_spec cmd "close") as [->|N3].
  { right; right; left. split; [reflexivity|]. unfold env_raised.
    destruct (env_close env) as [[]|e] eqn:E; simpl.
    - right; auto.
    - left. exists e. split; [reflexivity|]. right; right. auto. }
  destruct (String.eqb_spec cmd "get_spaces") as [->|N4].
  { right; right; right; left. split; [reflexivity|]. eauto. }
  right; right; right; right. split; [|reflexivity].
  unfold known_cmd. intuition.
Qed.

Lemma known_cmd_cases cmd :
  known_cmd cmd -> cmd = "step" \/ cmd = "reset" \/ cmd = "close" \/ cmd = "get_spaces".
Proof. exact (fun x => x). Qed.

Lemma worker_iter_running env cmd data rest out :
  worker_iter (Proc (Running env) ((cmd, data) :: rest) out)
  = Some match worker_dispatch env cmd data with
         | Ok (Continue env' sent) => Proc (Running env') rest (out ++ [sent])
         | Ok Break => Proc Terminated rest out
         | Raise e => Proc (Crashed e) rest out
         end.
Proof. reflexivity. Qed.

(** C3: a step command whose environment step ends the episode makes the
    worker reset the environment at once, in the state the step left, and
    reply with the reset observation beside the reward, done flag and info of
    the step; a step that does not end the episode is replied to with the
    step's own observation.  The reply is what the worker puts on its pipe. *)
Theorem worker_step_reply_after_done (env : env_state) (data : option action)
    (rest : list msg) (out : list reply)
    (ob : observation) (reward : Qc) (done : bool) (i : info) (env1 : env_state) :
  env_step env data = Ok (ob, reward, done, i, env1) ->
  (done = true ->
   forall ob' env2, env_reset env1 = Ok (ob', env2) ->
     worker_dispatch env "step" data = Ok (Continue env2 (StepReply ob' reward true i)) /\
     worker_iter (Proc (Running env) (("step", data) :: rest) out)
       = Some (Proc (Running env2) rest (out ++ [StepReply ob' reward true i]))) /\
  (done = false ->
     worker_dispatch env "step" data = Ok (Continue env1 (StepReply ob reward false i)) /\
     worker_iter (Proc (Running env) (("step", data) :: rest) out)
       = Some (Proc (Running env1) rest (out ++ [StepReply ob reward false i]))).
Proof.
  intros Hstep. split.
  - intros -> ob' env2 Hreset.
    assert (Hd : worker_dispatch env "step" data
                 = Ok (Continue env2 (StepReply ob' reward true i))).
    { rewrite dispatch_step, Hstep. simpl. rewrite Hreset. reflexivity. }
    split; [exact Hd|]. rewrite worker_iter_running, Hd. reflexivity.
  - intros ->.
    assert (Hd : worker_dispatch env "step" data
                 = Ok (Continue env1 (StepReply ob reward false i))).
    { rewrite dispatch_step, Hstep. reflexivity. }
    split; [exact Hd|]. rewrite worker_iter_running, Hd. reflexivity.
Qed.

Lemma worker_loop_stopped st inbox outbox :
  (forall env, st <> Running env) -> worker_loop st inbox outbox = Proc st inbox outbox.
Proof. intros Hst. destruct st; [exfalso; eapply Hst; reflexivity| |]; destruct inbox; reflexivity. Qed.

(** C7: the dispatch of the worker.  [step] steps the environment and
    replies with the step's reward, done flag and info beside its
    observation, or beside the observation of a reset made at once when the
    episode is over; [reset] resets it and replies with the observation;
    [get_spaces] replies with the two spaces and leaves the environment as it
    is; after each of them the worker is back at [recv].  For these three the
    dispatch fails only when the call into the environment raised; it leaves
    the loop exactly for [close], after [env.close()] returned; any other tag
    raises [NotImplementedError]; an exception that is not the environment's
    own is that one, raised for an unknown tag; and a crashed worker serves
    nothing more: what is left in its pipe stays there. *)
Theorem worker_dispatch_protocol (env : env_state) (cmd : string) (data : option action)
    (rest : list msg) (out : list reply) :
  (cmd = "step" ->
     forall ob reward done i env1, env_step env data = Ok (ob, reward, done, i, env1) ->
       (done = false ->
          worker_dispatch env cmd data = Ok (Continue env1 (StepReply ob reward false i)) /\
          worker_iter (Proc (Running env) ((cmd, data) :: rest) out)
            = Some (Proc (Running env1) rest (out ++ [StepReply ob reward false i]))) /\
       (done = true ->
          forall ob' env2, env_reset env1 = Ok (ob', env2) ->
            worker_dispatch env cmd data
              = Ok (Continue env2 (StepReply ob' reward true i)) /\
            worker_iter (Proc (Running env) ((cmd, data) :: rest) out)
              = Some (Proc (Running env2) rest (out ++ [StepReply ob' reward true i])))) /\
  (cmd = "reset" ->
     forall ob env', env_reset env = Ok (ob, env') ->
       worker_dispatch env cmd data = Ok (Continue env' (ResetReply ob)) /\
       worker_iter (Proc (Running env) ((cmd, data) :: rest) out)
         = Some (Proc (Running env') rest (out ++ [ResetReply ob]))) /\
  (cmd = "get_spaces" ->
     worker_dispatch env cmd data
       = Ok (Continue env (SpacesReply (action_space env) (observation_space env))) /\
     worker_iter (Proc (Running env) ((cmd, data) :: rest) out)
       = Some (Proc (Running env) rest
                 (out ++ [SpacesReply (action_space env) (observation_space env)]))) /\
  (cmd = "step" \/ cmd = "reset" \/ cmd = "get_spaces" ->
     (exists env' r,
        worker_dispatch env cmd data = Ok (Continue env' r) /\
        worker_iter (Proc (Running env) ((cmd, data) :: rest) out)
          = Some (Proc (Running env') rest (out ++ [r]))) \/
     (exists e, worker_dispatch env cmd data = Raise e /\ env_raised env cmd data e)) /\
  (worker_dispatch env cmd data = Ok Break <-> cmd = "close" /\ env_close env = Ok ()) /\
  (worker_iter (Proc (Running env) ((cmd, data) :: rest) out)
     = Some (Proc Terminated rest out) <-> cmd = "close" /\ env_close env = Ok ()) /\
  (~ known_cmd cmd ->
     worker_dispatch env cmd data = Raise NotImplementedError /\
     worker_loop (Running env) ((cmd, data) :: rest) out
       = Proc (Crashed NotImplementedError) rest out) /\
  (forall e, worker_dispatch env cmd data = Raise e ->
     (~ known_cmd cmd /\ e = NotImplementedError) \/
     (known_cmd cmd /\ env_raised env cmd data e)) /\
  (forall e, worker_iter (Proc (Crashed e) rest out) = None /\
             worker_loop (Crashed e) rest out = Proc (Crashed e) rest out).
Proof.
  pose proof (dispatch_inv env cmd data _ eq_refl) as Hinv.
  pose proof (worker_iter_running env cmd data rest out) as Hiter.
  split; [|split; [|split; [|split; [|split; [|split; [|split; [|split]]]]]]].
  - intros -> ob reward done i env1 Hstep. split.
    + intros ->.
      assert (Hd : worker_dispatch env "step" data
                   = Ok (Continue env1 (StepReply ob reward false i))).
      { rewrite dispatch_step, Hstep. reflexivity. }
      split; [exact Hd|]. rewrite Hiter, Hd. reflexivity.
    + intros -> ob' env2 Hreset.
      assert (Hd : worker_dispatch env "step" data
                   = Ok (Continue env2 (StepReply ob' reward true i))).
      { rewrite dispatch_step, Hstep. simpl. rewrite Hreset. reflexivity. }
      split; [exact Hd|]. rewrite Hiter, Hd. reflexivity.
  - intros -> ob env' Hreset.
    assert (Hd : worker_dispatch env "reset" data = Ok (Continue env' (ResetReply ob))).
    { unfold worker_dispatch. simpl. rewrite Hreset. reflexivity. }
    split; [exact Hd|]. rewrite Hiter, Hd. reflexivity.
  - intros ->. split; [reflexivity|]. rewrite Hiter. reflexivity.
  - intros Hc.
    destruct Hinv as [[-> Hx]|[[-> Hx]|[[-> Hx]|[[-> Hx]|[Hn _]]]]].
    + destruct Hx as [(e & He & Hr)|(env' & r & Hr)].
      * right; eauto.
      * left. exists env', r. split; [exact Hr|]. rewrite Hiter, Hr. reflexivity.
    + destruct Hx as [(e & He & Hr)|(env' & r & Hr)].
      * right; eauto.
      * left. exists env', r. split; [exact Hr|]. rewrite Hiter, Hr. reflexivity.
    + destruct Hc as [Hc|[Hc|Hc]]; discriminate Hc.
    + destruct Hx as (env' & r & Hr).
      left. exists env', r. split; [exact Hr|]. rewrite Hiter, Hr. reflexivity.
    + exfalso. apply Hn. red. tauto.
  - split.
    + intros Hb.
      destruct Hinv as [[-> Hx]|[[-> Hx]|[[-> Hx]|[[-> Hx]|[Hn Hx]]]]];
        rewrite Hb in Hx.
      * destruct Hx as [(e & He & _)|(env' & r & Hr)]; discriminate.
      * destruct Hx as [(e & He & _)|(env' & r & Hr)]; discriminate.
      * destruct Hx as [(e & He & _)|[_ Hc]]; [discriminate|auto].
      * destruct Hx as (env' & r & Hr); discriminate.
      * discriminate.
    + intros [-> Hc]. unfold worker_dispatch. simpl. rewrite Hc. reflexivity.
  - rewrite Hiter. split.
    + intros [= Hp].
      destruct Hinv as [[-> Hx]|[[-> Hx]|[[-> Hx]|[[-> Hx]|[Hn Hx]]]]].
      * destruct Hx as [(e & He & _)|(env' & r & Hr)]; rewrite ?He, ?Hr in Hp; discriminate.
      * destruct Hx as [(e & He & _)|(env' & r & Hr)]; rewrite ?He, ?Hr in Hp; discriminate.
      * destruct Hx as [(e & He & _)|[_ Hc]]; [rewrite He in Hp; discriminate|auto].
      * destruct Hx as (env' & r & Hr); rewrite Hr in Hp; discriminate.
      * rewrite Hx in Hp; discriminate.
    + intros [-> Hc]. unfold worker_dispatch. simpl. rewrite Hc. reflexivity.
  - intros Hn. split.
    + apply dispatch_unknown; assumption.
    + simpl. rewrite dispatch_unknown by assumption. reflexivity.
  - intros e He.
    destruct Hinv as [[-> Hx]|[[-> Hx]|[[-> Hx]|[[-> Hx]|[Hn Hx]]]]];
      rewrite He in Hx.
    + right. split; [red; auto|].
      destruct Hx as [(e' & [= <-] & Hr)|(env' & r & Hr)]; [exact Hr|discriminate].
    + right. split; [red; auto|].
      destruct Hx as [(e' & [= <-] & Hr)|(env' & r & Hr)]; [exact Hr|discriminate].
    + right. split; [red; auto|].
      destruct Hx as [(e' & [= <-] & Hr)|[Hr _]]; [exact Hr|discriminate].
    + destruct Hx as (env' & r & Hr); discriminate.
    + left. split; [exact Hn|]. congruence.
  - intros e. split; [reflexivity|]. apply worker_loop_stopped. discriminate.
Qed.

End WorkerFacts.

(** The counting environment at its second step: the episode ends, and the
    reply carries the observation of the reset. *)
Lemma worker_step_reply_after_done_witness :
  @worker_iter counter_env
     (Proc (Running (1 : @env_state counter_env)) [("step", Some (7 : @action counter_env))] [])
  = Some (Proc (Running (0 : @env_state counter_env)) []
            [StepReply (ObArray (Arr [Scalar 0%Qc])) (Q2Qc (inject_Z 7)) true
               (1 : @info counter_env)]).
Proof.
  refine (proj2 (proj1 (@worker_step_reply_after_done counter_env
            (1 : @env_state counter_env) (Some (7 : @action counter_env)) [] []
            (ObArray (Arr [Scalar (Q2Qc (inject_Z 2))])) (Q2Qc (inject_Z 7)) true
            (1 : @info counter_env) (2 : @env_state counter_env) eq_refl)
          eq_refl (ObArray (Arr [Scalar 0%Qc])) (0 : @env_state counter_env) eq_refl)).
Defined.

(** ** [ParallelEnvWrapper._step] under every interleaving *)

Section StepOrder.
Context `{Env}.

Lemma mapM_Ok {A B} (f : A -> result B) (l : list A) (k : list B) :
  mapM f l = Ok k <-> Forall2 (fun x y => f x = Ok y) l k.
Proof.
  split.
  - revert k. induction l as [|x l IH]; intros k Hk; simpl in Hk.
    + injection Hk as <-. constructor.
    + destruct (f x) as [y|e] eqn:Hx; simpl in Hk; [|discriminate].
      destruct (mapM f l) as [ys|e] eqn:Hl; simpl in Hk; [|discriminate].
      injection Hk as <-. constructor; auto.
  - induction 1 as [|x y l k Hx _ IH]; simpl; [reflexivity|].
    rewrite Hx. simpl. rewrite IH. reflexivity.
Qed.

Lemma idle_inv (p : proc) : idle p -> p = Proc (status p) [] [].
Proof. destruct p as [st i o]. intros [Hi Ho]. simpl in *. subst. reflexivity. Qed.

Lemma idle_stuck (p : proc) : idle p -> worker_iter p = None /\ recv p = None.
Proof.
  intros Hp. rewrite (idle_inv p Hp). unfold worker_iter, recv. simpl.
  destruct (status p); auto.
Qed.

(** What [answered] is, by the status of the process and the dispatch. *)
Lemma answered_running (p0 : proc) (a : action) (env : env_state) :
  idle p0 -> status p0 = Running env ->
  answered p0 a =
    match worker_dispatch env "step" (Some a) with
    | Ok (Continue env' sent) => Proc (Running env') [] [sent]
    | Ok Break => Proc Terminated [] []
    | Raise e => Proc (Crashed e) [] []
    end.
Proof.
  intros Hp Hst. rewrite (idle_inv p0 Hp), Hst.
  unfold answered, run, send. simpl.
  destruct (worker_dispatch env "step" (Some a)) as [[env' sent|]|e]; reflexivity.
Qed.

Lemma answered_stopped (p0 : proc) (a : action) :
  idle p0 -> (forall env, status p0 <> Running env) ->
  answered p0 a = Proc (status p0) [("step", Some a)] [].
Proof.
  intros Hp Hst. destruct p0 as [st i o]. destruct Hp as [Hi Ho]. simpl in *. subst.
  unfold answered, run, send. cbn [status inbox outbox app].
  apply worker_loop_stopped. exact Hst.
Qed.

Lemma sent_recv (p0 : proc) (m : msg) : idle p0 -> recv (send m p0) = None.
Proof. intros [_ Ho]. unfold recv, send. simpl. rewrite Ho. reflexivity. Qed.

Lemma sent_iter (p0 : proc) (a : action) (p' : proc) :
  idle p0 -> worker_iter (send ("step", Some a) p0) = Some p' -> p' = answered p0 a.
Proof.
  intros Hp. destruct (status p0) as [env| |e] eqn:Hst.
  - rewrite (answered_running p0 a env Hp Hst).
    destruct p0 as [st i o]. destruct Hp as [Hi Ho]. simpl in Hi, Ho, Hst. subst.
    unfold send. cbn [status inbox outbox app].
    rewrite worker_iter_running. intros [= <-].
    destruct (worker_dispatch env "step" (Some a)) as [[env' sent|]|e]; reflexivity.
  - unfold worker_iter, send. cbn [status]. rewrite Hst. discriminate.
  - unfold worker_iter, send. cbn [status]. rewrite Hst. discriminate.
Qed.

Lemma answered_iter (p0 : proc) (a : action) :
  idle p0 -> worker_iter (answered p0 a) = None.
Proof.
  intros Hp. destruct (status p0) as [env| |e] eqn:Hst.
  - rewrite (answered_running p0 a env Hp Hst).
    destruct (worker_dispatch env "step" (Some a)) as [[env' sent|]|e]; reflexivity.
  - rewrite answered_stopped by (auto; rewrite Hst; discriminate). rewrite Hst. reflexivity.
  - rewrite answered_stopped by (auto; rewrite Hst; discriminate). rewrite Hst. reflexivity.
Qed.

(** The manager receives from an answered process exactly the reply of the
    dispatch of its step command. *)
Lemma answered_recv (p0 : proc) (a : action) (r : reply) (p' : proc) :
  idle p0 -> recv (answered p0 a) = Some (r, p') ->
  exists env env',
    status p0 = Running env /\
    worker_dispatch env "step" (Some a) = Ok (Continue env' r) /\
    p' = Proc (Running env') [] [].
Proof.
  intros Hp. destruct (status p0) as [env| |e] eqn:Hst.
  - rewrite (answered_running p0 a env Hp Hst).
    destruct (worker_dispatch env "step" (Some a)) as [[env' sent|]|e] eqn:Hd;
      unfold recv; simpl; intros [= <- <-]. eauto.
  - rewrite answered_stopped by (auto; rewrite Hst; discriminate). discriminate.
  - rewrite answered_stopped by (auto; rewrite Hst; discriminate). discriminate.
Qed.

Lemma after_recv_stuck (p0 : proc) (a : action) (r : reply) (p : proc) :
  idle p0 -> after_recv p0 a r p -> worker_iter p = None.
Proof.
  intros Hp Hr. destruct (answered_recv p0 a r p Hp Hr) as (env & env' & _ & _ & ->).
  reflexivity.
Qed.

End StepOrder.

Section StepRuns.
Context `{Env}.
Variables (ps0 : list proc) (actions : list action).
Hypothesis Hidle : Forall idle ps0.

Lemma idle_lookup i p0 : ps0 !! i = Some p0 -> idle p0.
Proof. intros Hi. eapply Forall_lookup_1; eauto. Qed.

Lemma step_inv_init : step_inv ps0 actions (System (Sending 0) ps0).
Proof.
  split; [reflexivity|]. simpl. intros i p0 Hi. split; [lia|auto].
Qed.

End StepRuns.

(** What [recv_all] returns once every process has answered. *)
Lemma recv_all_answered `{Env} (ps0 : list proc) (actions : list action)
    (results : list reply) :
  length results = length ps0 ->
  (forall i p0, ps0 !! i = Some p0 ->
     exists a r p, actions !! i = Some a /\ results !! i = Some r /\ after_recv p0 a r p) ->
  fst (recv_all (map run (send_steps ps0 actions))) = Ok results.
Proof.
  revert actions results.
  induction ps0 as [|p0 ps IH]; intros actions results Hlen Hall.
  - destruct results; [|discriminate]. destruct actions; reflexivity.
  - destruct results as [|r results]; [discriminate|].
    destruct (Hall 0 p0 eq_refl) as (a & r' & p & Ha & Hr & Hrecv).
    destruct actions as [|a' actions]; [discriminate|].
    simpl in Ha, Hr. injection Ha as ->. injection Hr as ->.
    cbn [send_steps map recv_all]. red in Hrecv. unfold answered in Hrecv.
    rewrite Hrecv.
    specialize (IH actions results).
    destruct (recv_all (map run (send_steps ps actions))) as [rs ps'].
    simpl in IH |- *. rewrite IH; [reflexivity|simpl in Hlen; lia|].
    intros i q Hq. exact (Hall (S i) q Hq).
Qed.

Section StepRuns2.
Context `{Env}.
Variables (ps0 : list proc) (actions : list action).
Hypothesis Hidle : Forall idle ps0.

Lemma step_inv_step (s s' : system) :
  step_inv ps0 actions s -> sys_step actions s s' -> step_inv ps0 actions s'.
Proof.
  intros [Hlen Hinv] Hstep.
  destruct Hstep as [k a p ps Ha Hp|k ps Hend|k results p r p' ps Hp Hrecv
                    |k results ps Hk|i p p' c ps Hp Hiter];
    unfold step_inv; cbn [pc procs] in *.
  - (* the manager sends to pipe k *)
    split; [rewrite length_insert; exact Hlen|].
    intros i p0 Hi. destruct (Hinv i p0 Hi) as [Hlt Hge]. split.
    + intros Hik. destruct (decide (i = k)) as [->|Hne].
      * rewrite (Hge ltac:(lia)) in Hp. injection Hp as <-.
        exists a, (send ("step", Some a) p0). split; [exact Ha|]. split.
        -- apply list_lookup_insert_eq. rewrite Hlen. eapply lookup_lt_Some; eauto.
        -- left; reflexivity.
      * destruct (Hlt ltac:(lia)) as (a' & q & Ha' & Hq & Hs).
        exists a', q. rewrite list_lookup_insert_ne by auto. auto.
    + intros Hik. rewrite list_lookup_insert_ne by lia. apply Hge. lia.
  - (* the loop over zip is over *)
    split; [exact Hlen|].
    split; [reflexivity|]. split; [lia|].
    intros i p0 Hi. destruct (Hinv i p0 Hi) as [Hlt Hge].
    assert (Hik : forall a, actions !! i = Some a -> i < k).
    { intros a Ha. destruct (decide (i < k)) as [|Hn]; [assumption|exfalso].
      destruct Hend as [Hend|Hend].
      - apply lookup_ge_None_1 in Hend. apply lookup_lt_Some in Ha. lia.
      - apply lookup_ge_None_1 in Hend. apply lookup_lt_Some in Hi. lia. }
    split; [lia|]. split.
    + intros _ a Ha. destruct (Hlt (Hik a Ha)) as (a' & q & Ha' & Hq & Hs).
      assert (a' = a) as -> by congruence. eauto.
    + intros _ Hnone. destruct (decide (i < k)) as [Hlt'|Hn].
      * destruct (Hlt Hlt') as (a' & q & Ha' & _). congruence.
      * apply Hge. lia.
  - (* the manager receives from pipe k *)
    destruct Hinv as (Hres & Hk & Hinv).
    assert (Hkl : k < length ps0) by (rewrite <- Hlen; eapply lookup_lt_Some; eauto).
    destruct (lookup_lt_is_Some_2 ps0 k Hkl) as [p0 Hp0].
    pose proof (idle_lookup ps0 Hidle k p0 Hp0) as Hidle0.
    assert (Hk' : exists a, actions !! k = Some a /\ after_recv p0 a r p').
    { destruct (Hinv k p0 Hp0) as (_ & Hsome & Hnone).
      destruct (actions !! k) as [a|] eqn:Ha.
      - destruct (Hsome ltac:(lia) a eq_refl) as (q & Hq & [Hs|Hs]).
        + rewrite Hq in Hp. injection Hp as <-. subst q.
          rewrite sent_recv in Hrecv by assumption. discriminate.
        + rewrite Hq in Hp. injection Hp as <-. subst q. exists a. split; auto.
      - rewrite (Hnone ltac:(lia) eq_refl) in Hp. injection Hp as <-.
        destruct (idle_stuck p0 Hidle0) as [_ Hr]. congruence. }
    destruct Hk' as (a & Ha & Hafter).
    split; [rewrite length_insert; exact Hlen|].
    split; [rewrite length_app; simpl; lia|]. split; [lia|].
    intros i q0 Hi. destruct (Hinv i q0 Hi) as (Hlt & Hsome & Hnone). split; [|split].
    + intros Hik. destruct (decide (i = k)) as [->|Hne].
      * assert (q0 = p0) as -> by congruence.
        exists a, r, p'. split; [exact Ha|]. split.
        -- rewrite lookup_app_r by lia. rewrite Hres, Nat.sub_diag. reflexivity.
        -- split; [|exact Hafter]. apply list_lookup_insert_eq. lia.
      * destruct (Hlt ltac:(lia)) as (a' & r' & q & Ha' & Hr' & Hq & Hs).
        exists a', r', q. rewrite list_lookup_insert_ne by auto.
        rewrite lookup_app_l by lia. auto.
    + intros Hik a' Ha'. rewrite list_lookup_insert_ne by lia. apply Hsome; [lia|exact Ha'].
    + intros Hik Ha'. rewrite list_lookup_insert_ne by lia. apply Hnone; [lia|exact Ha'].
  - (* the comprehension is over: the manager batches and returns *)
    destruct Hinv as (Hres & Hkle & Hinv).
    apply lookup_ge_None_1 in Hk.
    assert (k = length ps0) as -> by lia.
    split; [exact Hlen|].
    unfold _step.
    pose proof (recv_all_answered ps0 actions results Hres) as Hall.
    destruct (recv_all (map run (send_steps ps0 actions))) as [rs ps'].
    simpl in Hall |- *. rewrite Hall; [reflexivity|].
    intros i p0 Hi. destruct (Hinv i p0 Hi) as (Hlt & _).
    destruct (Hlt ltac:(eapply lookup_lt_Some; eauto)) as (a & r & p & Ha & Hr & _ & Hs).
    exists a, r, p. auto.
  - (* worker i runs one iteration of its loop *)
    assert (Hil : i < length ps0) by (rewrite <- Hlen; eapply lookup_lt_Some; eauto).
    destruct (lookup_lt_is_Some_2 ps0 i Hil) as [p0 Hp0].
    pose proof (idle_lookup ps0 Hidle i p0 Hp0) as Hidle0.
    assert (Hmove : forall a, after_send p0 a p -> after_send p0 a p').
    { intros a [->| ->].
      - right. eapply sent_iter; eauto.
      - rewrite answered_iter in Hiter by assumption. discriminate. }
    assert (Hnot0 : p <> p0).
    { intros ->. destruct (idle_stuck p0 Hidle0) as [Hw _]. congruence. }
    split; [rewrite length_insert; exact Hlen|].
    destruct c as [k|k results|r].
    + intros j q0 Hj. destruct (Hinv j q0 Hj) as [Hlt Hge].
      destruct (decide (j = i)) as [->|Hne].
      * assert (q0 = p0) as -> by congruence. split.
        -- intros Hik. destruct (Hlt Hik) as (a & q & Ha & Hq & Hs).
           assert (q = p) as -> by congruence.
           exists a, p'. split; [exact Ha|]. split; [|auto].
           apply list_lookup_insert_eq. lia.
        -- intros Hik. exfalso. apply Hnot0. specialize (Hge Hik). congruence.
      * rewrite list_lookup_insert_ne by auto. split; auto.
    + destruct Hinv as (Hres & Hkle & Hinv). split; [exact Hres|]. split; [exact Hkle|].
      intros j q0 Hj. destruct (Hinv j q0 Hj) as (Hlt & Hsome & Hnone).
      destruct (decide (j = i)) as [->|Hne].
      * assert (q0 = p0) as -> by congruence. split; [|split].
        -- intros Hik. exfalso. destruct (Hlt Hik) as (a & r & q & _ & _ & Hq & Hs).
           assert (q = p) as -> by congruence.
           rewrite (after_recv_stuck p0 a r p Hidle0 Hs) in Hiter. discriminate.
        -- intros Hik a Ha. destruct (Hsome Hik a Ha) as (q & Hq & Hs).
           assert (q = p) as -> by congruence.
           exists p'. split; [|auto]. apply list_lookup_insert_eq. lia.
        -- intros Hik Ha. exfalso. apply Hnot0. specialize (Hnone Hik Ha). congruence.
      * rewrite list_lookup_insert_ne by auto. split; [|split]; auto.
    + exact Hinv.
Qed.

Lemma step_inv_rtc (s : system) :
  rtc (sys_step actions) (System (Sending 0) ps0) s -> step_inv ps0 actions s.
Proof.
  revert s. apply (rtc_ind_r (R := sys_step actions) (step_inv ps0 actions)).
  - apply step_inv_init.
  - intros y z _ Hyz Hy. eapply step_inv_step; eauto.
Qed.

End StepRuns2.

(** *** A run that returns: send all, let every worker serve, receive all *)

Section StepSchedule.
Context `{Env}.
Variable actions : list action.

Lemma insert_middle {A} (pre post : list A) (x y : A) :
  <[length pre := y]> (pre ++ x :: post) = pre ++ y :: post.
Proof.
  rewrite insert_app_r_alt by lia. rewrite Nat.sub_diag. reflexivity.
Qed.

Lemma run_send_all (pre : list proc) (ps : list proc) (acts : list action) :
  (forall j a, acts !! j = Some a -> actions !! (length pre + j) = Some a) ->
  (forall j, acts !! j = None -> actions !! (length pre + j) = None) ->
  rtc (sys_step actions) (System (Sending (length pre)) (pre ++ ps))
                         (System (Receiving 0 []) (pre ++ send_steps ps acts)).
Proof.
  revert pre acts. induction ps as [|p ps IH]; intros pre acts Hsome Hnone.
  - simpl. apply rtc_once. apply mgr_sent. right.
    apply lookup_ge_None_2. rewrite app_nil_r. lia.
  - destruct acts as [|a acts].
    + simpl. apply rtc_once. apply mgr_sent. left.
      specialize (Hnone 0 eq_refl). rewrite Nat.add_0_r in Hnone. exact Hnone.
    + cbn [send_steps].
      eapply rtc_l.
      * apply (mgr_send actions (length pre) a p).
        -- specialize (Hsome 0 a eq_refl). rewrite Nat.add_0_r in Hsome. exact Hsome.
        -- apply list_lookup_middle. reflexivity.
      * rewrite insert_middle.
        replace (pre ++ send ("step", Some a) p :: ps)
          with ((pre ++ [send ("step", Some a) p]) ++ ps)
          by (rewrite <- app_assoc; reflexivity).
        replace (pre ++ send ("step", Some a) p :: send_steps ps acts)
          with ((pre ++ [send ("step", Some a) p]) ++ send_steps ps acts)
          by (rewrite <- app_assoc; reflexivity).
        replace (S (length pre)) with (length (pre ++ [send ("step", Some a) p]))
          by (rewrite length_app; simpl; lia).
        apply IH.
        -- intros j b Hj. rewrite length_app. simpl.
           replace (length pre + 1 + j) with (length pre + S j) by lia.
           apply Hsome. exact Hj.
        -- intros j Hj. rewrite length_app. simpl.
           replace (length pre + 1 + j) with (length pre + S j) by lia.
           apply Hnone. exact Hj.
Qed.

(** One process runs its loop until it stops or waits. *)
Lemma run_one (c : mgr_pc) (pre post : list proc) (st : wstatus) (inb : list msg)
    (outb : list reply) :
  rtc (sys_step actions) (System c (pre ++ Proc st inb outb :: post))
                         (System c (pre ++ worker_loop st inb outb :: post)).
Proof.
  revert st outb. induction inb as [|[cmd data] rest IH]; intros st outb.
  - destruct st; apply rtc_refl.
  - destruct st as [env| |e]; try apply rtc_refl.
    eapply rtc_l.
    + apply (worker_move actions (length pre) (Proc (Running env) ((cmd, data) :: rest) outb)).
      * apply list_lookup_middle. reflexivity.
      * apply worker_iter_running.
    + rewrite insert_middle. cbn [worker_loop].
      destruct (worker_dispatch env cmd data) as [[env' sent|]|e]; try apply rtc_refl.
      apply IH.
Qed.

Lemma run_workers (c : mgr_pc) (pre ps : list proc) :
  rtc (sys_step actions) (System c (pre ++ ps)) (System c (pre ++ map run ps)).
Proof.
  revert pre. induction ps as [|p ps IH]; intros pre; [apply rtc_refl|].
  cbn [map]. destruct p as [st inb outb]. etrans.
  - apply run_one.
  - set (p := Proc st inb outb). change (worker_loop st inb outb) with (run p).
    replace (pre ++ run p :: ps) with ((pre ++ [run p]) ++ ps)
      by (rewrite <- app_assoc; reflexivity).
    replace (pre ++ run p :: map run ps) with ((pre ++ [run p]) ++ map run ps)
      by (rewrite <- app_assoc; reflexivity).
    apply IH.
Qed.

Lemma run_recv_all (pre ps ps' : list proc) (done results : list reply) :
  length done = length pre ->
  recv_all ps = (Ok results, ps') ->
  rtc (sys_step actions) (System (Receiving (length pre) done) (pre ++ ps))
                         (System (Returned (batch_results (done ++ results))) (pre ++ ps')).
Proof.
  revert pre ps' done results. induction ps as [|p ps IH]; intros pre ps' done results Hd Hr.
  - simpl in Hr. injection Hr as <- <-. rewrite !app_nil_r.
    apply rtc_once. apply mgr_return. apply lookup_ge_None_2. lia.
  - cbn [recv_all] in Hr. destruct (recv p) as [[r p1]|] eqn:Hp; [|discriminate].
    destruct (recv_all ps) as [rs ps1] eqn:Hps.
    destruct rs as [rs|e]; [|discriminate]. simpl in Hr. injection Hr as <- <-.
    eapply rtc_l.
    + apply (mgr_recv actions (length pre) done p r p1).
      * apply list_lookup_middle. lia.
      * exact Hp.
    + rewrite insert_middle.
      replace (pre ++ p1 :: ps) with ((pre ++ [p1]) ++ ps)
        by (rewrite <- app_assoc; reflexivity).
      replace (pre ++ p1 :: ps1) with ((pre ++ [p1]) ++ ps1)
        by (rewrite <- app_assoc; reflexivity).
      replace (done ++ r :: rs) with ((done ++ [r]) ++ rs)
        by (rewrite <- app_assoc; reflexivity).
      replace (S (length pre)) with (length (pre ++ [p1]))
        by (rewrite length_app; simpl; lia).
      apply IH; [rewrite !length_app; simpl; lia|reflexivity].
Qed.

End StepSchedule.

(** Unless a [recv] blocks, [_step] is one of the runs of the processes. *)
Lemma step_is_a_run `{Env} (ps0 : list proc) (actions : list action)
    (results : list reply) (ps' : list proc) :
  recv_all (map run (send_steps ps0 actions)) = (Ok results, ps') ->
  _step ps0 actions = (batch_results results, ps') /\
  rtc (sys_step actions) (System (Sending 0) ps0)
                         (System (Returned (batch_results results)) ps').
Proof.
  intros Hr. split.
  - unfold _step. rewrite Hr. reflexivity.
  - etrans; [|etrans].
    + apply (run_send_all actions [] ps0 actions); intros j; simpl; auto.
    + apply (run_workers actions (Receiving 0 []) []).
    + apply (run_recv_all actions [] _ ps' [] results eq_refl Hr).
Qed.

(** *** What the batch holds *)

Section Batch.
Context `{Env}.

Lemma recv_all_Ok (ps ps' : list proc) (results : list reply) :
  recv_all ps = (Ok results, ps') ->
  length results = length ps /\ length ps' = length ps /\
  forall i p, ps !! i = Some p ->
    exists r p', results !! i = Some r /\ ps' !! i = Some p' /\ recv p = Some (r, p').
Proof.
  revert ps' results. induction ps as [|p ps IH]; intros ps' results Hr.
  - simpl in Hr. injection Hr as <- <-. repeat split; auto. intros i p Hi. discriminate.
  - cbn [recv_all] in Hr. destruct (recv p) as [[r p1]|] eqn:Hp; [|discriminate].
    destruct (recv_all ps) as [rs ps1] eqn:Hps.
    destruct rs as [rs|e]; [|discriminate]. simpl in Hr. injection Hr as <- <-.
    destruct (IH ps1 rs eq_refl) as (Hl1 & Hl2 & Hall).
    repeat split; simpl; try lia.
    intros [|i] q Hq; simpl in Hq.
    + injection Hq as <-. exists r, p1. auto.
    + apply Hall. exact Hq.
Qed.

Lemma send_steps_lookup (ps : list proc) (actions : list action) (i : nat) (p : proc) :
  ps !! i = Some p ->
  send_steps ps actions !! i =
    Some match actions !! i with Some a => send ("step", Some a) p | None => p end.
Proof.
  revert actions i. induction ps as [|q ps IH]; intros actions i Hi; [discriminate|].
  destruct actions as [|a actions].
  - simpl. rewrite Hi. reflexivity.
  - destruct i as [|i]; simpl in *.
    + injection Hi as ->. reflexivity.
    + apply IH. exact Hi.
Qed.

Lemma unzip4_Ok (results : list reply) obs rewards dones infos :
  unzip4 results = Ok (obs, rewards, dones, infos) ->
  length obs = length results /\ length rewards = length results /\
  length dones = length results /\ length infos = length results /\
  forall i r, results !! i = Some r ->
    exists ob reward done inf,
      r = StepReply ob reward done inf /\ obs !! i = Some ob /\
      rewards !! i = Some reward /\ dones !! i = Some done /\ infos !! i = Some inf.
Proof.
  revert obs rewards dones infos.
  induction results as [|r results IH]; intros obs rewards dones infos Hu.
  - simpl in Hu. injection Hu as <- <- <- <-. repeat split; auto. intros i r Hi. discriminate.
  - destruct r as [ob reward done inf| |]; simpl in Hu; try discriminate.
    destruct (unzip4 results) as [[[[obs' rewards'] dones'] infos']|e]; [|discriminate].
    simpl in Hu. injection Hu as <- <- <- <-.
    destruct (IH _ _ _ _ eq_refl) as (H1 & H2 & H3 & H4 & Hall).
    repeat split; simpl; try lia.
    intros [|i] r Hi; simpl in Hi.
    + injection Hi as <-. exists ob, reward, done, inf. auto.
    + apply Hall. exact Hi.
Qed.

Lemma np_stack_Ok (arrays : list ndarray) (a : ndarray) :
  np_stack arrays = Ok a -> a = Arr arrays.
Proof.
  unfold np_stack. destruct arrays as [|b arrays]; [discriminate|].
  destruct (forallb _ _); [|discriminate]. intros [= <-]. reflexivity.
Qed.

Lemma stack_obs_cons (ob0 : observation) (obs' : list observation) :
  stack_obs (ob0 :: obs') =
    match ob0 with
    | ObTuple fields0 =>
        fields ← mapM (fun c => col ← mapM (fun ob => ob_getitem ob c) (ob0 :: obs');
                                np_stack col) (seq 0 (length fields0));
        Ok (ObTuple fields)
    | ObArray _ => a ← np_stack (map asanyarray (ob0 :: obs')); Ok (ObArray a)
    end.
Proof. reflexivity. Qed.

(** Stacking keeps the order of the workers, for an array and for each
    field of a tuple. *)
Lemma stack_obs_slots (obs : list observation) (batch : observation) :
  stack_obs obs = Ok batch ->
  forall i ob, obs !! i = Some ob -> ob_in_slot batch (length obs) i ob.
Proof.
  destruct obs as [|ob0 obs']; [discriminate|].
  rewrite stack_obs_cons. set (obs := ob0 :: obs').
  destruct ob0 as [a0|fields0]; intros Hs i ob Hi.
  - apply bind_ok in Hs. destruct Hs as (a & Ha & [= <-]).
    apply np_stack_Ok in Ha. subst a.
    exists (map asanyarray obs). split; [reflexivity|]. split; [apply length_map|].
    change (map asanyarray obs) with (asanyarray <$> obs).
    rewrite list_lookup_fmap, Hi. reflexivity.
  - apply bind_ok in Hs. destruct Hs as (fields & Hf & [= <-]).
    apply mapM_Ok in Hf. intros c col Hc.
    destruct (Forall2_lookup_r _ _ _ _ _ Hf Hc) as (c' & Hc' & Hcol).
    apply lookup_seq in Hc'. destruct Hc' as [-> _]. cbv beta in Hcol.
    rewrite Nat.add_0_l in Hcol. apply bind_ok in Hcol. destruct Hcol as (items & Hitems & Hcol).
    apply np_stack_Ok in Hcol. subst col.
    apply mapM_Ok in Hitems.
    destruct (Forall2_lookup_l _ _ _ _ _ Hitems Hi) as (x & Hx & Hget).
    exists items, x. split; [reflexivity|].
    split; [symmetry; eapply Forall2_length; eauto|]. auto.
Qed.

(** What stacking returns is the stack: nothing but the workers'
    observations, each field of worker 0's tuple once. *)
Lemma stack_obs_stacked (obs : list observation) (batch : observation) :
  stack_obs obs = Ok batch -> stacked batch obs.
Proof.
  destruct obs as [|ob0 obs']; [discriminate|].
  rewrite stack_obs_cons. unfold stacked.
  destruct ob0 as [a0|fields0]; intros Hs.
  - apply bind_ok in Hs. destruct Hs as (a & Ha & [= <-]).
    apply np_stack_Ok in Ha. subst a. reflexivity.
  - apply bind_ok in Hs. destruct Hs as (fields & Hf & [= <-]).
    apply mapM_Ok in Hf. exists fields. split; [reflexivity|].
    pose proof (Forall2_length _ _ _ Hf) as Hlen. rewrite length_seq in Hlen.
    split; [symmetry; exact Hlen|].
    intros c Hc.
    assert (Hseq : seq 0 (length fields0) !! c = Some c).
    { apply lookup_seq. split; [reflexivity|exact Hc]. }
    destruct (Forall2_lookup_l _ _ _ _ _ Hf Hseq) as (col & Hcol & Hst).
    cbv beta in Hst. apply bind_ok in Hst. destruct Hst as (items & Hitems & Hst).
    apply np_stack_Ok in Hst. subst col.
    exists items. split; [exact Hcol|].
    apply mapM_Ok in Hitems. apply Forall2_flip. exact Hitems.
Qed.

Lemma batch_results_stacked (results : list reply) obs rewards dones infos :
  batch_results results = Ok (obs, rewards, dones, infos) ->
  exists obs_w, length obs_w = length results /\ stacked obs obs_w /\
    forall i r, results !! i = Some r ->
      exists ob reward done inf, r = StepReply ob reward done inf /\ obs_w !! i = Some ob.
Proof.
  unfold batch_results, zip_star. intros Hb.
  destruct results as [|r0 results']; [discriminate|]. set (results := r0 :: results') in *.
  destruct (unzip4 results) as [[[[obs' rewards'] dones'] infos']|e] eqn:Hu; [|discriminate].
  simpl in Hb.
  destruct (stack_obs obs') as [b|e] eqn:Hs; [|discriminate].
  simpl in Hb. injection Hb as <- <- <- <-.
  destruct (unzip4_Ok _ _ _ _ _ Hu) as (H1 & _ & _ & _ & Hall).
  exists obs'. split; [exact H1|]. split; [apply stack_obs_stacked; exact Hs|].
  intros i r Hi. destruct (Hall i r Hi) as (ob & reward & done & inf & -> & Ho & _).
  exists ob, reward, done, inf. auto.
Qed.

Lemma batch_results_Ok (results : list reply) obs rewards dones infos :
  batch_results results = Ok (obs, rewards, dones, infos) ->
  1 <= length results /\
  length rewards = length results /\ length dones = length results /\
  length infos = length results /\
  forall i r, results !! i = Some r ->
    exists ob reward done inf,
      r = StepReply ob reward done inf /\ ob_in_slot obs (length results) i ob /\
      rewards !! i = Some reward /\ dones !! i = Some done /\ infos !! i = Some inf.
Proof.
  unfold batch_results, zip_star. intros Hb.
  destruct results as [|r0 results']; [discriminate|]. set (results := r0 :: results') in *.
  destruct (unzip4 results) as [[[[obs' rewards'] dones'] infos']|e] eqn:Hu; [|discriminate].
  simpl in Hb.
  destruct (stack_obs obs') as [b|e] eqn:Hs; [|discriminate].
  simpl in Hb. injection Hb as <- <- <- <-.
  destruct (unzip4_Ok _ _ _ _ _ Hu) as (H1 & H2 & H3 & H4 & Hall).
  split; [simpl; lia|]. repeat split; auto.
  intros i r Hi. destruct (Hall i r Hi) as (ob & reward & done & inf & -> & Ho & Hr & Hd & Hf).
  exists ob, reward, done, inf. repeat split; auto.
  rewrite <- H1. eapply stack_obs_slots; eauto.
Qed.

End Batch.

Section StepTheorem.
Context `{Env}.

Lemma recv_all_total (ps0 : list proc) (actions : list action) :
  Forall idle ps0 -> length ps0 <= length actions ->
  (forall i p0 a, ps0 !! i = Some p0 -> actions !! i = Some a ->
     exists env env' r, status p0 = Running env /\
                        worker_dispatch env "step" (Some a) = Ok (Continue env' r)) ->
  exists results ps', recv_all (map run (send_steps ps0 actions)) = (Ok results, ps').
Proof.
  revert actions. induction ps0 as [|p0 ps IH]; intros actions Hidle Hlen Hall.
  - exists [], []. destruct actions; reflexivity.
  - destruct actions as [|a actions]; [simpl in Hlen; lia|].
    apply Forall_cons in Hidle. destruct Hidle as [Hp0 Hidle].
    destruct (Hall 0 p0 a eq_refl eq_refl) as (env & env' & r & Hst & Hd).
    destruct (IH actions Hidle ltac:(simpl in Hlen; lia)) as (rs & ps' & Hrs).
    { intros i q b Hq Hb. exact (Hall (S i) q b Hq Hb). }
    exists (r :: rs), (Proc (Running env') [] [] :: ps').
    cbn [send_steps map recv_all].
    change (run (send ("step", Some a) p0)) with (answered p0 a).
    rewrite (answered_running p0 a env Hp0 Hst), Hd. cbn [recv outbox status inbox].
    rewrite Hrs. reflexivity.
Qed.

Lemma length_send_steps (ps : list proc) (actions : list action) :
  length (send_steps ps actions) = length ps.
Proof.
  revert actions. induction ps as [|p ps IH]; intros [|a actions]; simpl; auto.
Qed.

(** What a batch returned by [_step] holds, slot by slot. *)
Lemma step_batch_slots (ps0 : list proc) (actions : list action)
    obs rewards dones infos :
  Forall idle ps0 ->
  fst (_step ps0 actions) = Ok (obs, rewards, dones, infos) ->
  length rewards = length ps0 /\ length dones = length ps0 /\
  length infos = length ps0 /\ length (snd (_step ps0 actions)) = length ps0 /\
  forall i p0, ps0 !! i = Some p0 ->
    exists a env env' ob reward done inf,
      actions !! i = Some a /\ status p0 = Running env /\
      worker_dispatch env "step" (Some a)
        = Ok (Continue env' (StepReply ob reward done inf)) /\
      recv (answered p0 a)
        = Some (StepReply ob reward done inf, Proc (Running env') [] []) /\
      ob_in_slot obs (length ps0) i ob /\
      rewards !! i = Some reward /\ dones !! i = Some done /\
      infos !! i = Some inf /\
      snd (_step ps0 actions) !! i = Some (Proc (Running env') [] []).
Proof.
  intros Hidle Hb. unfold _step in *.
  destruct (recv_all (map run (send_steps ps0 actions))) as [rs ps'] eqn:Hr.
  cbn [fst snd] in *. destruct rs as [results|e]; [|discriminate]. simpl in Hb.
  destruct (recv_all_Ok _ _ _ Hr) as (Hl1 & Hl2 & Hrecv).
  rewrite length_map, length_send_steps in Hl1, Hl2.
  destruct (batch_results_Ok _ _ _ _ _ Hb) as (_ & H2 & H3 & H4 & Hslots).
  rewrite Hl1 in H2, H3, H4, Hslots. repeat split; auto.
  intros i p0 Hp0.
  pose proof (Forall_lookup_1 _ _ _ _ Hidle Hp0) as Hidle0.
  assert (Hp : map run (send_steps ps0 actions) !! i
               = Some (run match actions !! i with
                           | Some a => send ("step", Some a) p0
                           | None => p0
                           end)).
  { change (map run (send_steps ps0 actions)) with (run <$> send_steps ps0 actions).
    rewrite list_lookup_fmap, (send_steps_lookup ps0 actions i p0 Hp0). reflexivity. }
  destruct (Hrecv i _ Hp) as (r & p' & Hri & Hpi & Hrp).
  destruct (actions !! i) as [a|] eqn:Ha.
  - change (run (send ("step", Some a) p0)) with (answered p0 a) in Hrp.
    destruct (answered_recv p0 a r p' Hidle0 Hrp) as (env & env' & Hst & Hd & ->).
    destruct (Hslots i r Hri) as (ob & reward & done & inf & -> & Hob & Hrw & Hdn & Hin).
    exists a, env, env', ob, reward, done, inf. repeat split; auto.
  - exfalso. rewrite (idle_inv p0 Hidle0) in Hrp. unfold run, recv in Hrp.
    cbn [status inbox outbox] in Hrp. destruct (status p0); discriminate.
Qed.

(** The observation of a batch returned by [_step] is the stack of the
    observations the workers replied with, in the order of the workers. *)
Lemma step_batch_stacked (ps0 : list proc) (actions : list action)
    obs rewards dones infos :
  Forall idle ps0 ->
  fst (_step ps0 actions) = Ok (obs, rewards, dones, infos) ->
  exists obs_w, length obs_w = length ps0 /\ stacked obs obs_w /\
    forall i p0 a env, ps0 !! i = Some p0 -> actions !! i = Some a ->
      status p0 = Running env ->
      exists env' ob reward done inf,
        worker_dispatch env "step" (Some a)
          = Ok (Continue env' (StepReply ob reward done inf)) /\
        obs_w !! i = Some ob.
Proof.
  intros Hidle Hb. unfold _step in *.
  destruct (recv_all (map run (send_steps ps0 actions))) as [rs ps'] eqn:Hr.
  cbn [fst snd] in *. destruct rs as [results|e]; [|discriminate]. simpl in Hb.
  destruct (recv_all_Ok _ _ _ Hr) as (Hl1 & _ & Hrecv).
  rewrite length_map, length_send_steps in Hl1.
  destruct (batch_results_stacked _ _ _ _ _ Hb) as (obs_w & Hlen & Hst & Hall).
  exists obs_w. split; [lia|]. split; [exact Hst|].
  intros i p0 a env Hp0 Ha Hstat.
  pose proof (Forall_lookup_1 _ _ _ _ Hidle Hp0) as Hidle0.
  assert (Hp : map run (send_steps ps0 actions) !! i = Some (answered p0 a)).
  { change (map run (send_steps ps0 actions)) with (run <$> send_steps ps0 actions).
    rewrite list_lookup_fmap, (send_steps_lookup ps0 actions i p0 Hp0), Ha. reflexivity. }
  destruct (Hrecv i _ Hp) as (r & p' & Hri & _ & Hrp).
  destruct (answered_recv p0 a r p' Hidle0 Hrp) as (env0 & env' & Hst0 & Hd & ->).
  assert (env0 = env) as -> by congruence.
  destruct (Hall i r Hri) as (ob & reward & done & inf & -> & Hob).
  exists env', ob, reward, done, inf. auto.
Qed.


End StepTheorem.

(** ** [A2CAgent._boostrap] *)

Section Bootstrap.
Variable self : A2CAgent.

Lemma H_bind_eq {A B} (m : H A) (k : A -> H B) (h h' : heap) (a : A) :
  m h = Ok (a, h') -> (m ≫= k) h = k a h'.
Proof. intros Hm. unfold mbind, H_bind. rewrite Hm. reflexivity. Qed.

Lemma H_bind_raise {A B} (m : H A) (k : A -> H B) (h : heap) (e : exn) :
  m h = Raise e -> (m ≫= k) h = Raise e.
Proof. intros Hm. unfold mbind, H_bind. rewrite Hm. reflexivity. Qed.

(** Run the first command of a sequence on the store at hand. *)
Ltac h_step :=
  etransitivity; [apply H_bind_eq | cbv beta].

Lemma lift_Ok {A} (r : result A) (a : A) (h : heap) : r = Ok a -> lift r h = Ok (a, h).
Proof. intros ->. reflexivity. Qed.

Lemma imul_last (r : tref) (x v : list Qc) (h : heap) :
  storage r = length h -> length v = length x ->
  imul r x (h ++ [v]) = Ok ((), h ++ [zip_with Qcmult v x]).
Proof.
  intros Hr Hlen. unfold imul. cbv beta. rewrite Hr, list_lookup_middle by reflexivity.
  rewrite decide_True by exact Hlen. rewrite insert_middle. reflexivity.
Qed.

Lemma read_last (r : tref) (v : list Qc) (h : heap) :
  storage r = length h -> read r (h ++ [v]) = Ok (v, h ++ [v]).
Proof.
  intros Hr. unfold read. cbv beta. rewrite Hr, list_lookup_middle by reflexivity. reflexivity.
Qed.

Lemma pointwise_same {A} (f : A -> A -> A) (a b : list A) :
  length a = length b -> pointwise f a b = Ok (zip_with f a b).
Proof. intros Hl. unfold pointwise. rewrite decide_True by exact Hl. reflexivity. Qed.

(** The loop on a store whose last storage is the one [r] names. *)
Lemma boostrap_loop_heap (steps : list (list Qc * list Qc)) :
  forall (r : tref) (acc : list tref) (h : heap) (v : list Qc) (n : nat),
    Forall (fun s => length s.1 = n /\ length s.2 = n) steps ->
    length v = n -> storage r = length h ->
    boostrap_loop self steps r acc (h ++ [v]) =
      Ok (acc ++ map (fun k => TRef (length h + k) [n; 1]) (seq 1 (length steps)),
          h ++ loop_storages (_discount self) steps v).
Proof.
  induction steps as [|[reward done] steps IH]; intros r acc h v n Hsteps Hv Hr.
  - simpl. rewrite app_nil_r. reflexivity.
  - apply Forall_cons in Hsteps. destruct Hsteps as [[Hrw Hdn] Hsteps]. simpl in Hrw, Hdn.
    cbn [boostrap_loop].
    erewrite H_bind_eq; [|apply imul_last; [exact Hr|unfold rsub; rewrite length_map; lia]].
    erewrite H_bind_eq; [|apply read_last; exact Hr].
    set (v' := zip_with Qcmult v (rsub 1 done)).
    assert (Hv' : length v' = n).
    { unfold v', rsub. rewrite length_zip_with, length_map. lia. }
    erewrite H_bind_eq;
      [|apply lift_Ok, pointwise_same; unfold rmul; rewrite length_map; lia].
    set (v'' := zip_with Qcplus (rmul (_discount self) v') reward).
    assert (Hv'' : length v'' = n).
    { unfold v'', rmul. rewrite length_zip_with, length_map. lia. }
    erewrite H_bind_eq; [|reflexivity].
    rewrite (IH _ _ (h ++ [v']) v'' n Hsteps Hv'').
    2:{ simpl. reflexivity. }
    cbn [loop_storages length seq map]. fold v' v''.
    rewrite <- !app_assoc. cbn [app].
    unfold unsqueeze1. cbn [storage tsize app]. rewrite Hv'', length_app. cbn [length].
    rewrite <- (fmap_S_seq 1).
    change (map ?f (S <$> ?l)) with (f <$> (S <$> l)).
    rewrite <- list_fmap_compose.
    replace (length h + 1) with (S (length h)) by lia.
    replace (length h + 1) with (S (length h)) by lia.
    do 4 f_equal.
    apply list_fmap_ext. intros _ k _. simpl. f_equal. lia.
Qed.

Lemma read_targets {A} (cells : list A) (n m : nat) :
  length cells = S m ->
  mapM (fun t => getitem cells (storage t))
       (reverse (map (fun k => TRef (0 + k) [n; 1]) (seq 1 m)))
  = Ok (reverse (tail cells)).
Proof.
  intros Hlen. apply mapM_Ok, Forall2_reverse, Forall2_same_length_lookup_2.
  - rewrite length_map, length_seq, length_tl. lia.
  - intros i t v Ht Hv.
    change (map ?f ?l) with (f <$> l) in Ht. rewrite list_lookup_fmap in Ht.
    destruct (seq 1 m !! i) as [k|] eqn:Hk; [|discriminate]. injection Ht as <-.
    apply lookup_seq in Hk. destruct Hk as [-> _]. cbn [storage].
    rewrite lookup_tail in Hv. unfold getitem. simpl. rewrite Hv. reflexivity.
Qed.

Lemma shaped_zip {A} (T n : nat) (reward_mb done_mb : list (list A)) :
  shaped T n reward_mb -> shaped T n done_mb ->
  length (zip reward_mb done_mb) = T /\
  Forall (fun s => length s.1 = n /\ length s.2 = n) (zip reward_mb done_mb).
Proof.
  intros [Hr1 Hr2] [Hd1 Hd2]. split; [rewrite length_zip_with; lia|].
  apply Forall_forall. intros [r d] Hin. apply elem_of_zip_with in Hin.
  destruct Hin as (r' & d' & [= -> ->] & Hr & Hd). simpl.
  rewrite Forall_forall in Hr2, Hd2. auto.
Qed.

(** With buffers of one shape, [_boostrap] returns one tensor object per
    step, each on a storage of its own, in a store whose storages are
    [loop_storages]. *)
Lemma boostrap_heap (T n : nat) (reward_mb done_mb : list (list Qc))
    (last_obs : observation) (v done_last : list Qc) :
  shaped T n reward_mb -> shaped T n done_mb ->
  value_of self last_obs v -> length v = n -> last done_mb = Some done_last ->
  _boostrap self reward_mb done_mb last_obs [] =
    Ok (reverse (map (fun k => TRef (0 + k) [n; 1]) (seq 1 T)),
        loop_storages (_discount self) (reverse (zip reward_mb done_mb))
          (zip_with Qcmult v (rsub 1 done_last))).
Proof.
  intros Hrw Hdn (ts & vars & logits & Hts & Hvars & Hnet) Hv Hlast.
  destruct (shaped_zip T n reward_mb done_mb Hrw Hdn) as [Hzl Hz].
  destruct Hdn as [Hd1 Hd2].
  assert (Hdl : length done_last = n).
  { rewrite Forall_forall in Hd2. apply Hd2. rewrite last_lookup in Hlast.
    eapply list_elem_of_lookup_2; eauto. }
  unfold _boostrap.
  set (v0 := zip_with Qcmult v (rsub 1 done_last)).
  assert (Hv0 : length v0 = n).
  { unfold v0, rsub. rewrite length_zip_with, length_map. lia. }
  h_step; [apply lift_Ok; exact Hts|].
  h_step; [apply lift_Ok; exact Hvars|].
  h_step; [apply lift_Ok; exact Hnet|].
  h_step; [apply lift_Ok; unfold getitem_last; rewrite Hlast; reflexivity|].
  h_step; [apply lift_Ok, pointwise_same; unfold rsub; rewrite length_map; lia|].
  fold v0.
  h_step; [reflexivity|].
  h_step.
  { apply (boostrap_loop_heap _ _ [] [] v0 n); [|exact Hv0|reflexivity].
    apply Forall_reverse. exact Hz. }
  cbn [mret H_ret app length]. rewrite length_reverse, Hzl. reflexivity.
Qed.

Lemma length_loop_storages (discount : Qc) (steps : list (list Qc * list Qc)) (v : list Qc) :
  length (loop_storages discount steps v) = S (length steps).
Proof.
  revert v. induction steps as [|[r d] steps IH]; intros v; [reflexivity|].
  simpl. rewrite IH. reflexivity.
Qed.

(** Read when [_boostrap] returns, they are [targets_by_value]. *)
Lemma boostrap_targets_value (T n : nat) (reward_mb done_mb : list (list Qc))
    (last_obs : observation) (v : list Qc) :
  1 <= T -> shaped T n reward_mb -> shaped T n done_mb ->
  value_of self last_obs v -> length v = n ->
  boostrap_targets self reward_mb done_mb last_obs
  = Ok (targets_by_value (_discount self) reward_mb done_mb v).
Proof.
  intros HT Hrw Hdn Hval Hv.
  destruct (last done_mb) as [done_last|] eqn:Hlast.
  2:{ apply last_None in Hlast. subst done_mb. destruct Hdn as [Hd1 _]. simpl in Hd1. lia. }
  unfold boostrap_targets, targets_by_value. rewrite Hlast.
  rewrite (boostrap_heap T n reward_mb done_mb last_obs v done_last Hrw Hdn Hval Hv Hlast).
  cbn [mbind result_bind].
  apply read_targets. rewrite length_loop_storages, length_reverse.
  f_equal. apply (shaped_zip T n); assumption.
Qed.

End Bootstrap.

(** *** Rows of the storages *)

Lemma lookup_rsub (c : Qc) (row : list Qc) (i : nat) :
  rsub c row !! i = (fun x => c - x)%Qc <$> row !! i.
Proof. unfold rsub. change (map ?f ?l) with (f <$> l). apply list_lookup_fmap. Qed.

Lemma lookup_rmul (c : Qc) (row : list Qc) (i : nat) :
  rmul c row !! i = (fun x => c * x)%Qc <$> row !! i.
Proof. unfold rmul. change (map ?f ?l) with (f <$> l). apply list_lookup_fmap. Qed.

(** *** The targets at an episode boundary inside the rollout *)

Lemma Qc_rows_eq (l1 l2 : list (list Qc)) :
  map (map this) l1 = map (map this) l2 -> l1 = l2.
Proof.
  revert l2. induction l1 as [|r1 l1 IH]; intros [|r2 l2] Heq; try discriminate.
  - reflexivity.
  - simpl in Heq. injection Heq as Hr Hl. f_equal; [|apply IH; exact Hl].
    clear -Hr. revert r2 Hr. induction r1 as [|x r1 IH]; intros [|y r2] Hr; try discriminate.
    + reflexivity.
    + simpl in Hr. injection Hr as Hx Hr. f_equal; [|apply IH; exact Hr].
      apply Qc_is_canon. rewrite Hx. reflexivity.
Qed.

Lemma Qc_row_eq (r1 r2 : list Qc) : map this r1 = map this r2 -> r1 = r2.
Proof.
  intros Hr. assert (H : [r1] = [r2]) by (apply Qc_rows_eq; simpl; rewrite Hr; reflexivity).
  injection H as ->. reflexivity.
Qed.

(** C1, at an input where the code leaves the recursion: two replicas and
    two steps, the first of which ends the episode of replica 0.  The
    recursion of the specification gives the targets [0; 5.5] for replica 0
    and [4.95; 5.5] for replica 1; [_boostrap] returns [[0; 4.95]; [0; 5.5]],
    the second target of replica 0 being [0]: [r *= 1 - done] writes into
    the storage that the target appended one pass earlier still shares with
    [r].  On the scenario the specification works out (three steps, the only
    done flag at the last one) the returned targets are the expected ones. *)
Theorem boostrap_overwrites_later_target :
  boostrap_targets (constant_agent [] [Q2Qc 5; Q2Qc 5] (Q2Qc (9 # 10)) 2 false)
    [[0%Qc; 0%Qc]; [1%Qc; 1%Qc]] [[1%Qc; 0%Qc]; [0%Qc; 0%Qc]] (ObArray (Arr []))
  = Ok [[0%Qc; Q2Qc (99 # 20)]; [0%Qc; Q2Qc (11 # 2)]] /\
  spec_targets (Q2Qc (9 # 10)) [0%Qc; 1%Qc] [1%Qc; 0%Qc] (Q2Qc 5)
  = [0%Qc; Q2Qc (11 # 2)] /\
  spec_targets (Q2Qc (9 # 10)) [0%Qc; 1%Qc] [0%Qc; 0%Qc] (Q2Qc 5)
  = [Q2Qc (99 # 20); Q2Qc (11 # 2)] /\
  boostrap_targets (constant_agent [] [Q2Qc 5; Q2Qc 5] (Q2Qc (9 # 10)) 3 false)
    [[1%Qc; 0%Qc]; [0%Qc; 1%Qc]; [1%Qc; 1%Qc]]
    [[0%Qc; 0%Qc]; [0%Qc; 0%Qc]; [1%Qc; 0%Qc]] (ObArray (Arr []))
  = Ok [[Q2Qc (181 # 100); Q2Qc (5355 # 1000)];
        [Q2Qc (9 # 10); Q2Qc (595 # 100)];
        [1%Qc; Q2Qc (55 # 10)]].
Proof.
  split_and!.
  - rewrite (boostrap_targets_value _ 2 2 _ _ _ [Q2Qc 5; Q2Qc 5]).
    + apply f_equal. apply Qc_rows_eq. vm_compute. reflexivity.
    + lia.
    + split; [reflexivity|repeat constructor].
    + split; [reflexivity|repeat constructor].
    + exists (TOne (from_numpy (Arr []))), [], []. repeat split.
    + reflexivity.
  - apply Qc_row_eq. vm_compute. reflexivity.
  - apply Qc_row_eq. vm_compute. reflexivity.
  - rewrite (boostrap_targets_value _ 3 2 _ _ _ [Q2Qc 5; Q2Qc 5]).
    + apply f_equal. apply Qc_rows_eq. vm_compute. reflexivity.
    + lia.
    + split; [reflexivity|repeat constructor].
    + split; [reflexivity|repeat constructor].
    + exists (TOne (from_numpy (Arr []))), [], []. repeat split.
    + reflexivity.
Qed.

(** C5, at an input where the code leaves the claim: with [discount = 0],
    two replicas and two steps, the first ending the episode of replica 0,
    the target of the second step is returned as [0] for replica 0 although
    its reward is [1]: the pass for the first step multiplies the stored
    target in place by [1 - done]. *)
Theorem boostrap_discount_zero_loses_reward :
  exists target,
    boostrap_targets (constant_agent [] [Q2Qc 5; Q2Qc 5] 0%Qc 2 false)
      [[0%Qc; 0%Qc]; [1%Qc; 1%Qc]] [[1%Qc; 0%Qc]; [0%Qc; 0%Qc]] (ObArray (Arr []))
    = Ok target /\
    target = [[0%Qc; 0%Qc]; [0%Qc; 1%Qc]] /\
    entry target 1 0 = Some 0%Qc /\
    entry [[0%Qc; 0%Qc]; [1%Qc; 1%Qc]] 1 0 = Some 1%Qc /\
    entry target 1 0 <> entry [[0%Qc; 0%Qc]; [1%Qc; 1%Qc]] 1 0.
Proof.
  exists [[0%Qc; 0%Qc]; [0%Qc; 1%Qc]]. split_and!.
  - rewrite (boostrap_targets_value _ 2 2 _ _ _ [Q2Qc 5; Q2Qc 5]).
    + apply f_equal. apply Qc_rows_eq. vm_compute. reflexivity.
    + lia.
    + split; [reflexivity|repeat constructor].
    + split; [reflexivity|repeat constructor].
    + exists (TOne (from_numpy (Arr []))), [], []. repeat split.
    + reflexivity.
  - reflexivity.
  - reflexivity.
  - reflexivity.
  - cbn. intros Heq. injection Heq as Heq. discriminate Heq.
Qed.

(** ** Converting observations, and what fails without a GPU *)

Section Conversion.
Context `{Env} `{Torch} `{!ActionRows}.

Lemma mapM_name_o (fields : list ndarray) :
  fields <> [] ->
  mapM (fun array : ndarray => o ← name_o; Ok (from_numpy o)) fields = Raise (NameError "o").
Proof. destruct fields; [congruence|reflexivity]. Qed.

Lemma ndarray_to_tensor_cpu_tuple (self : A2CAgent) (fields : list ndarray) :
  _use_gpu self = false -> fields <> [] ->
  _ndarray_to_tensor self (ObTuple fields) = Raise (NameError "o").
Proof.
  intros Hcpu Hne. unfold _ndarray_to_tensor. rewrite Hcpu, mapM_name_o by exact Hne.
  reflexivity.
Qed.

Lemma mapM_const {A B} (c : result B) (l : list A) :
  l <> [] ->
  mapM (fun _ : A => c) l = match c with Ok b => Ok (map (fun _ => b) l) | Raise e => Raise e end.
Proof.
  destruct c as [b|e].
  - intros _. induction l as [|x l IH]; [reflexivity|]. simpl. rewrite IH. reflexivity.
  - destruct l; [congruence|reflexivity].
Qed.

(** C9: without a GPU, [_ndarray_to_tensor] raises [NameError] for the name
    [o] on every tuple of at least one array; so do [_rollout] and
    [_boostrap] when their observation is such a tuple, and [step] raises
    too (the same error, unless numpy refuses the tuple first); with a GPU
    the tuple is converted array by array, and a tuple is converted only
    then. *)
Theorem ndarray_to_tensor_cpu_tuple_raises (self : A2CAgent) (fields : list ndarray) :
  _use_gpu self = false -> fields <> [] ->
  _ndarray_to_tensor self (ObTuple fields) = Raise (NameError "o") /\
  (forall g, step self g (ObTuple fields) = Raise (NameError "o") \/
             step self g (ObTuple fields) = Raise ValueError) /\
  (forall g envs, _rollout self g envs (ObTuple fields) = Raise (NameError "o")) /\
  (forall reward_mb done_mb h,
     _boostrap self reward_mb done_mb (ObTuple fields) h = Raise (NameError "o")) /\
  (forall self' : A2CAgent,
     _use_gpu self' = true ->
     _ndarray_to_tensor self' (ObTuple fields)
       = Ok (TList (map (fun array => to_cuda (from_numpy array)) fields))) /\
  (forall (self' : A2CAgent) ts,
     _ndarray_to_tensor self' (ObTuple fields) = Ok ts -> _use_gpu self' = true).
Proof.
  intros Hcpu Hne.
  pose proof (ndarray_to_tensor_cpu_tuple self fields Hcpu Hne) as Hconv.
  split; [exact Hconv|]. split; [|split; [|split; [|split]]].
  - intros g. unfold step.
    rewrite (mapM_const (a ← np_asarray fields; Ok (Arr [a])) fields Hne).
    destruct (np_asarray fields) as [a|e] eqn:Ha; cbn [mbind result_bind].
    + left. rewrite ndarray_to_tensor_cpu_tuple; [reflexivity|exact Hcpu|].
      destruct fields; [congruence|discriminate].
    + right. f_equal. unfold np_asarray, np_stack in Ha.
      destruct fields as [|b fields]; [discriminate|].
      destruct (forallb _ _); [discriminate|]. congruence.
  - intros g envs. unfold _rollout.
    destruct (Z.to_nat (_rollout_num_steps self)) as [|n].
    + simpl. unfold boostrap_targets, _boostrap.
      rewrite (H_bind_raise _ _ _ (NameError "o")); [reflexivity|].
      unfold lift. rewrite Hconv. reflexivity.
    + cbn [rollout_loop]. rewrite Hconv. reflexivity.
  - intros reward_mb done_mb h. unfold _boostrap.
    apply H_bind_raise. unfold lift. rewrite Hconv. reflexivity.
  - intros self' Hgpu. unfold _ndarray_to_tensor. rewrite Hgpu. reflexivity.
  - intros self' ts Hts. destruct (_use_gpu self') eqn:Hgpu; [reflexivity|].
    rewrite ndarray_to_tensor_cpu_tuple in Hts by assumption. discriminate.
Qed.

End Conversion.

(** The two features of a Zerg observation, on an agent without a GPU. *)
Lemma ndarray_to_tensor_cpu_tuple_raises_witness :
  _ndarray_to_tensor (constant_agent [] [Q2Qc 5] (Q2Qc (9 # 10)) 5 false)
    (ObTuple [Arr [Arr [Arr [Scalar 0%Qc]]]; Arr [Scalar 0%Qc]])
  = Raise (NameError "o").
Proof.
  refine (proj1 (@ndarray_to_tensor_cpu_tuple_raises counter_env toy_torch counter_rows
            (constant_agent [] [Q2Qc 5] (Q2Qc (9 # 10)) 5 false)
            [Arr [Arr [Arr [Scalar 0%Qc]]]; Arr [Scalar 0%Qc]] eq_refl _)).
  discriminate.
Defined.

(** ** The buffers of [_rollout] *)

Lemma H_bind_inv {A B} (m : H A) (k : A -> H B) (h : list (list Qc)) (x : B * list (list Qc)) :
  (m ≫= k) h = Ok x -> exists a h', m h = Ok (a, h') /\ k a h' = Ok x.
Proof.
  unfold mbind, H_bind. destruct (m h) as [[a h']|e]; [eauto|discriminate].
Qed.

Lemma boostrap_loop_length (self : A2CAgent) (steps : list (list Qc * list Qc)) :
  forall r acc h ts h',
    boostrap_loop self steps r acc h = Ok (ts, h') ->
    length ts = length acc + length steps.
Proof.
  induction steps as [|[reward done] steps IH]; intros r acc h ts h' Hl.
  - injection Hl as <- <-. simpl. lia.
  - cbn [boostrap_loop] in Hl.
    apply H_bind_inv in Hl. destruct Hl as (_ & h1 & _ & Hl).
    apply H_bind_inv in Hl. destruct Hl as (rv & h2 & _ & Hl).
    apply H_bind_inv in Hl. destruct Hl as (v & h3 & _ & Hl).
    apply H_bind_inv in Hl. destruct Hl as (r' & h4 & _ & Hl).
    apply IH in Hl. rewrite Hl, length_app. simpl. lia.
Qed.

(** [_boostrap] returns one target per zipped step, and needs one step. *)
Lemma boostrap_targets_length (self : A2CAgent) (reward_mb done_mb : list (list Qc))
    (last_obs : observation) (target : list (list Qc)) :
  boostrap_targets self reward_mb done_mb last_obs = Ok target ->
  length target = length (zip reward_mb done_mb) /\ done_mb <> [].
Proof.
  unfold boostrap_targets. intros Hb.
  apply bind_ok in Hb. destruct Hb as ([ts h] & Hb & Hread).
  apply mapM_Ok in Hread. rewrite <- (Forall2_length _ _ _ Hread). clear Hread.
  unfold _boostrap in Hb.
  apply H_bind_inv in Hb. destruct Hb as (x1 & h1 & _ & Hb).
  apply H_bind_inv in Hb. destruct Hb as (x2 & h2 & _ & Hb).
  apply H_bind_inv in Hb. destruct Hb as ([x3 last_value] & h3 & _ & Hb).
  apply H_bind_inv in Hb. destruct Hb as (done_last & h4 & Hlast & Hb).
  apply H_bind_inv in Hb. destruct Hb as (v & h5 & _ & Hb).
  apply H_bind_inv in Hb. destruct Hb as (r & h6 & _ & Hb).
  apply H_bind_inv in Hb. destruct Hb as (tv & h7 & Hloop & Hb).
  injection Hb as <- <-. apply boostrap_loop_length in Hloop.
  rewrite length_reverse, Hloop, length_reverse. split; [reflexivity|].
  intros ->. discriminate Hlast.
Qed.

Section Rollout.
Context `{Env} `{Torch} `{!ActionRows}.

Lemma unwrap_ndarray_to_tensor (self : A2CAgent) (obs : observation) (ts : tensors) :
  _ndarray_to_tensor self obs = Ok ts -> unwrap ts = obs.
Proof.
  unfold _ndarray_to_tensor. destruct obs as [a|fields].
  - destruct (_use_gpu self); intros [= <-]; reflexivity.
  - destruct (_use_gpu self).
    + intros [= <-]. simpl. f_equal. rewrite map_map. simpl. apply map_id.
    + intros Hts. apply bind_ok in Hts. destruct Hts as (l & Hl & [= <-]).
      apply mapM_Ok in Hl. destruct Hl as [|x y l k Hx]; [reflexivity|discriminate Hx].
Qed.

(** The processes a returned [_step] leaves behind wait with empty pipes. *)
Lemma step_leaves_idle (envs : list proc) (actions : list action) batch :
  Forall idle envs -> fst (_step envs actions) = Ok batch ->
  Forall idle (snd (_step envs actions)).
Proof.
  intros Hidle Hb. destruct batch as [[[obs rewards] dones] infos].
  destruct (step_batch_slots envs actions obs rewards dones infos Hidle Hb)
    as (_ & _ & _ & Hlen & Hslots).
  apply Forall_lookup_2. intros i p Hp.
  destruct (lookup_lt_is_Some_2 envs i) as [p0 Hp0].
  { rewrite <- Hlen. eapply lookup_lt_Some; eauto. }
  destruct (Hslots i p0 Hp0) as (a & env & env' & ob & rw & dn & inf & _ & _ & _ & _ & _ & _ & _ & _ & Hp').
  rewrite Hp' in Hp. injection Hp as <-. split; reflexivity.
Qed.

(** The loop of [_rollout]: every pass appends one entry to each buffer, and
    what the buffers hold for replica [i] is what worker [i] alone replies to
    the actions sampled for it. *)
Lemma rollout_loop_spec (self : A2CAgent) (n : nat) :
  forall g envs obs mb mb' obs' g' envs',
    rollout_loop self n g envs obs mb = Ok (mb', obs', g', envs') ->
    Forall idle envs ->
    exists (om : list tensors) (am : list (list nat)) (rm dm : list (list Qc))
           (seen : list observation),
      obs_mb mb' = obs_mb mb ++ om /\ action_mb mb' = action_mb mb ++ am /\
      reward_mb mb' = reward_mb mb ++ rm /\ done_mb mb' = done_mb mb ++ dm /\
      length om = n /\ length am = n /\ length rm = n /\ length dm = n /\
      length seen = n /\
      Forall idle envs' /\ length envs' = length envs /\
      last (obs :: seen) = Some obs' /\
      (forall t ts, om !! t = Some ts -> (obs :: seen) !! t = Some (unwrap ts)) /\
      forall i p, envs !! i = Some p ->
        exists ks replies p',
          column i am = Some ks /\
          solo p (map np_action ks) = Some (replies, p') /\
          envs' !! i = Some p' /\ length replies = n /\
          forall t r, replies !! t = Some r ->
            exists ob reward done inf batch,
              r = StepReply ob reward done inf /\
              entry rm t i = Some reward /\
              entry dm t i = Some (float_of_bool done) /\
              seen !! t = Some batch /\ ob_in_slot batch (length envs) i ob.
Proof.
  induction n as [|n IH]; intros g envs obs mb mb' obs' g' envs' Hloop Hidle.
  - injection Hloop as <- <- <- <-.
    exists [], [], [], [], []. rewrite !app_nil_r.
    split_and!; auto.
    + intros t ts Ht. discriminate.
    + intros i p Hp. exists [], [], p.
      split_and!; auto. intros t r Hr. discriminate.
  - cbn [rollout_loop] in Hloop.
    apply bind_ok in Hloop. destruct Hloop as (obs_t & Hconv & Hloop).
    apply bind_ok in Hloop. destruct Hloop as (vars & _ & Hloop).
    apply bind_ok in Hloop. destruct Hloop as ([prob_logit value] & _ & Hloop).
    destruct (_sample_action g prob_logit) as [act g1].
    destruct (_step envs (map np_action act)) as [r envs1] eqn:Hstep.
    apply bind_ok in Hloop. destruct Hloop as ([[[obs1 reward] done] infos] & -> & Hloop).
    assert (Hfst : fst (_step envs (map np_action act)) = Ok (obs1, reward, done, infos))
      by (rewrite Hstep; reflexivity).
    assert (Hsnd : snd (_step envs (map np_action act)) = envs1)
      by (rewrite Hstep; reflexivity).
    pose proof (step_leaves_idle envs _ _ Hidle Hfst) as Hidle1. rewrite Hsnd in Hidle1.
    destruct (step_batch_slots envs _ obs1 reward done infos Hidle Hfst)
      as (Hlr & Hld & _ & Hlen1 & Hslots). rewrite Hsnd in Hlen1, Hslots.
    destruct (IH _ _ _ _ _ _ _ _ Hloop Hidle1)
      as (om & am & rm & dm & seen & Ho & Ha & Hr & Hd & Hlo & Hla & Hlrm & Hldm & Hls
          & Hidle' & Hlen' & Hlast & Hseen & Hrep).
    cbn [obs_mb action_mb reward_mb done_mb] in Ho, Ha, Hr, Hd.
    exists (obs_t :: om), (act :: am), (reward :: rm), (map float_of_bool done :: dm),
           (obs1 :: seen).
    rewrite Ho, Ha, Hr, Hd, <- !app_assoc. cbn [length].
    split_and!; auto; try lia.
    + intros [|t] ts Ht; simpl in Ht |- *.
      * injection Ht as <-. f_equal. symmetry.
        eapply unwrap_ndarray_to_tensor; eauto.
      * apply Hseen in Ht. exact Ht.
    + intros i p Hp.
      destruct (Hslots i p Hp)
        as (a & env & env1 & ob & rw & dn & inf & Ha0 & _ & _ & Hrecv & Hob & Hrw & Hdn & _ & Hp1).
      destruct (Hrep i _ Hp1) as (ks & replies & p' & Hks & Hsolo & Hp' & Hlrep & Hall).
      change (map np_action act) with (np_action <$> act) in Ha0.
      rewrite list_lookup_fmap in Ha0.
      destruct (act !! i) as [k|] eqn:Hk; [|discriminate]. injection Ha0 as <-.
      exists (k :: ks), (StepReply ob rw dn inf :: replies), p'.
      split; [unfold column in *; simpl; rewrite Hk; simpl; rewrite Hks; reflexivity|].
      split; [cbn [map solo]; rewrite Hrecv; simpl; rewrite Hsolo; reflexivity|].
      split; [exact Hp'|]. split; [simpl; lia|].
      intros [|t] r Hr'; simpl in Hr'.
      * injection Hr' as <-. exists ob, rw, dn, inf, obs1. unfold entry. simpl.
        change (map float_of_bool done) with (float_of_bool <$> done).
        rewrite list_lookup_fmap, Hdn, Hrw. split_and!; auto.
      * destruct (Hall t r Hr') as (ob' & rw' & dn' & inf' & b & -> & Hb1 & Hb2 & Hb3 & Hb4).
        exists ob', rw', dn', inf', b. rewrite <- Hlen1. split_and!; auto.
Qed.

(** C8: a rollout that [_rollout] returns holds exactly [rollout_num_steps]
    transitions: its observation, action, reward and done buffers and its
    targets all have that length, which is at least one; and through the
    whole sequence slot [i] of every batch is replica [i]: what the buffers
    hold for [i] is what worker [i], on its own, replies to the actions
    sampled for it, and its observations sit in slot [i] of the stacked
    observations. *)
Theorem rollout_holds_rollout_num_steps (self : A2CAgent) (g : rng) (envs : list proc)
    (obs : observation) (obs_out : list tensors) (action_out : list (list nat))
    (target_out : list (list Qc)) (obs' : observation) (g' : rng) (envs' : list proc) :
  Forall idle envs ->
  _rollout self g envs obs = Ok (obs_out, action_out, target_out, obs', g', envs') ->
  exists (mb : buffers) (seen : list observation),
    rollout_loop self (Z.to_nat (_rollout_num_steps self)) g envs obs (Buffers [] [] [] [])
      = Ok (mb, obs', g', envs') /\
    obs_out = obs_mb mb /\ action_out = action_mb mb /\
    boostrap_targets self (reward_mb mb) (done_mb mb) obs' = Ok target_out /\
    (1 <= _rollout_num_steps self)%Z /\
    Z.of_nat (length obs_out) = _rollout_num_steps self /\
    Z.of_nat (length action_out) = _rollout_num_steps self /\
    Z.of_nat (length (reward_mb mb)) = _rollout_num_steps self /\
    Z.of_nat (length (done_mb mb)) = _rollout_num_steps self /\
    Z.of_nat (length target_out) = _rollout_num_steps self /\
    last (obs :: seen) = Some obs' /\
    (forall t ts, obs_out !! t = Some ts -> (obs :: seen) !! t = Some (unwrap ts)) /\
    forall i p, envs !! i = Some p ->
      exists ks replies p',
        column i action_out = Some ks /\
        solo p (map np_action ks) = Some (replies, p') /\
        envs' !! i = Some p' /\
        Z.of_nat (length replies) = _rollout_num_steps self /\
        forall t r, replies !! t = Some r ->
          exists ob reward done inf batch,
            r = StepReply ob reward done inf /\
            entry (reward_mb mb) t i = Some reward /\
            entry (done_mb mb) t i = Some (float_of_bool done) /\
            seen !! t = Some batch /\ ob_in_slot batch (length envs) i ob.
Proof.
  intros Hidle Hroll. unfold _rollout in Hroll.
  apply bind_ok in Hroll. destruct Hroll as ([[[mb obs1] g1] envs1] & Hloop & Hroll).
  apply bind_ok in Hroll. destruct Hroll as (tg & Htg & Hroll).
  injection Hroll as <- <- <- <- <- <-.
  destruct (rollout_loop_spec self _ _ _ _ _ _ _ _ _ Hloop Hidle)
    as (om & am & rm & dm & seen & Ho & Ha & Hr & Hd & Hlo & Hla & Hlrm & Hldm & Hls
        & Hidle' & Hlen' & Hlast & Hseen & Hrep).
  cbn [obs_mb action_mb reward_mb done_mb app] in Ho, Ha, Hr, Hd.
  destruct (boostrap_targets_length self _ _ _ _ Htg) as [Hlt Hne].
  rewrite length_zip_with, Hr, Hd, Hlrm, Hldm, Nat.min_id in Hlt.
  assert (Hpos : (1 <= _rollout_num_steps self)%Z).
  { rewrite Hd in Hne. destruct dm; [congruence|]. simpl in Hldm. lia. }
  exists mb, seen. rewrite Ho, Ha, Hr, Hd, Hlo, Hla, Hlrm, Hldm, Hlt.
  split_and!; auto; try lia.
  - rewrite <- Hr, <- Hd. exact Htg.
  - intros i p Hp.
    destruct (Hrep i p Hp) as (ks & replies & p' & Hks & Hsolo & Hp' & Hlrep & Hall).
    exists ks, replies, p'. split_and!; auto. lia.
Qed.

End Rollout.

(** Two counting environments and a rollout of two steps. *)
Lemma rollout_holds_rollout_num_steps_witness :
  exists obs_out action_out target_out obs' g' envs',
    @_rollout counter_env toy_torch counter_rows
      (constant_agent [[1%Qc; 1%Qc]; [1%Qc; 1%Qc]] [Q2Qc 5; Q2Qc 5] (Q2Qc (9 # 10)) 2 false)
      (0 : @rng toy_torch)
      [Proc (@Running counter_env 0) [] []; Proc (@Running counter_env 0) [] []]
      (ObArray (Arr [Arr [Scalar 0%Qc]; Arr [Scalar 0%Qc]]))
    = Ok (obs_out, action_out, target_out, obs', g', envs') /\
    Z.of_nat (length obs_out) = 2%Z /\ Z.of_nat (length action_out) = 2%Z /\
    Z.of_nat (length target_out) = 2%Z.
Proof.
  destruct (@_rollout counter_env toy_torch counter_rows
      (constant_agent [[1%Qc; 1%Qc]; [1%Qc; 1%Qc]] [Q2Qc 5; Q2Qc 5] (Q2Qc (9 # 10)) 2 false)
      (0 : @rng toy_torch)
      [Proc (@Running counter_env 0) [] []; Proc (@Running counter_env 0) [] []]
      (ObArray (Arr [Arr [Scalar 0%Qc]; Arr [Scalar 0%Qc]])))
    as [[[[[[obs_out action_out] target_out] obs'] g'] envs']|e] eqn:E.
  - exists obs_out, action_out, target_out, obs', g', envs'.
    split; [reflexivity|].
    destruct (@rollout_holds_rollout_num_steps counter_env toy_torch counter_rows
                _ _ [Proc (@Running counter_env 0) [] []; Proc (@Running counter_env 0) [] []]
                _ _ _ _ _ _ _ ltac:(repeat constructor) E)
      as (mb & seen & _ & _ & _ & _ & _ & Ho & Ha & _ & _ & Ht & _).
    auto.
  - vm_compute in E. discriminate E.
Defined.

(** ** The loss of [_update] *)

Section Loss.
Context `{Torch}.

Lemma mapM_zip_checked {A B C} (f : A -> B -> C) (ok : A -> B -> bool) (e : exn)
    (a : list A) (b : list B) (p : list C) :
  mapM (fun xy : A * B => if ok xy.1 xy.2 then Ok (f xy.1 xy.2) else Raise e) (zip a b) = Ok p ->
  p = zip_with f a b.
Proof.
  revert b p. induction a as [|x a IH]; intros [|y b] p Hp; simpl in Hp;
    try (injection Hp as <-; reflexivity).
  destruct (ok x y); [|discriminate]. simpl in Hp.
  apply bind_ok in Hp. destruct Hp as (k & Hk & [= <-]).
  simpl. f_equal. apply IH. exact Hk.
Qed.

Lemma mat_mul_Ok (a b p : list (list Qc)) :
  mat_mul a b = Ok p -> p = zip_with (zip_with Qcmult) a b.
Proof.
  unfold mat_mul. destruct (decide (length a = length b)); [|discriminate].
  intros Hp.
  apply (mapM_zip_checked (zip_with Qcmult)
           (fun x y => bool_decide (length x = length y)) RuntimeError).
  rewrite <- Hp. clear. induction (zip a b) as [|[x y] l IH]; [reflexivity|].
  simpl. rewrite IH. destruct (decide (length x = length y)) as [Hl|Hl].
  - rewrite bool_decide_eq_true_2 by exact Hl. reflexivity.
  - rewrite bool_decide_eq_false_2 by exact Hl. reflexivity.
Qed.

Lemma gather1_Ok (m : list (list Qc)) (index : list nat) (c : list Qc) :
  gather1 m index = Ok c ->
  length m = length index /\
  c = zip_with (fun row a => default 0%Qc (row !! a)) m index.
Proof.
  unfold gather1. destruct (decide (length m = length index)) as [Hl|]; [|discriminate].
  intros Hc. split; [exact Hl|]. clear Hl.
  revert index c Hc. induction m as [|row m IH]; intros [|a index] c Hc; simpl in Hc;
    try (injection Hc as <-; reflexivity).
  destruct (row !! a) as [x|] eqn:Hx; [|discriminate]. simpl in Hc.
  apply bind_ok in Hc. destruct Hc as (k & Hk & [= <-]).
  simpl. rewrite Hx. simpl. f_equal. apply IH. exact Hk.
Qed.

Lemma zip_with_Qcmult_comm (a b : list Qc) : zip_with Qcmult a b = zip_with Qcmult b a.
Proof.
  revert b. induction a as [|x a IH]; intros [|y b]; simpl; try reflexivity.
  rewrite IH, Qcmult_comm. reflexivity.
Qed.

Lemma entropy_rows (logits : list (list Qc)) :
  map (fun row => (- sum_all row)%Qc)
      (zip_with (zip_with Qcmult) (map log_softmax logits) (map softmax logits))
  = map shannon_entropy logits.
Proof.
  induction logits as [|row logits IH]; [reflexivity|].
  simpl. rewrite IH. unfold shannon_entropy at 1.
  rewrite (zip_with_Qcmult_comm (log_softmax row)). reflexivity.
Qed.

Lemma chosen_rows (logits : list (list Qc)) (action : list nat) :
  zip_with (fun row a => default 0%Qc (row !! a)) (map log_softmax logits) action
  = zip_with (fun row a => default 0%Qc (log_softmax row !! a)) logits action.
Proof.
  revert action. induction logits as [|row logits IH]; intros [|a action]; simpl;
    try reflexivity.
  rewrite IH. reflexivity.
Qed.

(** The terms of a loss that [update_losses] returned. *)
Lemma update_losses_inv (self : A2CAgent) (logits : list (list Qc)) (value : list Qc)
    (action_mb : list (list nat)) (target_value_mb : list (list Qc)) (L : losses) :
  update_losses self logits value action_mb target_value_mb = Ok L ->
  exists adv chosen weighted,
    pointwise Qcminus (concat target_value_mb) value = Ok adv /\
    gather1 (map log_softmax logits) (concat action_mb) = Ok chosen /\
    pointwise Qcmult chosen adv = Ok weighted /\
    entropy L = Var (map shannon_entropy logits) true /\
    advantage L = Var adv true /\
    detached L = Var adv false /\
    value_loss L = Var (mean (map (fun x => x * x) adv) * Q2Qc (1 # 2))%Qc true /\
    policy_loss L = Var (- mean weighted)%Qc true /\
    entropy_loss L = Var (mean (map shannon_entropy logits)) true /\
    loss L = Var (data (policy_loss L) + _val_coef self * data (value_loss L)
                  + _ent_coef self * data (entropy_loss L))%Qc true.
Proof.
  unfold update_losses, vbind2, vmap, vmap2. cbn [data requires_grad]. intros HL.
  apply bind_ok in HL. destruct HL as (prod & Hprod & HL).
  apply bind_ok in Hprod. destruct Hprod as (p & Hp & [= <-]).
  apply mat_mul_Ok in Hp. subst p. cbn [data requires_grad] in HL.
  apply bind_ok in HL. destruct HL as (target & Htarget & HL).
  assert (target = concat target_value_mb) as ->.
  { destruct target_value_mb; [discriminate|]. injection Htarget as <-. reflexivity. }
  apply bind_ok in HL. destruct HL as (advv & Hadv & HL).
  apply bind_ok in Hadv. destruct Hadv as (adv & Hadv & [= <-]).
  apply bind_ok in HL. destruct HL as (action & Haction & HL).
  assert (action = concat action_mb) as ->.
  { destruct action_mb; [discriminate|]. injection Haction as <-. reflexivity. }
  apply bind_ok in HL. destruct HL as (chosenv & Hch & HL).
  apply bind_ok in Hch. destruct Hch as (chosen & Hch & [= <-]).
  apply bind_ok in HL. destruct HL as (weightedv & Hw & HL).
  apply bind_ok in Hw. destruct Hw as (weighted & Hw & [= <-]).
  cbn [data requires_grad orb] in *.
  injection HL as <-. cbn [entropy advantage detached value_loss policy_loss entropy_loss
                           loss data requires_grad].
  rewrite entropy_rows.
  exists adv, chosen, weighted. split_and!; auto.
Qed.

Lemma mat_mul_total (a b : list (list Qc)) :
  Forall2 (fun x y => length x = length y) a b -> is_ok (mat_mul a b) = true.
Proof.
  intros Hab. unfold mat_mul.
  rewrite decide_True by (eapply Forall2_length; eauto).
  induction Hab as [|x y a b Hxy _ IH]; [reflexivity|].
  simpl. rewrite decide_True by exact Hxy. simpl.
  destruct (mapM _ (zip a b)); [reflexivity|discriminate].
Qed.

Lemma gather1_total (m : list (list Qc)) (index : list nat) :
  Forall2 (fun row a => a < length row) m index -> is_ok (gather1 m index) = true.
Proof.
  intros Hm. unfold gather1.
  rewrite decide_True by (eapply Forall2_length; eauto).
  induction Hm as [|row a m index Ha _ IH]; [reflexivity|].
  simpl. destruct (lookup_lt_is_Some_2 row a Ha) as [x ->]. simpl.
  destruct (mapM _ (zip m index)); [reflexivity|discriminate].
Qed.

(** On a batch of one shape whose recorded actions are columns of the
    logits, [update_losses] returns. *)
Lemma update_losses_returns (self : A2CAgent) (logits : list (list Qc)) (value : list Qc)
    (action_mb : list (list nat)) (target_value_mb : list (list Qc)) :
  (forall row, length (log_softmax row) = length (softmax row)) ->
  action_mb <> [] -> target_value_mb <> [] ->
  length (concat target_value_mb) = length value ->
  length logits = length value ->
  Forall2 (fun row a => a < length (log_softmax row)) logits (concat action_mb) ->
  exists L, update_losses self logits value action_mb target_value_mb = Ok L.
Proof.
  intros Hsm Ha Ht Htv Hlv Hidx. unfold update_losses, vbind2, vmap, vmap2.
  cbn [data requires_grad].
  destruct (mat_mul (map log_softmax logits) (map softmax logits)) as [p|e] eqn:Hp.
  2:{ assert (Hx : is_ok (mat_mul (map log_softmax logits) (map softmax logits)) = true).
      { apply mat_mul_total. clear -Hsm. induction logits; constructor; auto. }
      rewrite Hp in Hx. discriminate Hx. }
  cbn [mbind result_bind]. destruct target_value_mb as [|t0 tm]; [congruence|].
  cbn [mbind result_bind]. rewrite pointwise_same by exact Htv. cbn [mbind result_bind].
  destruct action_mb as [|a0 am]; [congruence|]. cbn [mbind result_bind].
  destruct (gather1 (map log_softmax logits) (concat (a0 :: am))) as [c|e] eqn:Hc.
  2:{ assert (Hx : is_ok (gather1 (map log_softmax logits) (concat (a0 :: am))) = true).
      { apply gather1_total. clear -Hidx. induction Hidx; constructor; auto. }
      rewrite Hc in Hx. discriminate Hx. }
  cbn [mbind result_bind data requires_grad].
  apply gather1_Ok in Hc. destruct Hc as [Hlen ->].
  rewrite pointwise_same.
  2:{ rewrite !length_zip_with, length_map in *. lia. }
  cbn [mbind result_bind]. eauto.
Qed.


End Loss.


(** ** [A2CAgent._boostrap] on float32 tensors *)

Section Bootstrap32.
Variable self : Float32.A2CAgent.

Lemma H32_bind_eq {A B} (m : Float32.H A) (k : A -> Float32.H B)
    (h h' : list (list spec_float)) (a : A) :
  m h = Ok (a, h') -> (m ≫= k) h = k a h'.
Proof. intros Hm. unfold mbind, Float32.H_bind. rewrite Hm. reflexivity. Qed.

Ltac h32_step :=
  etransitivity; [apply H32_bind_eq | cbv beta].

Lemma lift32_Ok {A} (r : result A) (a : A) (h : list (list spec_float)) :
  r = Ok a -> Float32.lift r h = Ok (a, h).
Proof. intros ->. reflexivity. Qed.

Lemma imul32_last (r : tref) (x v : list spec_float) (h : list (list spec_float)) :
  storage r = length h -> length v = length x ->
  Float32.imul r x (h ++ [v]) = Ok ((), h ++ [zip_with Float32.mul v x]).
Proof.
  intros Hr Hlen. unfold Float32.imul. cbv beta.
  rewrite Hr, list_lookup_middle by reflexivity.
  rewrite decide_True by exact Hlen. rewrite insert_middle. reflexivity.
Qed.

Lemma read32_last (r : tref) (v : list spec_float) (h : list (list spec_float)) :
  storage r = length h -> Float32.read r (h ++ [v]) = Ok (v, h ++ [v]).
Proof.
  intros Hr. unfold Float32.read. cbv beta.
  rewrite Hr, list_lookup_middle by reflexivity. reflexivity.
Qed.

(** The loop on a store whose last storage is the one [r] names. *)
Lemma boostrap32_loop_heap (steps : list (list spec_float * list spec_float)) :
  forall (r : tref) (acc : list tref) (h : list (list spec_float))
         (v : list spec_float) (n : nat),
    Forall (fun s => length s.1 = n /\ length s.2 = n) steps ->
    length v = n -> storage r = length h ->
    Float32.boostrap_loop self steps r acc (h ++ [v]) =
      Ok (acc ++ map (fun k => TRef (length h + k) [n; 1]) (seq 1 (length steps)),
          h ++ Float32.loop_storages (Float32._discount self) steps v).
Proof.
  induction steps as [|[reward done] steps IH]; intros r acc h v n Hsteps Hv Hr.
  - simpl. rewrite app_nil_r. reflexivity.
  - apply Forall_cons in Hsteps. destruct Hsteps as [[Hrw Hdn] Hsteps]. simpl in Hrw, Hdn.
    cbn [Float32.boostrap_loop].
    erewrite H32_bind_eq;
      [|apply imul32_last; [exact Hr|unfold Float32.rsub; rewrite length_map; lia]].
    erewrite H32_bind_eq; [|apply read32_last; exact Hr].
    set (v' := zip_with Float32.mul v (Float32.rsub Float32.one done)).
    assert (Hv' : length v' = n).
    { unfold v', Float32.rsub. rewrite length_zip_with, length_map. lia. }
    erewrite H32_bind_eq;
      [|apply lift32_Ok, pointwise_same; unfold Float32.rmul; rewrite length_map; lia].
    set (v'' := zip_with Float32.add (Float32.rmul (Float32._discount self) v') reward).
    assert (Hv'' : length v'' = n).
    { unfold v'', Float32.rmul. rewrite length_zip_with, length_map. lia. }
    erewrite H32_bind_eq; [|reflexivity].
    rewrite (IH _ _ (h ++ [v']) v'' n Hsteps Hv'').
    2:{ simpl. reflexivity. }
    cbn [Float32.loop_storages length seq map]. fold v' v''.
    rewrite <- !app_assoc. cbn [app].
    unfold unsqueeze1. cbn [storage tsize app]. rewrite Hv'', length_app. cbn [length].
    rewrite <- (fmap_S_seq 1).
    change (map ?f (S <$> ?l)) with (f <$> (S <$> l)).
    rewrite <- list_fmap_compose.
    replace (length h + 1) with (S (length h)) by lia.
    replace (length h + 1) with (S (length h)) by lia.
    do 4 f_equal.
    apply list_fmap_ext. intros _ k _. simpl. f_equal. lia.
Qed.

Lemma boostrap32_heap (T n : nat) (reward_mb done_mb : list (list spec_float))
    (last_obs : observation) (v done_last : list spec_float) :
  shaped T n reward_mb -> shaped T n done_mb ->
  Float32.value_of self last_obs v -> length v = n -> last done_mb = Some done_last ->
  Float32._boostrap self reward_mb done_mb last_obs [] =
    Ok (reverse (map (fun k => TRef (0 + k) [n; 1]) (seq 1 T)),
        Float32.loop_storages (Float32._discount self) (reverse (zip reward_mb done_mb))
          (zip_with Float32.mul v (Float32.rsub Float32.one done_last))).
Proof.
  intros Hrw Hdn (ts & vars & logits & Hts & Hvars & Hnet) Hv Hlast.
  destruct (shaped_zip T n reward_mb done_mb Hrw Hdn) as [Hzl Hz].
  destruct Hdn as [Hd1 Hd2].
  assert (Hdl : length done_last = n).
  { rewrite Forall_forall in Hd2. apply Hd2. rewrite last_lookup in Hlast.
    eapply list_elem_of_lookup_2; eauto. }
  unfold Float32._boostrap.
  set (v0 := zip_with Float32.mul v (Float32.rsub Float32.one done_last)).
  assert (Hv0 : length v0 = n).
  { unfold v0, Float32.rsub. rewrite length_zip_with, length_map. lia. }
  h32_step; [apply lift32_Ok; exact Hts|].
  h32_step; [apply lift32_Ok; exact Hvars|].
  h32_step; [apply lift32_Ok; exact Hnet|].
  h32_step; [apply lift32_Ok; unfold getitem_last; rewrite Hlast; reflexivity|].
  h32_step; [apply lift32_Ok, pointwise_same; unfold Float32.rsub; rewrite length_map; lia|].
  fold v0.
  h32_step; [reflexivity|].
  h32_step.
  { apply (boostrap32_loop_heap _ _ [] [] v0 n); [|exact Hv0|reflexivity].
    apply Forall_reverse. exact Hz. }
  cbn [mret Float32.H_ret app length]. rewrite length_reverse, Hzl. reflexivity.
Qed.

Lemma length_loop_storages32 (discount : spec_float)
    (steps : list (list spec_float * list spec_float)) (v : list spec_float) :
  length (Float32.loop_storages discount steps v) = S (length steps).
Proof.
  revert v. induction steps as [|[r d] steps IH]; intros v; [reflexivity|].
  simpl. rewrite IH. reflexivity.
Qed.

(** Read when [_boostrap] returns, the targets are [targets_by_value]. *)
Lemma boostrap32_targets_value (T n : nat) (reward_mb done_mb : list (list spec_float))
    (last_obs : observation) (v : list spec_float) :
  1 <= T -> shaped T n reward_mb -> shaped T n done_mb ->
  Float32.value_of self last_obs v -> length v = n ->
  Float32.boostrap_targets self reward_mb done_mb last_obs
  = Ok (Float32.targets_by_value (Float32._discount self) reward_mb done_mb v).
Proof.
  intros HT Hrw Hdn Hval Hv.
  destruct (last done_mb) as [done_last|] eqn:Hlast.
  2:{ apply last_None in Hlast. subst done_mb. destruct Hdn as [Hd1 _]. simpl in Hd1. lia. }
  unfold Float32.boostrap_targets, Float32.targets_by_value. rewrite Hlast.
  rewrite (boostrap32_heap T n reward_mb done_mb last_obs v done_last Hrw Hdn Hval Hv Hlast).
  cbn [mbind result_bind].
  apply read_targets. rewrite length_loop_storages32, length_reverse.
  f_equal. apply (shaped_zip T n); assumption.
Qed.

End Bootstrap32.

(** *** binary32 arithmetic at zero and at NaN *)

Lemma sub32_one_one : Float32.sub Float32.one Float32.one = S754_zero false.
Proof. reflexivity. Qed.

(** A product with zero is a zero, or NaN when the other factor is not
    finite. *)
Lemma mul32_zero_r (x : spec_float) :
  (Float32.finite x = true /\ Float32.is_zero (Float32.mul x (S754_zero false)) = true) \/
  (Float32.finite x = false /\ Float32.mul x (S754_zero false) = S754_nan).
Proof. destruct x; simpl; auto. Qed.

Lemma mul32_nan_l (y : spec_float) : Float32.mul S754_nan y = S754_nan.
Proof. reflexivity. Qed.

Lemma mul32_nan_r (x : spec_float) : Float32.mul x S754_nan = S754_nan.
Proof. destruct x; reflexivity. Qed.

Lemma add32_nan_l (y : spec_float) : Float32.add S754_nan y = S754_nan.
Proof. reflexivity. Qed.

Lemma same32_refl (x : spec_float) : Float32.same x x.
Proof. left. reflexivity. Qed.

Lemma same32_zero (x y : spec_float) :
  Float32.is_zero x = true -> Float32.is_zero y = true -> Float32.same x y.
Proof. intros Hx Hy. right. auto. Qed.

(** The operations give the same value on the same values. *)
Lemma same32_mul (x x' y y' : spec_float) :
  Float32.same x x' -> Float32.same y y' ->
  Float32.same (Float32.mul x y) (Float32.mul x' y').
Proof.
  intros [->|[Hx Hx']] [->|[Hy Hy']].
  - apply same32_refl.
  - destruct y; try discriminate Hy. destruct y'; try discriminate Hy'.
    destruct x'; simpl; try apply same32_refl; apply same32_zero; reflexivity.
  - destruct x; try discriminate Hx. destruct x'; try discriminate Hx'.
    destruct y'; simpl; try apply same32_refl; apply same32_zero; reflexivity.
  - destruct x; try discriminate Hx. destruct x'; try discriminate Hx'.
    destruct y; try discriminate Hy. destruct y'; try discriminate Hy'.
    apply same32_zero; reflexivity.
Qed.

Lemma same32_add (x x' y y' : spec_float) :
  Float32.same x x' -> Float32.same y y' ->
  Float32.same (Float32.add x y) (Float32.add x' y').
Proof.
  intros [->|[Hx Hx']] [->|[Hy Hy']].
  - apply same32_refl.
  - destruct y as [sy| | |]; try discriminate Hy. destruct y' as [sy'| | |]; try discriminate Hy'.
    destruct x' as [sx| | |]; try apply same32_refl.
    destruct sx, sy, sy'; apply same32_zero; reflexivity.
  - destruct x as [sx| | |]; try discriminate Hx. destruct x' as [sx'| | |]; try discriminate Hx'.
    destruct y' as [sy| | |]; try apply same32_refl.
    destruct sx, sx', sy; apply same32_zero; reflexivity.
  - destruct x as [sx| | |]; try discriminate Hx. destruct x' as [sx'| | |]; try discriminate Hx'.
    destruct y as [sy| | |]; try discriminate Hy. destruct y' as [sy'| | |]; try discriminate Hy'.
    destruct sx, sx', sy, sy'; apply same32_zero; reflexivity.
Qed.

(** *** The storages of two runs, for one replica *)

Lemma lookup_rsub32 (c : spec_float) (row : list spec_float) (i : nat) :
  Float32.rsub c row !! i = (fun x => Float32.sub c x) <$> row !! i.
Proof. unfold Float32.rsub. change (map ?f ?l) with (f <$> l). apply list_lookup_fmap. Qed.

Lemma lookup_rmul32 (c : spec_float) (row : list spec_float) (i : nat) :
  Float32.rmul c row !! i = (fun x => Float32.mul c x) <$> row !! i.
Proof. unfold Float32.rmul. change (map ?f ?l) with (f <$> l). apply list_lookup_fmap. Qed.

Lemma same_at_zip_with (f : spec_float -> spec_float -> spec_float) (i : nat)
    (a a' b b' : list spec_float) :
  (forall x x' y y', Float32.same x x' -> Float32.same y y' ->
                     Float32.same (f x y) (f x' y')) ->
  Float32.same_at i a a' -> Float32.same_at i b b' ->
  Float32.same_at i (zip_with f a b) (zip_with f a' b').
Proof.
  intros Hf Ha Hb. unfold Float32.same_at in *. rewrite !lookup_zip_with.
  destruct (a !! i) as [x|] eqn:Hx, (a' !! i) as [x'|] eqn:Hx'; try contradiction;
    destruct (b !! i) as [y|] eqn:Hy, (b' !! i) as [y'|] eqn:Hy'; try contradiction;
    simpl; auto.
Qed.

Lemma same_at_refl (i : nat) (a : list spec_float) : Float32.same_at i a a.
Proof. unfold Float32.same_at. destruct (a !! i); [apply same32_refl|exact I]. Qed.

Lemma same_at_rmul (i : nat) (c : spec_float) (a a' : list spec_float) :
  Float32.same_at i a a' -> Float32.same_at i (Float32.rmul c a) (Float32.rmul c a').
Proof.
  unfold Float32.same_at. rewrite !lookup_rmul32.
  destruct (a !! i), (a' !! i); simpl; auto.
  intros Hs. apply same32_mul; [apply same32_refl|exact Hs].
Qed.

Lemma loop_storages32_same (i : nat) (discount : spec_float)
    (steps steps' : list (list spec_float * list spec_float)) :
  Forall2 (fun s s' => Float32.same_at i s.1 s'.1 /\ s.2 = s'.2) steps steps' ->
  forall v v', Float32.same_at i v v' ->
    Forall2 (Float32.same_at i) (Float32.loop_storages discount steps v)
                                (Float32.loop_storages discount steps' v').
Proof.
  induction 1 as [|[r d] [r' d'] steps steps' [Hr Hd] _ IH]; intros v v' Hv; simpl in *.
  - repeat constructor. exact Hv.
  - subst d'.
    assert (Hx : Float32.same_at i (zip_with Float32.mul v (Float32.rsub Float32.one d))
                                   (zip_with Float32.mul v' (Float32.rsub Float32.one d))).
    { apply same_at_zip_with; [exact same32_mul|exact Hv|apply same_at_refl]. }
    constructor; [exact Hx|]. apply IH.
    apply same_at_zip_with; [exact same32_add|apply same_at_rmul; exact Hx|exact Hr].
Qed.

(** NaN stays: once the storage of a pass holds NaN for a replica, so does
    every later one. *)
Lemma loop_storages32_nan (i n : nat) (discount : spec_float)
    (steps : list (list spec_float * list spec_float)) :
  Forall (fun s => length s.1 = n /\ length s.2 = n) steps ->
  forall v, length v = n -> v !! i = Some S754_nan ->
    Forall (fun c => c !! i = Some S754_nan) (Float32.loop_storages discount steps v).
Proof.
  induction 1 as [|[r d] steps [Hr Hd] _ IH]; intros v Hlv Hv; simpl in *.
  - repeat constructor. exact Hv.
  - pose proof (lookup_lt_Some _ _ _ Hv) as Hi.
    destruct (lookup_lt_is_Some_2 d i) as [di Hdi]; [lia|].
    destruct (lookup_lt_is_Some_2 r i) as [ri Hri]; [lia|].
    assert (Hx : zip_with Float32.mul v (Float32.rsub Float32.one d) !! i = Some S754_nan).
    { rewrite lookup_zip_with, lookup_rsub32, Hv, Hdi. reflexivity. }
    constructor; [exact Hx|]. apply IH.
    + unfold Float32.rmul, Float32.rsub. rewrite length_zip_with, length_map, length_zip_with, length_map. lia.
    + rewrite lookup_zip_with, lookup_rmul32, Hx, Hri. simpl.
      rewrite mul32_nan_r. reflexivity.
Qed.

Lemma loop_storages32_shape (discount : spec_float) (n : nat)
    (steps : list (list spec_float * list spec_float)) :
  Forall (fun s => length s.1 = n /\ length s.2 = n) steps ->
  forall v, length v = n ->
    Forall (fun c => length c = n) (Float32.loop_storages discount steps v).
Proof.
  induction 1 as [|[r d] steps [Hr Hd] _ IH]; intros v Hv; simpl in *.
  - repeat constructor. exact Hv.
  - assert (Hx : length (zip_with Float32.mul v (Float32.rsub Float32.one d)) = n).
    { unfold Float32.rsub. rewrite length_zip_with, length_map. lia. }
    constructor; [exact Hx|]. apply IH.
    unfold Float32.rmul. rewrite length_zip_with, length_map. lia.
Qed.

Lemma loop_storages32_app (discount : spec_float) (n : nat)
    (pre post : list (list spec_float * list spec_float)) (v : list spec_float) :
  Forall (fun s => length s.1 = n /\ length s.2 = n) pre -> length v = n ->
  exists A vA, length A = length pre /\ length vA = n /\
               Float32.loop_storages discount (pre ++ post) v
               = A ++ Float32.loop_storages discount post vA.
Proof.
  intros Hpre. revert v. induction Hpre as [|[r d] pre [Hr Hd] _ IH]; intros v Hv.
  - exists [], v. split_and!; auto.
  - simpl in *.
    destruct (IH (zip_with Float32.add
                    (Float32.rmul discount (zip_with Float32.mul v (Float32.rsub Float32.one d))) r))
      as (A & vA & HA & HvA & ->).
    { unfold Float32.rmul, Float32.rsub.
      rewrite length_zip_with, length_map, length_zip_with, length_map. lia. }
    exists (zip_with Float32.mul v (Float32.rsub Float32.one d) :: A), vA.
    split_and!; [simpl; lia|exact HvA|reflexivity].
Qed.

(** One run at a step [t0] whose done flag is one for replica [i]: the
    targets of the steps up to [t0] are the storages of the passes that
    follow the pass of [t0], and the target of step [t0 + 1] is the storage
    that pass wiped, for [i] a zero or NaN. *)
Lemma targets32_cut (discount : spec_float) (T n i t0 : nat)
    (reward_mb done_mb : list (list spec_float)) (v rw dn : list spec_float) :
  shaped T n reward_mb -> shaped T n done_mb -> length v = n -> i < n -> S t0 < T ->
  reward_mb !! t0 = Some rw -> done_mb !! t0 = Some dn -> dn !! i = Some Float32.one ->
  exists x rest c,
    Float32.targets_by_value discount reward_mb done_mb v
    = reverse (Float32.loop_storages discount (reverse (take t0 (zip reward_mb done_mb)))
                 (zip_with Float32.add (Float32.rmul discount x) rw))
      ++ x :: rest /\
    length x = n /\ x !! i = Some c /\
    (Float32.is_zero c = true \/ c = S754_nan).
Proof.
  intros Hrw Hdn Hv Hi Ht0 Hrw0 Hdn0 Hone.
  destruct (shaped_zip T n reward_mb done_mb Hrw Hdn) as [Hzl Hz].
  destruct (last done_mb) as [done_last|] eqn:Hlast.
  2:{ apply last_None in Hlast. subst done_mb. discriminate. }
  assert (Hdl : length done_last = n).
  { destruct Hdn as [_ Hd2]. rewrite Forall_forall in Hd2. apply Hd2.
    rewrite last_lookup in Hlast. eapply list_elem_of_lookup_2; eauto. }
  unfold Float32.targets_by_value. rewrite Hlast.
  set (z := zip reward_mb done_mb) in *.
  assert (Hz0 : z !! t0 = Some (rw, dn)).
  { unfold z. apply lookup_zip_with_Some. eauto. }
  assert (Hrev : reverse z = reverse (drop (S t0) z) ++ (rw, dn) :: reverse (take t0 z)).
  { rewrite <- (take_drop_middle z t0 _ Hz0) at 1.
    rewrite reverse_app, reverse_cons, <- app_assoc. reflexivity. }
  rewrite Hrev.
  set (v0 := zip_with Float32.mul v (Float32.rsub Float32.one done_last)).
  assert (Hv0 : length v0 = n).
  { unfold v0, Float32.rsub. rewrite length_zip_with, length_map. lia. }
  destruct (loop_storages32_app discount n (reverse (drop (S t0) z))
              ((rw, dn) :: reverse (take t0 z)) v0) as (A & vA & HA & HvA & ->).
  { apply Forall_reverse, Forall_drop. exact Hz. }
  { exact Hv0. }
  rewrite length_reverse, length_drop, Hzl in HA.
  cbn [Float32.loop_storages].
  set (x := zip_with Float32.mul vA (Float32.rsub Float32.one dn)).
  assert (Hldn : length dn = n).
  { destruct Hdn as [_ Hd2]. rewrite Forall_forall in Hd2. apply Hd2.
    eapply list_elem_of_lookup_2; eauto. }
  assert (Hx : length x = n).
  { unfold x, Float32.rsub. rewrite length_zip_with, length_map. lia. }
  destruct (lookup_lt_is_Some_2 vA i) as [a Ha]; [lia|].
  destruct A as [|a0 A]; [simpl in HA; lia|].
  exists x, (reverse A), (Float32.mul a (S754_zero false)).
  split_and!.
  - cbn [app tail]. rewrite reverse_app, reverse_cons, <- app_assoc. reflexivity.
  - exact Hx.
  - unfold x. rewrite lookup_zip_with, lookup_rsub32, Ha, Hone. reflexivity.
  - destruct (mul32_zero_r a) as [[_ Hz']|[_ Hn]]; auto.
Qed.

Lemma loop_storages32_agree (i : nat) (discount : spec_float)
    (steps steps' : list (list spec_float * list spec_float)) :
  Forall2 (fun s s' => s.1 !! i = s'.1 !! i /\ s.2 = s'.2) steps steps' ->
  forall v v', v !! i = v' !! i ->
    Forall2 (fun c c' => c !! i = c' !! i) (Float32.loop_storages discount steps v)
                                         (Float32.loop_storages discount steps' v').
Proof.
  induction 1 as [|[r d] [r' d'] steps steps' [Hr Hd] _ IH]; intros v v' Hv; simpl in *.
  - repeat constructor. exact Hv.
  - subst d'.
    assert (Hx : zip_with Float32.mul v (Float32.rsub Float32.one d) !! i
                 = zip_with Float32.mul v' (Float32.rsub Float32.one d) !! i).
    { rewrite !lookup_zip_with, Hv. reflexivity. }
    constructor; [exact Hx|]. apply IH.
    rewrite !lookup_zip_with, !lookup_rmul32, Hx, Hr. reflexivity.
Qed.

(** After a wiped value, the sum with the reward is the reward, unless that
    is a negative zero, whose sum with a zero takes the sign of that zero. *)
Lemma add32_wiped (discount c c' r : spec_float) :
  Float32.is_zero c = true -> Float32.is_zero c' = true -> r <> S754_zero true ->
  Float32.add (Float32.mul discount c) r = Float32.add (Float32.mul discount c') r.
Proof.
  intros Hc Hc' Hr.
  destruct c as [s| | |]; try discriminate Hc. destruct c' as [s'| | |]; try discriminate Hc'.
  destruct discount as [sd|sd| |sd md ed]; try reflexivity;
    destruct r as [[]| | |]; try reflexivity; try congruence;
    destruct sd, s, s'; reflexivity.
Qed.

Lemma take_zip_same (t0 : nat) (reward_mb reward_mb' done_mb : list (list spec_float))
    (P : list spec_float -> list spec_float -> Prop) :
  length reward_mb = length reward_mb' ->
  (forall t r r', t < t0 -> reward_mb !! t = Some r -> reward_mb' !! t = Some r' -> P r r') ->
  Forall2 (fun s s' => P s.1 s'.1 /\ s.2 = s'.2)
          (reverse (take t0 (zip reward_mb done_mb)))
          (reverse (take t0 (zip reward_mb' done_mb))).
Proof.
  intros Hlen HP. apply Forall2_reverse, Forall2_same_length_lookup_2.
  - rewrite !length_take, !length_zip_with. lia.
  - intros t [r d] [r' d'] Ht Ht'.
    apply lookup_take_Some in Ht. destruct Ht as [Ht Hlt].
    apply lookup_take_Some in Ht'. destruct Ht' as [Ht' _].
    apply lookup_zip_with_Some in Ht. destruct Ht as (r1 & d1 & [= -> ->] & Hr1 & Hd1).
    apply lookup_zip_with_Some in Ht'. destruct Ht' as (r2 & d2 & [= -> ->] & Hr2 & Hd2).
    simpl. split; [eapply HP; eauto|congruence].
Qed.

Lemma entry_app_l {A} (l k : list (list A)) (t i : nat) :
  t < length l -> entry (l ++ k) t i = entry l t i.
Proof. intros Ht. unfold entry. rewrite lookup_app_l by exact Ht. reflexivity. Qed.

Lemma entry_middle {A} (l k : list (list A)) (x : list A) (i : nat) :
  entry (l ++ x :: k) (length l) i = x !! i.
Proof. unfold entry. rewrite list_lookup_middle by reflexivity. reflexivity. Qed.






(** ** The shapes of a Zerg observation *)

Section Shapes.

Lemma zeros3_shape (c h w : nat) : has_shape3 c h w (zeros3 c h w).
Proof.
  unfold has_shape3, zeros3. split; [apply length_replicate|].
  apply Forall_replicate. split; [apply length_replicate|].
  apply Forall_replicate. apply length_replicate.
Qed.

Lemma getitem_Ok {A} (l : list A) (i : nat) (x : A) : getitem l i = Ok x -> l !! i = Some x.
Proof. unfold getitem. destruct (l !! i); [congruence|discriminate]. Qed.

Lemma incr3_shape (c h w : nat) (a a' : list (list (list Qc))) (k : nat) (y x : Z) :
  has_shape3 c h w a -> incr3 a k y x = Ok a' -> has_shape3 c h w a'.
Proof.
  intros [Hc Ha] Hi. unfold incr3 in Hi.
  apply bind_ok in Hi. destruct Hi as (channel & Hch & Hi).
  apply bind_ok in Hi. destruct Hi as (yi & _ & Hi).
  apply bind_ok in Hi. destruct Hi as (row & Hrow & Hi).
  apply bind_ok in Hi. destruct Hi as (xi & _ & Hi).
  apply bind_ok in Hi. destruct Hi as (v & _ & [= <-]).
  apply getitem_Ok in Hch, Hrow.
  pose proof (Forall_lookup_1 _ _ _ _ Ha Hch) as [Hh Hrows].
  pose proof (Forall_lookup_1 _ _ _ _ Hrows Hrow) as Hw.
  split; [rewrite length_insert; exact Hc|].
  apply Forall_insert; [exact Ha|]. split; [rewrite length_insert; exact Hh|].
  apply Forall_insert; [exact Hrows|]. rewrite length_insert. exact Hw.
Qed.

Lemma foldl_raise {A B} (f : result A -> B -> result A) (e : exn) (l : list B) :
  (forall b, f (Raise e) b = Raise e) -> foldl f (Raise e) l = Raise e.
Proof. intros Hf. induction l as [|b l IH]; [reflexivity|]. simpl. rewrite Hf. exact IH. Qed.

(** A property every successful pass keeps holds when the loop returns. *)
Lemma foldl_result_inv {A B} (P : A -> Prop) (step : A -> B -> result A) (l : list B) :
  (forall a b a', P a -> step a b = Ok a' -> P a') ->
  forall a a', P a -> foldl (fun acc b => acc ← acc; step acc b) (Ok a) l = Ok a' -> P a'.
Proof.
  intros Hstep. induction l as [|b l IH]; intros a a' Ha Hf; simpl in Hf.
  - injection Hf as <-. exact Ha.
  - destruct (step a b) as [a1|e] eqn:Hs.
    + eapply IH; [|exact Hf]. eapply Hstep; eauto.
    + rewrite foldl_raise in Hf by reflexivity. discriminate.
Qed.

Lemma app_shape (c1 c2 h w : nat) (a b : list (list (list Qc))) :
  has_shape3 c1 h w a -> has_shape3 c2 h w b -> has_shape3 (c1 + c2) h w (a ++ b).
Proof.
  intros [Ha1 Ha2] [Hb1 Hb2]. split; [rewrite length_app; lia|].
  apply Forall_app. auto.
Qed.

Lemma np_concatenate3_Ok (a b r : list (list (list Qc))) :
  np_concatenate3 a b = Ok r -> r = a ++ b.
Proof.
  unfold np_concatenate3. destruct (inner_dims a), (inner_dims b); try congruence.
  destruct (decide _); congruence.
Qed.

Lemma flip_shape (c h w : nat) (a : list (list (list Qc))) :
  has_shape3 c h w a -> has_shape3 c h w (np_flip_1_2 a).
Proof.
  intros [Hc Ha]. unfold np_flip_1_2. split; [rewrite !length_map; exact Hc|].
  rewrite map_map. apply Forall_forall. intros ch Hin.
  change (map ?f ?l) with (f <$> l) in Hin. apply list_elem_of_fmap in Hin.
  destruct Hin as (ch0 & -> & Hin). rewrite Forall_forall in Ha.
  destruct (Ha ch0 Hin) as [Hh Hrows].
  split; [rewrite length_map, length_reverse; exact Hh|].
  apply Forall_forall. intros row Hrow.
  change (map ?f ?l) with (f <$> l) in Hrow. apply list_elem_of_fmap in Hrow.
  destruct Hrow as (row0 & -> & Hrow0). rewrite length_reverse.
  rewrite Forall_forall in Hrows. apply Hrows. apply elem_of_reverse. exact Hrow0.
Qed.

(** *** The cell of a unit inside the world *)

Lemma of_nat_pos (n : nat) : 0 < n -> (0 < of_nat n)%Qc.
Proof.
  intros Hn. unfold of_nat, Qclt. cbn [this Q2Qc]. rewrite !Qred_correct.
  change 0%Q with (inject_Z 0). rewrite <- Zlt_Qlt. lia.
Qed.

Lemma Qclt_neq (x : Qc) : (0 < x)%Qc -> x <> 0%Qc.
Proof. intros Hx ->. apply (Qclt_not_le _ _ Hx), Qcle_refl. Qed.

Lemma truediv_Ok (a b : Qc) : (0 < b)%Qc -> truediv a b = Ok (a / b)%Qc.
Proof. intros Hb. unfold truediv. rewrite decide_False by (apply Qclt_neq, Hb). reflexivity. Qed.

Lemma grid_pos (w : Qc) (n : nat) : 0 < n -> (0 < w)%Qc -> (0 < w / of_nat n)%Qc.
Proof.
  intros Hn Hw. pose proof (of_nat_pos n Hn) as Hr.
  apply Qcnot_le_lt. intros Hle.
  apply (Qcmult_le_compat_r _ _ (of_nat n)) in Hle; [|apply Qclt_le_weak, Hr].
  rewrite test_field in Hle by (apply Qclt_neq, Hr).
  rewrite Qcmult_0_l in Hle. exact (Qclt_not_le _ _ Hw Hle).
Qed.

(** A coordinate inside the world falls into one of the [n] grid cells. *)
Lemma floordiv_range (a w : Qc) (n : nat) :
  0 < n -> (0 <= a)%Qc -> (a < w)%Qc ->
  exists k, floordiv a (w / of_nat n) = Ok k /\ (0 <= k < Z.of_nat n)%Z.
Proof.
  intros Hn Ha Haw.
  assert (Hw : (0 < w)%Qc) by (eapply Qcle_lt_trans; eauto).
  pose proof (of_nat_pos n Hn) as Hr.
  pose proof (grid_pos w n Hn Hw) as Hg.
  unfold floordiv. rewrite decide_False by (apply Qclt_neq, Hg).
  eexists. split; [reflexivity|].
  set (q := (a / (w / of_nat n))%Qc).
  assert (Hqg : (q * (w / of_nat n))%Qc = a) by (apply test_field, Qclt_neq, Hg).
  assert (Hq0 : (0 <= q)%Qc).
  { apply Qcnot_lt_le. intros Hlt.
    apply (Qcmult_lt_compat_r _ _ (w / of_nat n)%Qc Hg) in Hlt.
    rewrite Hqg, Qcmult_0_l in Hlt. exact (Qcle_not_lt _ _ Ha Hlt). }
  assert (Hqn : (q < of_nat n)%Qc).
  { apply Qcnot_le_lt. intros Hle.
    apply (Qcmult_le_compat_r _ _ (w / of_nat n)%Qc) in Hle; [|apply Qclt_le_weak, Hg].
    rewrite Hqg, Qcmult_div_r in Hle by (apply Qclt_neq, Hr).
    exact (Qclt_not_le _ _ Haw Hle). }
  split.
  - change 0%Z with (Qfloor (inject_Z 0)). apply Qfloor_resp_le. exact Hq0.
  - rewrite Zlt_Qlt. eapply Qle_lt_trans; [apply Qfloor_le|].
    unfold Qclt, of_nat in Hqn. cbn [this Q2Qc] in Hqn. rewrite Qred_correct in Hqn.
    exact Hqn.
Qed.

Lemma grid_cell_range (resolution : nat) (world_size : Qc * Qc) (u : unit_) :
  0 < resolution -> in_world world_size u ->
  exists y x,
    grid_cell resolution (fst world_size / of_nat resolution)
                         (snd world_size / of_nat resolution) u = Ok (y, x) /\
    (0 <= y < Z.of_nat resolution)%Z /\ (0 <= x < Z.of_nat resolution)%Z.
Proof.
  intros Hn (Hx0 & Hx1 & Hy0 & Hy1). unfold grid_cell.
  destruct (floordiv_range (pos_x u) (fst world_size) resolution Hn Hx0 Hx1) as (x & -> & Hx).
  destruct (floordiv_range (pos_y u) (snd world_size) resolution Hn Hy0 Hy1) as (fy & -> & Hy).
  cbn [mbind result_bind]. eexists _, _. split; [reflexivity|]. lia.
Qed.

Lemma norm_index_Ok (n : nat) (i : Z) :
  (0 <= i < Z.of_nat n)%Z -> norm_index n i = Ok (Z.to_nat i) /\ Z.to_nat i < n.
Proof. intros Hi. unfold norm_index. rewrite decide_True by exact Hi. split; [reflexivity|lia]. Qed.

Lemma getitem_lookup {A} (l : list A) (i : nat) (x : A) : l !! i = Some x -> getitem l i = Ok x.
Proof. intros Hl. unfold getitem. rewrite Hl. reflexivity. Qed.

Lemma incr3_Ok (c h w : nat) (a : list (list (list Qc))) (k : nat) (y x : Z) :
  has_shape3 c h w a -> k < c -> (0 <= y < Z.of_nat h)%Z -> (0 <= x < Z.of_nat w)%Z ->
  exists a', incr3 a k y x = Ok a'.
Proof.
  intros [Hc Ha] Hk Hy Hx. unfold incr3.
  destruct (lookup_lt_is_Some_2 a k) as [channel Hch]; [lia|].
  pose proof (Forall_lookup_1 _ _ _ _ Ha Hch) as [Hh Hrows].
  rewrite (getitem_lookup _ _ _ Hch). cbn [mbind result_bind]. rewrite Hh.
  destruct (norm_index_Ok h y Hy) as [-> Hyi]. cbn [mbind result_bind].
  destruct (lookup_lt_is_Some_2 channel (Z.to_nat y)) as [row Hrow]; [lia|].
  pose proof (Forall_lookup_1 _ _ _ _ Hrows Hrow) as Hw. cbv beta in Hw.
  rewrite (getitem_lookup _ _ _ Hrow). cbn [mbind result_bind]. rewrite Hw.
  destruct (norm_index_Ok w x Hx) as [-> Hxi]. cbn [mbind result_bind].
  destruct (lookup_lt_is_Some_2 row (Z.to_nat x)) as [v Hv]; [lia|].
  rewrite (getitem_lookup _ _ _ Hv). cbn [mbind result_bind]. eauto.
Qed.

(** A loop whose every pass returns and keeps [P] returns. *)
Lemma foldl_result_total {A B} (P : A -> Prop) (step : A -> B -> result A) (l : list B) :
  (forall a b, P a -> b ∈ l -> exists a', step a b = Ok a' /\ P a') ->
  forall a, P a -> exists a', foldl (fun acc b => acc ← acc; step acc b) (Ok a) l = Ok a' /\ P a'.
Proof.
  induction l as [|b l IH]; intros Hstep a Ha; simpl.
  - eauto.
  - destruct (Hstep a b Ha) as (a1 & -> & Ha1); [left|].
    apply IH; [|exact Ha1]. intros a0 b0 Ha0 Hb0. apply Hstep; [exact Ha0|right; exact Hb0].
Qed.

Lemma inner_dims_shape (c h w : nat) (a : list (list (list Qc))) :
  has_shape3 c h w a -> inner_dims a = replicate c (h, replicate h w).
Proof.
  intros [<- Ha]. unfold inner_dims. induction Ha as [|ch a [Hh Hrows] Ha IH]; [reflexivity|].
  simpl. f_equal; [|exact IH]. rewrite <- Hh. f_equal.
  clear -Hrows. induction Hrows as [|row ch Hrow Hrows IH]; [reflexivity|].
  simpl. f_equal; assumption.
Qed.

Lemma np_concatenate3_total (c1 c2 h w : nat) (a b : list (list (list Qc))) :
  has_shape3 c1 h w a -> has_shape3 c2 h w b -> np_concatenate3 a b = Ok (a ++ b).
Proof.
  intros Ha Hb. unfold np_concatenate3.
  rewrite (inner_dims_shape _ _ _ _ Ha), (inner_dims_shape _ _ _ _ Hb).
  destruct c1, c2; try reflexivity. simpl. rewrite decide_True by reflexivity. reflexivity.
Qed.

(** *** The dicts *)

Lemma max_of_ge (values : list nat) (m x : nat) :
  max_of values = Ok m -> x ∈ values -> x <= m.
Proof.
  destruct values as [|v vs]; [discriminate|]. intros [= <-]. revert v.
  induction vs as [|u vs IH]; intros v Hx; simpl.
  - apply list_elem_of_singleton in Hx. subst. reflexivity.
  - apply elem_of_cons in Hx. destruct Hx as [->|Hx].
    + etrans; [apply (IH v); left|apply Nat.le_max_r].
    + apply elem_of_cons in Hx. destruct Hx as [->|Hx]; [apply Nat.le_max_l|].
      etrans; [apply (IH v); right; exact Hx|apply Nat.le_max_r].
Qed.

Lemma max_of_Ok (values : list nat) (b : nat) :
  (forall x, x ∈ values -> x <= b) -> b ∈ values -> max_of values = Ok b.
Proof.
  destruct values as [|v vs]; intros Hle Hin; [inversion Hin|].
  simpl. f_equal. apply Nat.le_antisymm.
  - assert (Hall : forall x, x ∈ vs -> x <= b) by (intros x Hx; apply Hle; right; exact Hx).
    assert (Hv : v <= b) by (apply Hle; left).
    clear Hle Hin. induction vs as [|u vs IH]; simpl; [exact Hv|].
    apply Nat.max_lub; [apply Hall; left|]. apply IH. intros x Hx. apply Hall. right. exact Hx.
  - clear Hle. revert Hin. generalize v. induction vs as [|u vs IH]; intros v0 Hin; simpl.
    + apply list_elem_of_singleton in Hin. subst. reflexivity.
    + apply elem_of_cons in Hin. destruct Hin as [->|Hin].
      * etrans; [|apply Nat.le_max_r]. apply IH. left.
      * apply elem_of_cons in Hin. destruct Hin as [->|Hin].
        -- apply Nat.le_max_l.
        -- etrans; [|apply Nat.le_max_r]. apply IH. right. exact Hin.
Qed.

Lemma foldl_insert_lookup {V} (items : list (Z * V)) (m : gmap Z V) (k : Z) (v : V) :
  foldl (fun m kv => <[kv.1 := kv.2]> m) m items !! k = Some v ->
  (k, v) ∈ items \/ m !! k = Some v.
Proof.
  revert m. induction items as [|[k0 v0] items IH]; intros m Hl; simpl in Hl; [auto|].
  apply IH in Hl. destruct Hl as [Hl|Hl]; [left; right; exact Hl|].
  apply lookup_insert_Some in Hl. simpl in Hl.
  destruct Hl as [[-> ->]|[_ Hl]]; [left; left|right; exact Hl].
Qed.

Lemma foldl_insert_size {V} (items : list (Z * V)) (m : gmap Z V) :
  NoDup items.*1 -> (forall k, k ∈ items.*1 -> m !! k = None) ->
  size (foldl (fun m kv => <[kv.1 := kv.2]> m) m items) = size m + length items.
Proof.
  revert m. induction items as [|[k0 v0] items IH]; intros m Hnd Hfresh; simpl.
  - lia.
  - simpl in Hnd. apply NoDup_cons in Hnd. destruct Hnd as [Hk0 Hnd].
    rewrite IH; [|exact Hnd|].
    + rewrite map_size_insert_None; [lia|]. apply Hfresh. left.
    + intros k Hk. rewrite lookup_insert_ne; [apply Hfresh; right; exact Hk|].
      intros ->. contradiction.
Qed.

Lemma alter_size (f : nat -> nat) (k : Z) (m : gmap Z nat) : size (alter f k m) = size m.
Proof.
  rewrite <- !(size_dom (D := gset Z)). rewrite dom_alter_L. reflexivity.
Qed.

End Shapes.

Section Wrapper.
Context `{Numpy} `{UNIT_TYPEID}.

Lemma unit_type_generate_shape (self : UnitType3DFeature.t) (us : list unit_)
    (a : list (list (list Qc))) (m : nat) :
  max_of (dict_values (UnitType3DFeature._type_map self)) = Ok m ->
  UnitType3DFeature._generate_features self us = Ok a ->
  has_shape3 (m + 1) (UnitType3DFeature._resolution self)
             (UnitType3DFeature._resolution self) a.
Proof.
  intros Hm Hg. unfold UnitType3DFeature._generate_features in Hg. rewrite Hm in Hg.
  cbn [mbind result_bind] in Hg.
  apply bind_ok in Hg. destruct Hg as (gw & _ & Hg).
  apply bind_ok in Hg. destruct Hg as (gh & _ & Hg).
  revert Hg. apply foldl_result_inv with
    (step := fun features u =>
               match UnitType3DFeature._type_map self !! unit_type u with
               | Some c =>
                   '(y, x) ← grid_cell (UnitType3DFeature._resolution self) gw gh u;
                   incr3 features c y x
               | None => Ok features
               end); [|apply zeros3_shape].
  intros f u f' Hf Hstep.
  destruct (UnitType3DFeature._type_map self !! unit_type u) as [c|].
  - apply bind_ok in Hstep. destruct Hstep as ([y x] & _ & Hstep).
    eapply incr3_shape; eauto.
  - injection Hstep as <-. exact Hf.
Qed.

Lemma player_relative_generate_shape (self : PlayerRelative3DFeature.t) (us : list unit_)
    (a : list (list (list Qc))) :
  PlayerRelative3DFeature._generate_features self us = Ok a ->
  has_shape3 1 (PlayerRelative3DFeature._resolution self)
             (PlayerRelative3DFeature._resolution self) a.
Proof.
  intros Hg. unfold PlayerRelative3DFeature._generate_features in Hg.
  apply bind_ok in Hg. destruct Hg as (gw & _ & Hg).
  apply bind_ok in Hg. destruct Hg as (gh & _ & Hg).
  revert Hg. apply foldl_result_inv with
    (step := fun features u =>
               '(y, x) ← grid_cell (PlayerRelative3DFeature._resolution self) gw gh u;
               incr3 features 0 y x); [|apply zeros3_shape].
  intros f u f' Hf Hstep.
  apply bind_ok in Hstep. destruct Hstep as ([y x] & _ & Hstep).
  eapply incr3_shape; eauto.
Qed.

(** The greatest channel of the type map is 10, whatever the unit ids are. *)
Lemma type_map_max : max_of (dict_values ZergObservationWrapper.type_map) = Ok 10.
Proof.
  apply max_of_Ok.
  - intros x Hx. unfold dict_values in Hx. apply list_elem_of_fmap in Hx.
    destruct Hx as ([k v] & -> & Hkv). apply elem_of_map_to_list in Hkv.
    unfold ZergObservationWrapper.type_map, dict_of in Hkv.
    apply foldl_insert_lookup in Hkv. destruct Hkv as [Hin|He]; [|discriminate].
    simpl. repeat (apply elem_of_cons in Hin; destruct Hin as [[= _ <-]|Hin]; [lia|]).
    inversion Hin.
  - unfold dict_values. apply list_elem_of_fmap. exists (ZERG_BANELING, 10).
    split; [reflexivity|]. apply elem_of_map_to_list.
    unfold ZergObservationWrapper.type_map, dict_of. cbn [foldl fst snd].
    apply lookup_insert_eq.
Qed.

Lemma unit_count_generate_length (self : UnitCount1DFeature.t) (us : list unit_) :
  NoDup (UnitCount1DFeature._type_list self) ->
  length (UnitCount1DFeature._generate_features self us)
  = length (UnitCount1DFeature._type_list self).
Proof.
  intros Hnd. unfold UnitCount1DFeature._generate_features, dict_values.
  rewrite length_map, length_fmap, length_map_to_list.
  set (count0 := dict_of _).
  assert (H0' : size count0 = length (UnitCount1DFeature._type_list self)).
  { unfold count0, dict_of. rewrite foldl_insert_size.
    - rewrite map_size_empty, length_map. reflexivity.
    - assert (Hk : forall l : list Z, (map (fun t => (t, 0)) l).*1 = l).
      { induction l as [|x l IHl]; simpl; [reflexivity|]. f_equal. exact IHl. }
      rewrite Hk. exact Hnd.
    - intros k _. apply lookup_empty. }
  rewrite <- H0'. generalize count0. clear.
  induction us as [|u us IH]; intros count; [reflexivity|].
  simpl. rewrite IH. destruct (decide _); [apply alter_size|reflexivity].
Qed.

Lemma unit_count_features_length (self : UnitCount1DFeature.t) (ob : raw_observation) :
  NoDup (UnitCount1DFeature._type_list self) ->
  length (UnitCount1DFeature.features self ob)
  = UnitCount1DFeature.num_dims self.
Proof.
  intros Hnd. unfold UnitCount1DFeature.features, UnitCount1DFeature.num_dims.
  rewrite !length_app, !length_map, !length_app, !unit_count_generate_length by exact Hnd.
  lia.
Qed.

Lemma unit_stat_features_length (ob : raw_observation) :
  length (UnitStat1DFeature.features ob) = UnitStat1DFeature.num_dims.
Proof. reflexivity. Qed.

Lemma player_features_length (ob : raw_observation) (pf : list Qc) :
  length (player ob) = 11 ->
  Player1DFeature.features ob = Ok pf -> length pf = Player1DFeature.num_dims.
Proof.
  intros Hp Hf. unfold Player1DFeature.features in Hf.
  assert (Hs : length (slice_1_m2 (player ob)) = 8).
  { unfold slice_1_m2. rewrite length_drop, length_take, Hp. reflexivity. }
  unfold np_divide in Hf. rewrite decide_True in Hf by (rewrite Hs; reflexivity).
  cbn [mbind result_bind] in Hf. injection Hf as <-.
  rewrite length_app, length_zip_with, length_map, Hs. reflexivity.
Qed.

(** *** When [_observation] returns *)

Lemma in_world_filter (P : unit_ -> Prop) `{!forall u, Decision (P u)}
    (ws : Qc * Qc) (us : list unit_) :
  Forall (in_world ws) us -> Forall (in_world ws) (filter P us).
Proof.
  rewrite !Forall_forall. intros Hus u Hu. apply list_elem_of_filter in Hu. apply Hus, Hu.
Qed.

Lemma unit_type_generate_total (self : UnitType3DFeature.t) (us : list unit_) (m : nat) :
  max_of (dict_values (UnitType3DFeature._type_map self)) = Ok m ->
  0 < UnitType3DFeature._resolution self ->
  Forall (in_world (UnitType3DFeature._world_size self)) us ->
  exists a, UnitType3DFeature._generate_features self us = Ok a.
Proof.
  intros Hm Hres Hus. unfold UnitType3DFeature._generate_features. rewrite Hm.
  cbn [mbind result_bind]. fold (of_nat (UnitType3DFeature._resolution self)).
  rewrite !truediv_Ok by (apply of_nat_pos, Hres). cbn [mbind result_bind].
  destruct (foldl_result_total
              (has_shape3 (m + 1) (UnitType3DFeature._resolution self)
                          (UnitType3DFeature._resolution self))
              (fun features u =>
                 match UnitType3DFeature._type_map self !! unit_type u with
                 | Some c =>
                     '(y, x) ← grid_cell (UnitType3DFeature._resolution self)
                                 (fst (UnitType3DFeature._world_size self)
                                  / of_nat (UnitType3DFeature._resolution self))
                                 (snd (UnitType3DFeature._world_size self)
                                  / of_nat (UnitType3DFeature._resolution self)) u;
                     incr3 features c y x
                 | None => Ok features
                 end) us) with (a := zeros3 (m + 1) (UnitType3DFeature._resolution self)
                                       (UnitType3DFeature._resolution self))
    as (a' & Ha' & _); [|apply zeros3_shape|eauto].
  intros a u Ha Hu.
  destruct (UnitType3DFeature._type_map self !! unit_type u) as [c|] eqn:Hc; [|eauto].
  assert (Hcm : c <= m).
  { apply (max_of_ge _ _ _ Hm). unfold dict_values. apply list_elem_of_fmap.
    exists (unit_type u, c). split; [reflexivity|]. apply elem_of_map_to_list. exact Hc. }
  rewrite Forall_forall in Hus.
  destruct (grid_cell_range _ _ u Hres (Hus u Hu)) as (y & x & -> & Hy & Hx).
  cbn [mbind result_bind].
  destruct (incr3_Ok _ _ _ a c y x Ha ltac:(lia) Hy Hx) as [a1 Ha1].
  exists a1. split; [exact Ha1|]. eapply incr3_shape; eauto.
Qed.

Lemma player_relative_generate_total (self : PlayerRelative3DFeature.t) (us : list unit_) :
  0 < PlayerRelative3DFeature._resolution self ->
  Forall (in_world (PlayerRelative3DFeature._world_size self)) us ->
  exists a, PlayerRelative3DFeature._generate_features self us = Ok a.
Proof.
  intros Hres Hus. unfold PlayerRelative3DFeature._generate_features.
  fold (of_nat (PlayerRelative3DFeature._resolution self)).
  rewrite !truediv_Ok by (apply of_nat_pos, Hres). cbn [mbind result_bind].
  destruct (foldl_result_total
              (has_shape3 1 (PlayerRelative3DFeature._resolution self)
                          (PlayerRelative3DFeature._resolution self))
              (fun features u =>
                 '(y, x) ← grid_cell (PlayerRelative3DFeature._resolution self)
                             (fst (PlayerRelative3DFeature._world_size self)
                              / of_nat (PlayerRelative3DFeature._resolution self))
                             (snd (PlayerRelative3DFeature._world_size self)
                              / of_nat (PlayerRelative3DFeature._resolution self)) u;
                 incr3 features 0 y x) us)
    with (a := zeros3 1 (PlayerRelative3DFeature._resolution self)
                 (PlayerRelative3DFeature._resolution self))
    as (a' & Ha' & _); [|apply zeros3_shape|eauto].
  intros a u Ha Hu. rewrite Forall_forall in Hus.
  destruct (grid_cell_range _ _ u Hres (Hus u Hu)) as (y & x & -> & Hy & Hx).
  cbn [mbind result_bind].
  destruct (incr3_Ok _ _ _ a 0 y x Ha ltac:(lia) Hy Hx) as [a1 Ha1].
  exists a1. split; [exact Ha1|]. eapply incr3_shape; eauto.
Qed.

Lemma player_features_total (ob : raw_observation) :
  length (player ob) = 11 -> exists pf, Player1DFeature.features ob = Ok pf.
Proof.
  intros Hp. unfold Player1DFeature.features, np_divide.
  rewrite decide_True; [cbn [mbind result_bind]; eauto|].
  unfold slice_1_m2. rewrite length_drop, length_take, Hp. reflexivity.
Qed.

(** On a grid of at least one cell, with every unit inside the world,
    [_observation] returns. *)
Lemma observation_returns (resolution : nat) (position : Z) (flip : bool)
    (self : ZergObservationWrapper.t) (ob : raw_observation) :
  0 < resolution -> length (player ob) = 11 ->
  Forall (in_world default_world_size) (units ob) ->
  ZergObservationWrapper.__init__ resolution false false position flip = Ok self ->
  exists spatial nonspatial,
    ZergObservationWrapper._observation self (ZergObservationWrapper.Plain ob)
    = Ok (spatial, nonspatial, None).
Proof.
  intros Hres Hplayer Hus Hinit.
  unfold ZergObservationWrapper.__init__, UnitType3DFeature.num_channels in Hinit.
  cbn [UnitType3DFeature._type_map] in Hinit. rewrite type_map_max in Hinit.
  cbn [mbind result_bind] in Hinit. injection Hinit as <-.
  unfold ZergObservationWrapper._observation.
  cbn [ZergObservationWrapper.env_maskable ZergObservationWrapper.self_maskable
       ZergObservationWrapper._player_relative_feature
       ZergObservationWrapper._unit_type_feature
       ZergObservationWrapper._unit_count_feature
       ZergObservationWrapper._flip mbind result_bind].
  set (prf := PlayerRelative3DFeature.Build resolution default_world_size).
  set (utf := UnitType3DFeature.Build ZergObservationWrapper.type_map resolution
                default_world_size).
  assert (Hpr : exists pr, PlayerRelative3DFeature.features prf ob = Ok pr /\
                           has_shape3 3 resolution resolution pr).
  { unfold PlayerRelative3DFeature.features.
    destruct (player_relative_generate_total prf
                (filter (fun u => alliance u = alliance_value SELF) (units ob)) Hres)
      as [a1 Ha1]; [apply in_world_filter, Hus|].
    destruct (player_relative_generate_total prf
                (filter (fun u => alliance u = alliance_value ENEMY) (units ob)) Hres)
      as [a2 Ha2]; [apply in_world_filter, Hus|].
    destruct (player_relative_generate_total prf
                (filter (fun u => alliance u = alliance_value NEUTRAL) (units ob)) Hres)
      as [a3 Ha3]; [apply in_world_filter, Hus|].
    rewrite Ha1, Ha2, Ha3. cbn [mbind result_bind]. eexists. split; [reflexivity|].
    apply player_relative_generate_shape in Ha1, Ha2, Ha3.
    apply (app_shape 1 2); [exact Ha1|]. apply (app_shape 1 1); assumption. }
  assert (Hut : exists ut, UnitType3DFeature.features utf ob = Ok ut /\
                           has_shape3 22 resolution resolution ut).
  { unfold UnitType3DFeature.features.
    destruct (unit_type_generate_total utf
                (filter (fun u => alliance u = alliance_value SELF) (units ob)) 10
                type_map_max Hres) as [a1 Ha1]; [apply in_world_filter, Hus|].
    destruct (unit_type_generate_total utf
                (filter (fun u => alliance u = alliance_value ENEMY) (units ob)) 10
                type_map_max Hres) as [a2 Ha2]; [apply in_world_filter, Hus|].
    rewrite Ha1, Ha2. cbn [mbind result_bind]. eexists. split; [reflexivity|].
    eapply unit_type_generate_shape in Ha1; [|exact type_map_max].
    eapply unit_type_generate_shape in Ha2; [|exact type_map_max].
    apply (app_shape 11 11); assumption. }
  destruct Hpr as (pr & -> & Hprs). destruct Hut as (ut & -> & Huts).
  destruct (player_features_total ob Hplayer) as [pf ->].
  cbn [mbind result_bind].
  rewrite (np_concatenate3_total 3 22 resolution resolution pr ut Hprs Huts).
  cbn [mbind result_bind]. eauto.
Qed.

(** What a wrapper without action mask declares, and the shapes of what its
    [_observation] returned. *)
Lemma observation_shapes (resolution : nat) (position : Z)
    (flip : bool) (self : ZergObservationWrapper.t) (ob : raw_observation)
    (spatial : list (list (list Qc))) (nonspatial : list Qc) (mask : option (list bool)) :
  NoDup ZergObservationWrapper.type_list ->
  length (player ob) = 11 ->
  ZergObservationWrapper.__init__ resolution false false position flip = Ok self ->
  ZergObservationWrapper._observation self (ZergObservationWrapper.Plain ob)
    = Ok (spatial, nonspatial, mask) ->
  mask = None /\
  ZergObservationWrapper.observation_space self = ([25; resolution; resolution], [112]) /\
  UnitType3DFeature.num_channels (ZergObservationWrapper._unit_type_feature self) = Ok 22 /\
  PlayerRelative3DFeature.num_channels
    (ZergObservationWrapper._player_relative_feature self) = 3 /\
  has_shape3 25 resolution resolution spatial /\
  length (UnitStat1DFeature.features ob) = 8 /\
  length (UnitCount1DFeature.features (ZergObservationWrapper._unit_count_feature self) ob)
    = 88 /\
  (exists pf, Player1DFeature.features ob = Ok pf /\ length pf = 16) /\
  length nonspatial = 112.
Proof.
  intros Hnd Hplayer Hinit Hobs.
  unfold ZergObservationWrapper.__init__, UnitType3DFeature.num_channels in Hinit.
  cbn [UnitType3DFeature._type_map] in Hinit. rewrite type_map_max in Hinit.
  cbn [mbind result_bind] in Hinit. injection Hinit as <-.
  unfold ZergObservationWrapper._observation in Hobs.
  cbn [ZergObservationWrapper.env_maskable ZergObservationWrapper.self_maskable
       ZergObservationWrapper._player_relative_feature
       ZergObservationWrapper._unit_type_feature
       ZergObservationWrapper._unit_count_feature
       ZergObservationWrapper._flip mbind result_bind] in Hobs.
  apply bind_ok in Hobs. destruct Hobs as (pr & Hpr & Hobs).
  apply bind_ok in Hobs. destruct Hobs as (ut & Hut & Hobs).
  apply bind_ok in Hobs. destruct Hobs as (pf & Hpf & Hobs).
  apply bind_ok in Hobs. destruct Hobs as (sp & Hsp & Hobs).
  remember (UnitStat1DFeature.features ob) as stat eqn:Hstat.
  remember (UnitCount1DFeature.features
              (UnitCount1DFeature.Build ZergObservationWrapper.type_list) ob)
    as count eqn:Hcount.
  injection Hobs as <- <- <-.
  apply np_concatenate3_Ok in Hsp. subst sp.
  (* the three player-relative channels *)
  assert (Hprs : has_shape3 3 resolution resolution pr).
  { unfold PlayerRelative3DFeature.features in Hpr.
    apply bind_ok in Hpr. destruct Hpr as (a1 & Ha1 & Hpr).
    apply bind_ok in Hpr. destruct Hpr as (a2 & Ha2 & Hpr).
    apply bind_ok in Hpr. destruct Hpr as (a3 & Ha3 & [= <-]).
    apply player_relative_generate_shape in Ha1, Ha2, Ha3.
    cbn [PlayerRelative3DFeature._resolution] in Ha1, Ha2, Ha3.
    apply (app_shape 1 2); [exact Ha1|]. apply (app_shape 1 1); assumption. }
  (* the 22 unit-type channels *)
  assert (Huts : has_shape3 22 resolution resolution ut).
  { unfold UnitType3DFeature.features in Hut.
    apply bind_ok in Hut. destruct Hut as (a1 & Ha1 & Hut).
    apply bind_ok in Hut. destruct Hut as (a2 & Ha2 & [= <-]).
    eapply unit_type_generate_shape in Ha1; [|exact type_map_max].
    eapply unit_type_generate_shape in Ha2; [|exact type_map_max].
    cbn [UnitType3DFeature._resolution] in Ha1, Ha2.
    apply (app_shape 11 11); assumption. }
  assert (Hsps : has_shape3 25 resolution resolution (pr ++ ut))
    by (apply (app_shape 3 22); assumption).
  pose proof (unit_count_features_length (UnitCount1DFeature.Build ZergObservationWrapper.type_list)
                ob Hnd) as Huc.
  change (UnitCount1DFeature.num_dims (UnitCount1DFeature.Build ZergObservationWrapper.type_list))
    with 88 in Huc.
  rewrite <- Hcount in Huc.
  pose proof (player_features_length ob pf Hplayer Hpf) as Hpfl.
  change Player1DFeature.num_dims with 16 in Hpfl.
  pose proof (unit_stat_features_length ob) as Husl. rewrite <- Hstat in Husl.
  change UnitStat1DFeature.num_dims with 8 in Husl.
  split_and!.
  - reflexivity.
  - reflexivity.
  - unfold UnitType3DFeature.num_channels.
    cbn [ZergObservationWrapper._unit_type_feature UnitType3DFeature._type_map].
    rewrite type_map_max. reflexivity.
  - reflexivity.
  - cbn [ZergObservationWrapper._flip]. unfold ZergObservationWrapper._diagonal_flip.
    destruct flip; [|exact Hsps]. destruct (decide _); [apply flip_shape|]; exact Hsps.
  - exact Husl.
  - cbn [ZergObservationWrapper._unit_count_feature]. rewrite <- Hcount. exact Huc.
  - exists pf. split; [exact Hpf|exact Hpfl].
  - rewrite !length_app, Huc, Hpfl, Husl. reflexivity.
Qed.

(** C10: a wrapper built for an environment without action mask, on unit
    ids that are pairwise distinct, declares the shapes [25, resolution,
    resolution] and [112]: 22 unit-type channels, (10 + 1) * 2, and 3
    player-relative ones; 8 unit-stat, 88 unit-count and 16 player entries.
    For a raw observation whose player vector has its 11 entries, whatever
    [_observation] returns has these shapes; and it does return when the
    grid has a cell and every unit lies inside the world. *)
Theorem observation_matches_observation_space (resolution : nat) (position : Z)
    (flip : bool) (self : ZergObservationWrapper.t) (ob : raw_observation) :
  NoDup ZergObservationWrapper.type_list ->
  length (player ob) = 11 ->
  ZergObservationWrapper.__init__ resolution false false position flip = Ok self ->
  ZergObservationWrapper.observation_space self = ([25; resolution; resolution], [112]) /\
  UnitType3DFeature.num_channels (ZergObservationWrapper._unit_type_feature self) = Ok 22 /\
  PlayerRelative3DFeature.num_channels
    (ZergObservationWrapper._player_relative_feature self) = 3 /\
  length (UnitStat1DFeature.features ob) = 8 /\
  length (UnitCount1DFeature.features (ZergObservationWrapper._unit_count_feature self) ob)
    = 88 /\
  (exists pf, Player1DFeature.features ob = Ok pf /\ length pf = 16) /\
  (forall spatial nonspatial mask,
     ZergObservationWrapper._observation self (ZergObservationWrapper.Plain ob)
       = Ok (spatial, nonspatial, mask) ->
     mask = None /\ has_shape3 25 resolution resolution spatial /\
     length nonspatial = 112) /\
  (0 < resolution -> Forall (in_world default_world_size) (units ob) ->
   exists spatial nonspatial,
     ZergObservationWrapper._observation self (ZergObservationWrapper.Plain ob)
     = Ok (spatial, nonspatial, None)).
Proof.
  intros Hnd Hplayer Hinit.
  destruct (player_features_total ob Hplayer) as [pf Hpf].
  pose proof (player_features_length ob pf Hplayer Hpf) as Hpfl.
  assert (Hself : ZergObservationWrapper.observation_space self
                  = ([25; resolution; resolution], [112]) /\
                  UnitType3DFeature.num_channels
                    (ZergObservationWrapper._unit_type_feature self) = Ok 22 /\
                  ZergObservationWrapper._unit_count_feature self
                  = UnitCount1DFeature.Build ZergObservationWrapper.type_list).
  { unfold ZergObservationWrapper.__init__ in Hinit.
    apply bind_ok in Hinit. destruct Hinit as (c & Hc & [= <-]).
    cbn [ZergObservationWrapper.observation_space ZergObservationWrapper._unit_type_feature
         ZergObservationWrapper._unit_count_feature].
    rewrite Hc. unfold UnitType3DFeature.num_channels in Hc.
    cbn [UnitType3DFeature._type_map] in Hc. rewrite type_map_max in Hc.
    injection Hc as <-. split_and!; reflexivity. }
  destruct Hself as (Hspace & Hchan & Hcount).
  split_and!.
  - exact Hspace.
  - exact Hchan.
  - reflexivity.
  - apply unit_stat_features_length.
  - rewrite Hcount.
    apply (unit_count_features_length
             (UnitCount1DFeature.Build ZergObservationWrapper.type_list) ob Hnd).
  - exists pf. split; [exact Hpf|exact Hpfl].
  - intros spatial nonspatial mask Hobs.
    pose proof (observation_shapes resolution position flip self ob spatial nonspatial mask
                  Hnd Hplayer Hinit Hobs) as (Hm & _ & _ & _ & Hs & _ & _ & _ & Hn).
    auto.
  - intros Hres Hus. exact (observation_returns resolution position flip self ob
                              Hres Hplayer Hus Hinit).
Qed.

End Wrapper.

(** A wrapper of resolution 4 for player 0, flipping, on the sample
    observation. *)
Lemma observation_matches_observation_space_witness :
  exists self spatial nonspatial,
    @ZergObservationWrapper.__init__ sc2_unit_typeid 4 false false 0 true
      = Ok self /\
    @ZergObservationWrapper._observation shape_numpy self
      (ZergObservationWrapper.Plain sample_observation) = Ok (spatial, nonspatial, None) /\
    has_shape3 25 4 4 spatial /\ length nonspatial = 112.
Proof.
  destruct (@ZergObservationWrapper.__init__ sc2_unit_typeid 4 false false 0 true)
    as [self|e] eqn:Einit; [|vm_compute in Einit; discriminate Einit].
  assert (Hnd : NoDup (@ZergObservationWrapper.type_list sc2_unit_typeid))
    by (apply (bool_decide_unpack _); vm_compute; exact I).
  pose proof (@observation_matches_observation_space shape_numpy sc2_unit_typeid
                4 0 true self sample_observation Hnd eq_refl Einit)
    as (_ & _ & _ & _ & _ & _ & Hshape & Hret).
  destruct Hret as (spatial & nonspatial & Hobs).
  - lia.
  - repeat constructor; vm_compute; congruence.
  - exists self, spatial, nonspatial.
    destruct (Hshape spatial nonspatial None Hobs) as (_ & Hs & Hn). auto.
Defined.

(** ** More of [envs/parallel_env.py]: reset, close, and calls that hang *)

Section Served.
Context `{Env}.

(** What an idle process has done with one message once it has run. *)
Lemma served_running (p0 : proc) (m : msg) (env : env_state) :
  idle p0 -> status p0 = Running env ->
  run (send m p0) =
    match worker_dispatch env m.1 m.2 with
    | Ok (Continue env' sent) => Proc (Running env') [] [sent]
    | Ok Break => Proc Terminated [] []
    | Raise e => Proc (Crashed e) [] []
    end.
Proof.
  intros Hp Hst. rewrite (idle_inv p0 Hp), Hst. destruct m as [cmd data].
  unfold run, send. simpl.
  destruct (worker_dispatch env cmd data) as [[env' sent|]|e]; reflexivity.
Qed.

Lemma served_stopped (p0 : proc) (m : msg) :
  outbox p0 = [] -> (forall env, status p0 <> Running env) ->
  run (send m p0) = Proc (status p0) (inbox p0 ++ [m]) [].
Proof.
  intros Ho Hst. destruct p0 as [st i o]. simpl in *. subst.
  unfold run, send. cbn [status inbox outbox].
  apply worker_loop_stopped. exact Hst.
Qed.

(** The comprehension over [recv] blocks at the first pipe that holds no
    reply. *)
Lemma recv_all_blocked (ps : list proc) (i : nat) (p : proc) :
  ps !! i = Some p -> outbox p = [] -> fst (recv_all ps) = Raise Blocked.
Proof.
  revert i. induction ps as [|q ps IH]; intros i Hp Ho; [discriminate|].
  simpl. destruct (recv q) as [[r q']|] eqn:Hq; [|reflexivity].
  destruct i as [|i]; simpl in Hp.
  - injection Hp as ->. unfold recv in Hq. rewrite Ho in Hq. discriminate.
  - specialize (IH i Hp Ho). destruct (recv_all ps) as [rs ps']. simpl in *.
    rewrite IH. reflexivity.
Qed.

(** Receiving takes replies and leaves every process in its state. *)
Lemma recv_all_status (ps : list proc) (i : nat) (p : proc) :
  ps !! i = Some p ->
  exists p', snd (recv_all ps) !! i = Some p' /\ status p' = status p /\ inbox p' = inbox p.
Proof.
  revert i. induction ps as [|q ps IH]; intros i Hp; [discriminate|].
  simpl. destruct (recv q) as [[r q']|] eqn:Hq.
  - destruct (recv_all ps) as [rs ps'] eqn:Hrs. simpl.
    destruct i as [|i]; simpl in Hp.
    + injection Hp as ->. exists q'. unfold recv in Hq.
      destruct (outbox p); [discriminate|]. injection Hq as _ <-. auto.
    + simpl in IH. apply IH. exact Hp.
  - simpl. eauto.
Qed.

Lemma length_recv_all (ps : list proc) : length (snd (recv_all ps)) = length ps.
Proof.
  induction ps as [|q ps IH]; [reflexivity|]. simpl.
  destruct (recv q) as [[r q']|]; [|reflexivity].
  destruct (recv_all ps) as [rs ps']. simpl in *. rewrite IH. reflexivity.
Qed.

End Served.

Section Reset.
Context `{Env}.

Lemma dispatch_reset env data :
  worker_dispatch env "reset" data =
    '(ob, env) ← env_reset env; Ok (Continue env (ResetReply ob)).
Proof. reflexivity. Qed.

Lemma dispatch_close env data :
  worker_dispatch env "close" data = _ ← env_close env; Ok Break.
Proof. reflexivity. Qed.

(** What the manager receives from an idle worker it sent [reset]. *)
Lemma reset_recv (p0 : proc) (r : reply) (p' : proc) :
  idle p0 -> recv (run (send ("reset", None) p0)) = Some (r, p') ->
  exists env ob env',
    status p0 = Running env /\ env_reset env = Ok (ob, env') /\
    r = ResetReply ob /\ p' = Proc (Running env') [] [].
Proof.
  intros Hp Hr. destruct (status p0) as [env| |e] eqn:Hst.
  - rewrite (served_running p0 _ env Hp Hst) in Hr. cbn [fst snd] in Hr.
    rewrite dispatch_reset in Hr.
    destruct (env_reset env) as [[ob env']|e] eqn:Hreset; cbn [mbind result_bind] in Hr.
    + injection Hr as <- <-. exists env, ob, env'. split_and!; auto.
    + discriminate.
  - rewrite served_stopped in Hr; [discriminate|apply Hp|rewrite Hst; discriminate].
  - rewrite served_stopped in Hr; [discriminate|apply Hp|rewrite Hst; discriminate].
Qed.

(** X1: [_reset] from workers whose pipes are empty.  A batch it returns
    comes from at least one worker and is the stack of the observations that
    the workers' [env.reset()] returned, worker [i]'s in slot [i]: one array
    with a row per worker, or a tuple of exactly the fields of worker 0's
    tuple, each the array of that field of every worker; and worker [i] is
    left running in the state the reset reached, with empty pipes. *)
Theorem reset_slot_is_worker_reset (ps0 : list proc) (batch : observation) :
  Forall idle ps0 -> fst (_reset ps0) = Ok batch ->
  1 <= length ps0 /\ length (snd (_reset ps0)) = length ps0 /\
  exists obs_w,
    length obs_w = length ps0 /\ stacked batch obs_w /\
    forall i p0, ps0 !! i = Some p0 ->
      exists env ob env',
        status p0 = Running env /\ env_reset env = Ok (ob, env') /\
        obs_w !! i = Some ob /\ ob_in_slot batch (length ps0) i ob /\
        snd (_reset ps0) !! i = Some (Proc (Running env') [] []).
Proof.
  intros Hidle Hb. unfold _reset in *.
  destruct (recv_all (map run (map (send ("reset", None)) ps0))) as [results ps'] eqn:Hrecv.
  cbn [fst snd] in *.
  destruct results as [results|e]; [|discriminate]. cbn [mbind result_bind] in Hb.
  apply bind_ok in Hb. destruct Hb as (obs & Hobs & Hstack).
  destruct (recv_all_Ok _ _ _ Hrecv) as (Hlr & Hlp & Hslots).
  rewrite !length_map in Hlr, Hlp.
  apply mapM_Ok in Hobs. pose proof (Forall2_length _ _ _ Hobs) as Hlo.
  split; [|split; [exact Hlp|]].
  - destruct obs as [|ob0 obs]; [discriminate|]. simpl in Hlo. lia.
  - exists obs. split; [lia|]. split; [apply stack_obs_stacked; exact Hstack|].
    intros i p0 Hp0.
    assert (Hpi : map run (map (send ("reset", None)) ps0) !! i
                  = Some (run (send ("reset", None) p0))).
    { change (map ?f ?l) with (f <$> l). rewrite !list_lookup_fmap, Hp0. reflexivity. }
    destruct (Hslots i _ Hpi) as (r & p' & Hri & Hpi' & Hrp).
    pose proof (Forall_lookup_1 _ _ _ _ Hidle Hp0) as Hidle0.
    destruct (reset_recv p0 r p' Hidle0 Hrp) as (env & ob & env' & Hst & Hreset & -> & ->).
    destruct (Forall2_lookup_l _ _ _ _ _ Hobs Hri) as (ob' & Hob' & Hro).
    injection Hro as <-.
    exists env, ob, env'. split_and!; auto.
    rewrite <- Hlr, Hlo. apply stack_obs_slots; assumption.
Qed.

End Reset.

(** Two environments with a composite observation, one of them in the
    middle of an episode: the batch is a tuple of two fields, each with a row
    per worker. *)
Lemma reset_slot_is_worker_reset_witness :
  1 <= 2 /\
  length (snd (@_reset tuple_env
                 [Proc (@Running tuple_env 0) [] []; Proc (@Running tuple_env 1) [] []])) = 2 /\
  exists obs_w,
    length obs_w = 2 /\
    stacked (ObTuple [Arr [Arr [Scalar 0%Qc]; Arr [Scalar 0%Qc]];
                      Arr [Arr [Scalar 0%Qc; Scalar 0%Qc]; Arr [Scalar 0%Qc; Scalar 0%Qc]]])
            obs_w /\
    forall i p0,
      [Proc (@Running tuple_env 0) [] []; Proc (@Running tuple_env 1) [] []] !! i = Some p0 ->
      exists env ob env',
        status p0 = Running env /\ @env_reset tuple_env env = Ok (ob, env') /\
        obs_w !! i = Some ob /\
        ob_in_slot (ObTuple [Arr [Arr [Scalar 0%Qc]; Arr [Scalar 0%Qc]];
                             Arr [Arr [Scalar 0%Qc; Scalar 0%Qc];
                                  Arr [Scalar 0%Qc; Scalar 0%Qc]]]) 2 i ob /\
        snd (@_reset tuple_env
               [Proc (@Running tuple_env 0) [] []; Proc (@Running tuple_env 1) [] []]) !! i
        = Some (Proc (Running env') [] []).
Proof.
  apply (@reset_slot_is_worker_reset tuple_env
           [Proc (@Running tuple_env 0) [] []; Proc (@Running tuple_env 1) [] []]).
  - repeat constructor.
  - reflexivity.
Defined.

Section Close.
Context `{Env}.

(** An idle worker that was sent [close] has stopped: terminated when
    [env.close()] returned, crashed when it raised, as it was when it had
    stopped before.  It has sent nothing. *)
Lemma closed_worker (p0 : proc) :
  idle p0 ->
  outbox (run (send ("close", None) p0)) = [] /\
  (forall env, status (run (send ("close", None) p0)) <> Running env) /\
  forall env, status p0 = Running env ->
    run (send ("close", None) p0)
    = Proc (match env_close env with Ok _ => Terminated | Raise e => Crashed e end) [] [].
Proof.
  intros Hp. destruct (status p0) as [env| |e] eqn:Hst.
  - rewrite (served_running p0 _ env Hp Hst). cbn [fst snd]. rewrite dispatch_close.
    destruct (env_close env) as [[]|e] eqn:Hc; cbn [mbind result_bind];
      (split_and!; [reflexivity|discriminate|]); intros env0 [= <-]; rewrite Hc; reflexivity.
  - rewrite served_stopped; [|apply Hp|rewrite Hst; discriminate]. rewrite Hst.
    split_and!; [reflexivity|discriminate|discriminate].
  - rewrite served_stopped; [|apply Hp|rewrite Hst; discriminate]. rewrite Hst.
    split_and!; [reflexivity|discriminate|discriminate].
Qed.

Lemma mapM_join_stopped (ps : list proc) :
  Forall (fun p => forall env, status p <> Running env) ps ->
  mapM join ps = Ok (map (fun _ => ()) ps).
Proof.
  induction 1 as [|p ps Hp _ IH]; [reflexivity|].
  assert (Hj : join p = Ok ()).
  { unfold join. destruct (status p) as [env| |e]; [exfalso; eapply Hp|..]; reflexivity. }
  change (mapM join (p :: ps)) with (y ← join p; k ← mapM join ps; mret (y :: k)).
  rewrite Hj, IH. reflexivity.
Qed.

Lemma close_pipes (ps0 : list proc) :
  snd (_close ps0) = map (fun p => run (send ("close", None) p)) ps0.
Proof. unfold _close. cbn [snd]. apply map_map. Qed.

(** A stopped worker with an empty outbox answers no command. *)
Lemma stopped_silent (p : proc) (m : msg) :
  outbox p = [] -> (forall env, status p <> Running env) -> outbox (run (send m p)) = [].
Proof. intros Ho Hst. rewrite served_stopped by assumption. reflexivity. Qed.

(** X2: [_close] on workers whose pipes are empty always returns, the joins
    included; it leaves no worker running: one that was running has closed
    its environment and is terminated, or crashed if [env.close()] raised.
    On the wrapper that was closed, [_step], whatever the actions, and
    [_reset] never return: the manager waits for replies no worker sends. *)
Theorem close_stops_every_worker (ps0 : list proc) :
  Forall idle ps0 ->
  fst (_close ps0) = Ok () /\
  num_envs (snd (_close ps0)) = num_envs ps0 /\
  (forall i p, snd (_close ps0) !! i = Some p -> forall env, status p <> Running env) /\
  (forall i p0 env, ps0 !! i = Some p0 -> status p0 = Running env ->
     snd (_close ps0) !! i
     = Some (Proc (match env_close env with Ok _ => Terminated | Raise e => Crashed e end)
                  [] [])) /\
  (1 <= num_envs ps0 ->
   (forall actions, fst (_step (snd (_close ps0)) actions) = Raise Blocked) /\
   fst (_reset (snd (_close ps0))) = Raise Blocked).
Proof.
  intros Hidle.
  assert (Hclosed : Forall (fun p => outbox p = [] /\ forall env, status p <> Running env)
                           (snd (_close ps0))).
  { rewrite close_pipes. apply Forall_forall. intros p Hin.
    change (map ?f ?l) with (f <$> l) in Hin. apply list_elem_of_fmap in Hin.
    destruct Hin as (p0 & -> & Hin). rewrite Forall_forall in Hidle.
    destruct (closed_worker p0 (Hidle p0 Hin)) as (Ho & Hs & _). auto. }
  split_and!.
  - unfold _close. cbn [fst]. rewrite map_map. rewrite close_pipes in Hclosed.
    rewrite mapM_join_stopped; [reflexivity|].
    eapply Forall_impl; [exact Hclosed|]. intros p [_ Hs]. exact Hs.
  - rewrite close_pipes. unfold num_envs. apply length_map.
  - intros i p Hp. exact (proj2 (Forall_lookup_1 _ _ _ _ Hclosed Hp)).
  - intros i p0 env Hp0 Hst. rewrite close_pipes.
    change (map ?f ?l) with (f <$> l). rewrite list_lookup_fmap, Hp0. cbn [fmap option_fmap option_map].
    f_equal. apply closed_worker; [|exact Hst]. exact (Forall_lookup_1 _ _ _ _ Hidle Hp0).
  - intros HN.
    assert (Hfirst : exists p, snd (_close ps0) !! 0 = Some p).
    { apply lookup_lt_is_Some_2. rewrite close_pipes, length_map. exact HN. }
    destruct Hfirst as [p Hp].
    destruct (Forall_lookup_1 _ _ _ _ Hclosed Hp) as [Ho Hs].
    split.
    + intros actions. unfold _step.
      destruct (recv_all (map run (send_steps (snd (_close ps0)) actions)))
        as [results ps'] eqn:Hrecv.
      cbn [fst].
      assert (Hb : fst (recv_all (map run (send_steps (snd (_close ps0)) actions)))
                   = Raise Blocked).
      { apply (recv_all_blocked _ 0 (run match actions !! 0 with
                                         | Some a => send ("step", Some a) p
                                         | None => p
                                         end)).
        - change (map ?f ?l) with (f <$> l).
          rewrite list_lookup_fmap, (send_steps_lookup _ actions 0 p Hp). reflexivity.
        - destruct (actions !! 0) as [a|]; [apply stopped_silent; assumption|].
          unfold run. rewrite worker_loop_stopped by exact Hs. exact Ho. }
      rewrite Hrecv in Hb. cbn [fst] in Hb. rewrite Hb. reflexivity.
    + unfold _reset.
      destruct (recv_all (map run (map (send ("reset", None)) (snd (_close ps0)))))
        as [results ps'] eqn:Hrecv.
      cbn [fst].
      assert (Hb : fst (recv_all (map run (map (send ("reset", None)) (snd (_close ps0)))))
                   = Raise Blocked).
      { apply (recv_all_blocked _ 0 (run (send ("reset", None) p))).
        - change (map ?f ?l) with (f <$> l). rewrite !list_lookup_fmap, Hp. reflexivity.
        - apply stopped_silent; assumption. }
      rewrite Hrecv in Hb. cbn [fst] in Hb. rewrite Hb. reflexivity.
Qed.

End Close.

(** Two counting environments are closed; a step on them afterwards hangs. *)
Lemma close_stops_every_worker_witness :
  fst (@_close counter_env
         [Proc (@Running counter_env 0) [] []; Proc (@Running counter_env 1) [] []]) = Ok () /\
  fst (@_step counter_env
         (snd (@_close counter_env
                 [Proc (@Running counter_env 0) [] []; Proc (@Running counter_env 1) [] []]))
         [3; 4]) = Raise Blocked.
Proof.
  destruct (@close_stops_every_worker counter_env
              [Proc (@Running counter_env 0) [] []; Proc (@Running counter_env 1) [] []])
    as (Hok & _ & _ & _ & Hhang).
  - repeat constructor.
  - split; [exact Hok|]. apply Hhang. simpl. lia.
Defined.

Section Hangs.
Context `{Env}.

Lemma step_pipes_lookup (ps0 : list proc) (actions : list action) (i : nat) (p0 : proc) :
  ps0 !! i = Some p0 ->
  map run (send_steps ps0 actions) !! i
  = Some (run match actions !! i with
              | Some a => send ("step", Some a) p0
              | None => p0
              end).
Proof.
  intros Hp0. change (map ?f ?l) with (f <$> l).
  rewrite list_lookup_fmap, (send_steps_lookup ps0 actions i p0 Hp0). reflexivity.
Qed.

Lemma step_blocked (ps0 : list proc) (actions : list action) (i : nat) (p : proc) :
  map run (send_steps ps0 actions) !! i = Some p -> outbox p = [] ->
  fst (_step ps0 actions) = Raise Blocked.
Proof.
  intros Hp Ho. pose proof (recv_all_blocked _ i p Hp Ho) as Hb. unfold _step.
  destruct (recv_all (map run (send_steps ps0 actions))) as [results ps']. cbn [fst] in *.
  rewrite Hb. reflexivity.
Qed.

Lemma step_status (ps0 : list proc) (actions : list action) (i : nat) (p : proc) :
  map run (send_steps ps0 actions) !! i = Some p ->
  exists p', snd (_step ps0 actions) !! i = Some p' /\ status p' = status p.
Proof.
  intros Hp. destruct (recv_all_status _ i p Hp) as (p' & Hp' & Hst & _). unfold _step.
  destruct (recv_all (map run (send_steps ps0 actions))) as [results ps']. cbn [snd] in *.
  eauto.
Qed.

(** A stopped worker makes [_step] hang. *)
Lemma stopped_worker_blocks_step (ps0 : list proc) (actions : list action)
    (i : nat) (p0 : proc) :
  Forall idle ps0 -> ps0 !! i = Some p0 -> (forall env, status p0 <> Running env) ->
  fst (_step ps0 actions) = Raise Blocked.
Proof.
  intros Hidle Hp0 Hstopped.
  pose proof (Forall_lookup_1 _ _ _ _ Hidle Hp0) as Hidle0.
  apply (step_blocked ps0 actions i _ (step_pipes_lookup ps0 actions i p0 Hp0)).
  destruct (actions !! i) as [a|].
  - apply stopped_silent; [apply Hidle0|exact Hstopped].
  - unfold run. rewrite worker_loop_stopped by exact Hstopped. apply Hidle0.
Qed.

(** X3: [_step] hangs as soon as one worker does not reply: because the
    actions are fewer than the workers, because the worker has stopped, or
    because its environment raised, which crashes the worker without a
    word to the manager.  The call then never returns, but every worker
    that got an action has served it: its environment has moved on. *)
Theorem step_hangs_without_reply (ps0 : list proc) (actions : list action)
    (i : nat) (p0 : proc) :
  Forall idle ps0 -> ps0 !! i = Some p0 ->
  (actions !! i = None \/
   (forall env, status p0 <> Running env) \/
   (exists a env e, actions !! i = Some a /\ status p0 = Running env /\
                    worker_dispatch env "step" (Some a) = Raise e)) ->
  fst (_step ps0 actions) = Raise Blocked /\
  (forall a env e, actions !! i = Some a -> status p0 = Running env ->
     worker_dispatch env "step" (Some a) = Raise e ->
     exists p', snd (_step ps0 actions) !! i = Some p' /\ status p' = Crashed e) /\
  (forall j p a env env' r,
     ps0 !! j = Some p -> actions !! j = Some a -> status p = Running env ->
     worker_dispatch env "step" (Some a) = Ok (Continue env' r) ->
     exists p', snd (_step ps0 actions) !! j = Some p' /\ status p' = Running env').
Proof.
  intros Hidle Hp0 Hcause.
  pose proof (Forall_lookup_1 _ _ _ _ Hidle Hp0) as Hidle0.
  pose proof (step_pipes_lookup ps0 actions i p0 Hp0) as Hpi.
  split_and!.
  - apply (step_blocked ps0 actions i _ Hpi).
    destruct Hcause as [Hnone|[Hstopped|(a & env & e & Ha & Hst & Hd)]].
    + rewrite Hnone. unfold run. rewrite (idle_inv p0 Hidle0). cbn [status inbox outbox].
      destruct (status p0); reflexivity.
    + destruct (actions !! i) as [a|].
      * apply stopped_silent; [apply Hidle0|exact Hstopped].
      * unfold run. rewrite worker_loop_stopped by exact Hstopped. apply Hidle0.
    + rewrite Ha. change (run (send ("step", Some a) p0)) with (answered p0 a).
      rewrite (answered_running p0 a env Hidle0 Hst), Hd. reflexivity.
  - intros a env e Ha Hst Hd. rewrite Ha in Hpi.
    change (run (send ("step", Some a) p0)) with (answered p0 a) in Hpi.
    rewrite (answered_running p0 a env Hidle0 Hst), Hd in Hpi.
    exact (step_status ps0 actions i _ Hpi).
  - intros j p a env env' r Hp Ha Hst Hd.
    pose proof (step_pipes_lookup ps0 actions j p Hp) as Hpj. rewrite Ha in Hpj.
    change (run (send ("step", Some a) p)) with (answered p a) in Hpj.
    rewrite (answered_running p a env (Forall_lookup_1 _ _ _ _ Hidle Hp) Hst), Hd in Hpj.
    exact (step_status ps0 actions j _ Hpj).
Qed.

Lemma send_steps_surplus (ps : list proc) (actions more : list action) :
  length ps <= length actions -> send_steps ps (actions ++ more) = send_steps ps actions.
Proof.
  revert actions. induction ps as [|p ps IH]; intros [|a actions] Hl; simpl in *;
    try reflexivity; try lia.
  rewrite IH by lia. reflexivity.
Qed.

(** X4: actions beyond the number of workers are dropped without an error:
    [_step] on a longer sequence of actions does what it does on its first
    [N] actions. *)
Theorem step_ignores_surplus_actions (ps0 : list proc) (actions more : list action) :
  num_envs ps0 <= length actions -> _step ps0 (actions ++ more) = _step ps0 actions.
Proof. intros Hl. unfold _step. rewrite send_steps_surplus by exact Hl. reflexivity. Qed.

End Hangs.

(** Two counting environments and one action: the call hangs, and the first
    environment has made its step. *)
Lemma step_hangs_without_reply_witness :
  fst (@_step counter_env
         [Proc (@Running counter_env 0) [] []; Proc (@Running counter_env 0) [] []] [3])
  = Raise Blocked /\
  exists p', snd (@_step counter_env
                    [Proc (@Running counter_env 0) [] []; Proc (@Running counter_env 0) [] []]
                    [3]) !! 0 = Some p' /\
             status p' = @Running counter_env 1.
Proof.
  destruct (@step_hangs_without_reply counter_env
              [Proc (@Running counter_env 0) [] []; Proc (@Running counter_env 0) [] []] [3]
              1 (Proc (@Running counter_env 0) [] []))
    as (Hhang & _ & Hmoved).
  - repeat constructor.
  - reflexivity.
  - left. reflexivity.
  - split; [exact Hhang|].
    apply (Hmoved 0 (Proc (@Running counter_env 0) [] []) 3 0 1
             (StepReply (ObArray (Arr [Scalar (Q2Qc 1)])) (Q2Qc 3) false
                        (0 : @info counter_env))); reflexivity.
Defined.

Lemma step_ignores_surplus_actions_witness :
  @_step counter_env [Proc (@Running counter_env 0) [] []] ([3] ++ [4; 5])
  = @_step counter_env [Proc (@Running counter_env 0) [] []] [3].
Proof.
  apply (@step_ignores_surplus_actions counter_env). simpl. lia.
Defined.

Section Init.
Context `{Env}.

Lemma worker_started (f : unit -> result env_state) :
  worker [] f = Proc (match f () with Ok env => Running env | Raise e => Crashed e end) [] [].
Proof. unfold worker. destruct (f ()); reflexivity. Qed.

Lemma init_idle (env_create_funcs : list (unit -> result env_state)) :
  Forall idle (map (worker []) env_create_funcs).
Proof.
  apply Forall_forall. intros p Hin.
  change (map ?f ?l) with (f <$> l) in Hin. apply list_elem_of_fmap in Hin.
  destruct Hin as (f & -> & _). rewrite worker_started. split; reflexivity.
Qed.

(** X5: [__init__] fails for an empty list of creation functions, with the
    [ValueError] of the unpacking, and for no other list: a creation function
    that raises only crashes its own worker, before the loop is entered.  The
    wrapper [__init__] then builds looks like any other, with as many
    environments as functions, and the failure shows as a hang: neither
    [_reset] nor [_step] returns on it. *)
Theorem init_failure_shows_as_hang (env_create_funcs : list (unit -> result env_state))
    (i : nat) (f : unit -> result env_state) (e : exn) :
  env_create_funcs !! i = Some f -> f () = Raise e ->
  (forall fns, (exists e', __init__ fns = Raise e') <->
               fns = [] /\ __init__ fns = Raise ValueError) /\
  exists self,
    __init__ env_create_funcs = Ok self /\
    num_envs self = length env_create_funcs /\
    self !! i = Some (Proc (Crashed e) [] []) /\
    (forall j g env, env_create_funcs !! j = Some g -> g () = Ok env ->
       self !! j = Some (Proc (Running env) [] [])) /\
    fst (_reset self) = Raise Blocked /\
    forall actions, fst (_step self actions) = Raise Blocked.
Proof.
  intros Hf He. split.
  { intros [|g fns]; split.
    - intros _. split; reflexivity.
    - intros [_ Hr]. eauto.
    - intros [e' He']. discriminate.
    - intros [Hnil _]. discriminate. }
  exists (map (worker []) env_create_funcs).
  assert (Hi : map (worker []) env_create_funcs !! i = Some (Proc (Crashed e) [] [])).
  { change (map ?f ?l) with (f <$> l).
    rewrite list_lookup_fmap, Hf. cbn [fmap option_fmap option_map].
    rewrite worker_started, He. reflexivity. }
  split_and!.
  - destruct env_create_funcs; [discriminate|reflexivity].
  - unfold num_envs. apply length_map.
  - exact Hi.
  - intros j g env Hg Hgenv. change (map ?f ?l) with (f <$> l).
    rewrite list_lookup_fmap, Hg. cbn [fmap option_fmap option_map].
    rewrite worker_started, Hgenv. reflexivity.
  - unfold _reset.
    assert (Hb : fst (recv_all (map run (map (send ("reset", None))
                                           (map (worker []) env_create_funcs))))
                 = Raise Blocked).
    { apply (recv_all_blocked _ i (run (send ("reset", None) (Proc (Crashed e) [] [])))).
      - change (map ?f ?l) with (f <$> l). rewrite !list_lookup_fmap, Hf.
        cbn [fmap option_fmap option_map]. rewrite worker_started, He. reflexivity.
      - reflexivity. }
    destruct (recv_all _) as [results ps']. cbn [fst] in *. rewrite Hb. reflexivity.
  - intros actions.
    apply (stopped_worker_blocks_step (map (worker []) env_create_funcs) actions i
             (Proc (Crashed e) [] []) (init_idle _) Hi).
    discriminate.
Qed.

End Init.

(** Of two creation functions the second raises: [__init__] returns a
    wrapper of two environments, on which [_reset] never returns. *)
Lemma init_failure_shows_as_hang_witness :
  exists self,
    @__init__ counter_env [fun _ => Ok 0; fun _ => Raise (OtherError "no game")] = Ok self /\
    num_envs self = 2 /\
    fst (@_reset counter_env self) = Raise Blocked.
Proof.
  destruct (@init_failure_shows_as_hang counter_env
              [fun _ => Ok 0; fun _ => Raise (OtherError "no game")] 1
              (fun _ => Raise (OtherError "no game")) (OtherError "no game")
              eq_refl eq_refl)
    as (_ & self & Hinit & Hn & _ & _ & Hreset & _).
  exists self. split_and!; [exact Hinit|exact Hn|exact Hreset].
Defined.

(** ** More of [agents/a2c_agent.py] *)

(** *** What [_boostrap] returns, replica by replica *)

Lemma loop_cells_snoc (discount : Qc) (A : list (Qc * Qc)) :
  forall v, exists front w,
    loop_cells discount A v = front ++ [w] /\
    forall r d, loop_cells discount (A ++ [(r, d)]) v
                = front ++ [(w * (1 - d))%Qc; (discount * (w * (1 - d)) + r)%Qc].
Proof.
  induction A as [|[r' d'] A IH]; intros v.
  - exists [], v. split; reflexivity.
  - destruct (IH (discount * (v * (1 - d')) + r')%Qc) as (front & w & Hf & Hs).
    exists ((v * (1 - d'))%Qc :: front), w. simpl. rewrite Hf. split; [reflexivity|].
    intros r d. rewrite Hs. reflexivity.
Qed.

Lemma loop_cells_reverse (discount : Qc) (zs : list (Qc * Qc)) (R0 : Qc) :
  loop_cells discount (reverse zs) R0
  = reverse ((cells_after discount zs R0).1 :: (cells_after discount zs R0).2).
Proof.
  induction zs as [|[r d] zs IH]; [reflexivity|].
  rewrite reverse_cons.
  destruct (loop_cells_snoc discount (reverse zs) R0) as (front & w & Hf & Hs).
  rewrite Hs. rewrite IH, reverse_cons in Hf. apply app_inj_tail in Hf.
  destruct Hf as [<- <-]. cbn [cells_after fold_right].
  fold (cells_after discount zs R0). destruct (cells_after discount zs R0) as [w st].
  cbn [fst snd]. rewrite !reverse_cons, <- !app_assoc. reflexivity.
Qed.

Lemma spec_targets_fold (discount v_T : Qc) (rewards dones : list Qc) :
  spec_targets discount rewards dones v_T
  = (spec_fold discount (v_T * (1 - List.last dones 0))%Qc (zip rewards dones)).2.
Proof. reflexivity. Qed.

Lemma cells_after_cons (discount R0 r d : Qc) (zs : list (Qc * Qc)) :
  cells_after discount ((r, d) :: zs) R0
  = ((discount * ((cells_after discount zs R0).1 * (1 - d)) + r)%Qc,
     ((cells_after discount zs R0).1 * (1 - d))%Qc :: (cells_after discount zs R0).2).
Proof.
  unfold cells_after. cbn [fold_right]. destruct (fold_right _ _ zs). reflexivity.
Qed.

Lemma spec_fold_cons (discount R0 r d : Qc) (zs : list (Qc * Qc)) :
  spec_fold discount R0 ((r, d) :: zs)
  = ((r + discount * (spec_fold discount R0 zs).1 * (1 - d))%Qc,
     (r + discount * (spec_fold discount R0 zs).1 * (1 - d))%Qc
     :: (spec_fold discount R0 zs).2).
Proof.
  unfold spec_fold. cbn [fold_right]. destruct (fold_right _ _ zs). reflexivity.
Qed.

(** The storages against the recursion of the specification: the loop
    carries the value of the recursion, and what it leaves behind is the
    recursion's targets, each but the first multiplied by one minus the done
    flag of the step before. *)
Lemma cells_after_spec (discount R0 : Qc) (zs : list (Qc * Qc)) :
  (cells_after discount zs R0).1 = (spec_fold discount R0 zs).1 /\
  length (cells_after discount zs R0).2 = length zs /\
  length (spec_fold discount R0 zs).2 = length zs /\
  (zs <> [] ->
   (cells_after discount zs R0).1 :: take (length zs - 1) (cells_after discount zs R0).2
   = zip_with Qcmult (spec_fold discount R0 zs).2
                     (1%Qc :: map (fun z => (1 - z.2)%Qc) zs)).
Proof.
  induction zs as [|[r d] zs IH];
    [split_and!; [reflexivity|reflexivity|reflexivity|congruence]|].
  rewrite cells_after_cons, spec_fold_cons. cbn [fst snd].
  remember (cells_after discount zs R0) as c eqn:Hc.
  remember (spec_fold discount R0 zs) as sp eqn:Hsp. clear Hc Hsp.
  destruct c as [w st], sp as [R tg]. cbn [fst snd] in *.
  destruct IH as (-> & Hlen & Hlen' & IH).
  assert (HR : (discount * (R * (1 - d)) + r = r + discount * R * (1 - d))%Qc) by ring.
  split_and!; [exact HR|simpl; rewrite Hlen; reflexivity|simpl; rewrite Hlen'; reflexivity|].
  intros _.
  rewrite HR. cbn [length map zip_with snd]. rewrite Qcmult_1_r. f_equal.
  replace (S (length zs) - 1) with (length zs) by lia.
  destruct zs as [|z zs].
  - destruct st; [|discriminate]. destruct tg; [reflexivity|discriminate].
  - specialize (IH ltac:(discriminate)). cbn [length map] in IH.
    replace (S (length zs) - 1) with (length zs) in IH by lia.
    destruct tg as [|R1 tg]; [discriminate|].
    cbn [zip_with] in IH. rewrite Qcmult_1_r in IH. injection IH as <- IH.
    cbn [length take map zip_with]. rewrite IH. reflexivity.
Qed.

Lemma reverse_tail_reverse {A} (x : A) (l : list A) :
  l <> [] -> reverse (tail (reverse (x :: l))) = x :: take (length l - 1) l.
Proof.
  intros Hl. destruct l as [|y l _] using rev_ind; [congruence|].
  rewrite reverse_cons, reverse_snoc. cbn [app tail].
  rewrite reverse_snoc, reverse_involutive.
  rewrite length_app. cbn [length]. replace (length l + 1 - 1) with (length l) by lia.
  rewrite take_app_length. reflexivity.
Qed.

(** One replica of the loop: its storages are those of the loop on the
    replica's own rewards, done flags and terminal value. *)
Lemma loop_storages_column (i : nat) (discount : Qc)
    (steps : list (list Qc * list Qc)) (cells : list (Qc * Qc)) :
  Forall2 (fun s c => s.1 !! i = Some c.1 /\ s.2 !! i = Some c.2) steps cells ->
  forall v x, v !! i = Some x ->
    Forall2 (fun row y => row !! i = Some y)
            (loop_storages discount steps v) (loop_cells discount cells x).
Proof.
  induction 1 as [|[r d] [ri di] steps cells [Hr Hd] _ IH]; intros v x Hv; simpl in *.
  - repeat constructor. exact Hv.
  - assert (Hx : zip_with Qcmult v (rsub 1 d) !! i = Some (x * (1 - di))%Qc).
    { rewrite lookup_zip_with, lookup_rsub, Hv, Hd. reflexivity. }
    constructor; [exact Hx|]. apply IH.
    rewrite lookup_zip_with, lookup_rmul, Hx, Hr. reflexivity.
Qed.

Lemma column_Forall2 {A} (i : nat) (mb : list (list A)) (col : list A) :
  column i mb = Some col <-> Forall2 (fun row x => row !! i = Some x) mb col.
Proof. unfold column. apply mapM_Some. Qed.

Lemma Forall2_tail {A B} (R : A -> B -> Prop) (l : list A) (k : list B) :
  Forall2 R l k -> Forall2 R (tail l) (tail k).
Proof. destruct 1; [constructor|assumption]. Qed.

Lemma last_List_last {A} (l : list A) (x d : A) : last l = Some x -> List.last l d = x.
Proof.
  induction l as [|y l IH]; [discriminate|]. destruct l as [|z l]; simpl in *.
  - congruence.
  - exact IH.
Qed.

Lemma Forall2_zip_columns {A B C D} (P : A -> C -> Prop) (Q : B -> D -> Prop)
    (l1 : list A) (l2 : list B) (k1 : list C) (k2 : list D) :
  Forall2 P l1 k1 -> Forall2 Q l2 k2 ->
  Forall2 (fun s c => P s.1 c.1 /\ Q s.2 c.2) (zip l1 l2) (zip k1 k2).
Proof.
  intros H1. revert l2 k2. induction H1 as [|x y l1 k1 Hxy _ IH]; intros l2 k2 H2.
  - constructor.
  - destruct H2 as [|x2 y2 l2 k2 Hxy2 H2]; [constructor|].
    simpl. constructor; [split; assumption|]. apply IH. exact H2.
Qed.

(** The targets [_boostrap] returns for replica [i], against the recursion of
    the specification on the replica's rewards, done flags and terminal
    value: the target of every step but the first is the recursion's,
    multiplied by one minus the done flag of the step before. *)
Lemma targets_by_value_column (discount : Qc) (T n i : nat)
    (reward_mb done_mb : list (list Qc)) (v rs ds : list Qc) (vi : Qc) :
  1 <= T -> shaped T n reward_mb -> shaped T n done_mb ->
  column i reward_mb = Some rs -> column i done_mb = Some ds -> v !! i = Some vi ->
  column i (targets_by_value discount reward_mb done_mb v)
  = Some (zip_with Qcmult (spec_targets discount rs ds vi)
                          (1%Qc :: map (fun d => (1 - d)%Qc) ds)).
Proof.
  intros HT [Hrl _] [Hdl _] Hrs Hds Hvi.
  apply column_Forall2 in Hrs, Hds. apply column_Forall2.
  pose proof (Forall2_length _ _ _ Hrs) as Hlrs.
  pose proof (Forall2_length _ _ _ Hds) as Hlds.
  pose proof (Forall2_last _ _ _ Hds) as Hlast.
  unfold targets_by_value.
  destruct (last done_mb) as [done_last|] eqn:Hdlast.
  2:{ apply last_None in Hdlast. subst done_mb. simpl in Hdl. lia. }
  destruct (last ds) as [dl|] eqn:Hdslast; [|inversion Hlast].
  assert (Hdli : done_last !! i = Some dl) by (inversion Hlast; assumption).
  rewrite spec_targets_fold, (last_List_last ds dl 0%Qc Hdslast).
  set (R0 := (vi * (1 - dl))%Qc).
  set (zs := zip rs ds).
  assert (Hzs : length zs = T) by (unfold zs; rewrite length_zip_with; lia).
  destruct (cells_after_spec discount R0 zs) as (_ & Hlc & _ & Hspec).
  specialize (Hspec ltac:(intros Hz; rewrite Hz in Hzs; simpl in Hzs; lia)).
  assert (Hsnd : map (fun z : Qc * Qc => (1 - z.2)%Qc) zs = map (fun d => (1 - d)%Qc) ds).
  { transitivity (map (fun d => (1 - d)%Qc) (map snd zs)); [symmetry; apply map_map|].
    f_equal. apply snd_zip. lia. }
  rewrite Hsnd in Hspec. rewrite <- Hspec.
  rewrite <- Hlc, <- reverse_tail_reverse, <- loop_cells_reverse.
  2:{ intros Hz. rewrite Hz in Hlc. simpl in Hlc. lia. }
  apply Forall2_reverse, Forall2_tail, loop_storages_column.
  - apply Forall2_reverse. unfold zs.
    apply (Forall2_zip_columns (fun (row : list Qc) x => row !! i = Some x)
                               (fun (row : list Qc) x => row !! i = Some x)); assumption.
  - rewrite lookup_zip_with, lookup_rsub, Hvi, Hdli. reflexivity.
Qed.

Lemma spec_targets_length (discount v_T : Qc) (rewards dones : list Qc) :
  length rewards = length dones ->
  length (spec_targets discount rewards dones v_T) = length rewards.
Proof.
  intros Hl. rewrite spec_targets_fold.
  destruct (cells_after_spec discount (v_T * (1 - List.last dones 0))%Qc (zip rewards dones))
    as (_ & _ & -> & _).
  rewrite length_zip_with. lia.
Qed.

Lemma column_entry {A} (i t : nat) (mb : list (list A)) (col : list A) :
  column i mb = Some col -> mb !! t ≫= (.!! i) = col !! t.
Proof.
  intros Hc. apply column_Forall2 in Hc.
  destruct (mb !! t) as [row|] eqn:Hrow; simpl.
  - destruct (Forall2_lookup_l _ _ _ _ _ Hc Hrow) as (x & -> & Hx). exact Hx.
  - symmetry. apply lookup_ge_None. rewrite <- (Forall2_length _ _ _ Hc).
    apply lookup_ge_None. exact Hrow.
Qed.

Section BootstrapColumns.
Context (self : A2CAgent).

(** X6: what [_boostrap] returns, replica by replica, for buffers of [T >= 1]
    steps of [n] replicas.  Against the backward recursion
    [R = r_t + discount * R * (1 - d_t)] from [R = V * (1 - d_{T-1})] on the
    replica's own rewards, done flags and terminal value, the first target is
    the recursion's, and the target of every later step [t] is the
    recursion's multiplied by [1 - d_{t-1}]: the in-place multiplication of
    the pass for step [t - 1] reaches the target stored for step [t]. *)
Theorem boostrap_target_is_scaled_recursion (T n i : nat)
    (reward_mb done_mb : list (list Qc)) (last_obs : observation)
    (v rs ds : list Qc) (vi : Qc) :
  1 <= T -> shaped T n reward_mb -> shaped T n done_mb ->
  value_of self last_obs v -> length v = n ->
  column i reward_mb = Some rs -> column i done_mb = Some ds -> v !! i = Some vi ->
  exists target,
    boostrap_targets self reward_mb done_mb last_obs = Ok target /\
    column i target
    = Some (zip_with Qcmult (spec_targets (_discount self) rs ds vi)
                            (1%Qc :: map (fun d => (1 - d)%Qc) ds)).
Proof.
  intros HT Hrw Hdn Hval Hv Hrs Hds Hvi.
  exists (targets_by_value (_discount self) reward_mb done_mb v).
  split; [apply (boostrap_targets_value self T n); assumption|].
  apply (targets_by_value_column _ T n); assumption.
Qed.

(** X7: when no episode of replica [i] ends before the last step of the
    rollout, the targets [_boostrap] returns for [i] are exactly those of the
    backward recursion, whatever the done flag of the last step is. *)
Theorem boostrap_is_recursion_without_early_done (T n i : nat)
    (reward_mb done_mb : list (list Qc)) (last_obs : observation)
    (v rs ds : list Qc) (vi : Qc) :
  1 <= T -> shaped T n reward_mb -> shaped T n done_mb ->
  value_of self last_obs v -> length v = n ->
  column i reward_mb = Some rs -> column i done_mb = Some ds -> v !! i = Some vi ->
  (forall t d, S t < T -> ds !! t = Some d -> d = 0%Qc) ->
  exists target,
    boostrap_targets self reward_mb done_mb last_obs = Ok target /\
    column i target = Some (spec_targets (_discount self) rs ds vi).
Proof.
  intros HT Hrw Hdn Hval Hv Hrs Hds Hvi Hzero.
  exists (targets_by_value (_discount self) reward_mb done_mb v).
  split; [apply (boostrap_targets_value self T n); assumption|].
  rewrite (targets_by_value_column _ T n i _ _ v rs ds vi) by assumption. f_equal.
  assert (Hlrs : length rs = T).
  { apply column_Forall2, Forall2_length in Hrs. destruct Hrw as [Hr _]. lia. }
  assert (Hlds : length ds = T).
  { apply column_Forall2, Forall2_length in Hds. destruct Hdn as [Hd _]. lia. }
  pose proof (spec_targets_length (_discount self) vi rs ds ltac:(lia)) as Hls.
  apply list_eq. intros t. rewrite lookup_zip_with.
  destruct (spec_targets (_discount self) rs ds vi !! t) as [x|] eqn:Hx; [|reflexivity].
  simpl. apply lookup_lt_Some in Hx. rewrite Hls, Hlrs in Hx.
  destruct t as [|t]; simpl; [rewrite Qcmult_1_r; reflexivity|].
  change (map ?f ?l) with (f <$> l). rewrite list_lookup_fmap.
  destruct (ds !! t) as [d|] eqn:Hd; simpl.
  - rewrite (Hzero t d Hx Hd). f_equal. ring.
  - apply lookup_ge_None in Hd. lia.
Qed.

End BootstrapColumns.

(** Two replicas and two steps; the episode of replica 0 ends at the first
    step. *)
Lemma boostrap_target_is_scaled_recursion_witness :
  exists target,
    boostrap_targets (constant_agent [] [Q2Qc 5; Q2Qc 5] (Q2Qc (9 # 10)) 2 false)
      [[0%Qc; 0%Qc]; [1%Qc; 1%Qc]] [[1%Qc; 0%Qc]; [0%Qc; 0%Qc]] (ObArray (Arr []))
    = Ok target /\
    column 0 target
    = Some (zip_with Qcmult (spec_targets (Q2Qc (9 # 10)) [0%Qc; 1%Qc] [1%Qc; 0%Qc] (Q2Qc 5))
                            (1%Qc :: map (fun d => (1 - d)%Qc) [1%Qc; 0%Qc])).
Proof.
  apply (boostrap_target_is_scaled_recursion
           (constant_agent [] [Q2Qc 5; Q2Qc 5] (Q2Qc (9 # 10)) 2 false) 2 2 0
           _ _ _ [Q2Qc 5; Q2Qc 5]).
  - lia.
  - split; [reflexivity|repeat constructor].
  - split; [reflexivity|repeat constructor].
  - exists (TOne (from_numpy (Arr []))), [], []. repeat split.
  - reflexivity.
  - reflexivity.
  - reflexivity.
  - reflexivity.
Defined.

(** The scenario of three steps with its only done flag at the last step. *)
Lemma boostrap_is_recursion_without_early_done_witness :
  exists target,
    boostrap_targets (constant_agent [] [Q2Qc 5; Q2Qc 5] (Q2Qc (9 # 10)) 3 false)
      [[1%Qc; 0%Qc]; [0%Qc; 1%Qc]; [1%Qc; 1%Qc]]
      [[0%Qc; 0%Qc]; [0%Qc; 0%Qc]; [1%Qc; 0%Qc]] (ObArray (Arr []))
    = Ok target /\
    column 0 target
    = Some (spec_targets (Q2Qc (9 # 10)) [1%Qc; 0%Qc; 1%Qc] [0%Qc; 0%Qc; 1%Qc] (Q2Qc 5)).
Proof.
  apply (boostrap_is_recursion_without_early_done
           (constant_agent [] [Q2Qc 5; Q2Qc 5] (Q2Qc (9 # 10)) 3 false) 3 2 0
           _ _ _ [Q2Qc 5; Q2Qc 5]).
  - lia.
  - split; [reflexivity|repeat constructor].
  - split; [reflexivity|repeat constructor].
  - exists (TOne (from_numpy (Arr []))), [], []. repeat split.
  - reflexivity.
  - reflexivity.
  - reflexivity.
  - reflexivity.
  - intros [|[|t]] d Ht Hd; simpl in Hd; try lia; injection Hd as <-; reflexivity.
Defined.

(** *** A rollout without steps, and the conversion of observations *)

Ltac h_next := etransitivity; [apply H_bind_eq | cbv beta].

Lemma boostrap_without_done (self : A2CAgent) (reward_mb : list (list Qc))
    (last_obs : observation) (v : list Qc) :
  value_of self last_obs v ->
  boostrap_targets self reward_mb [] last_obs = Raise IndexError.
Proof.
  intros (ts & vars & logits & Hts & Hvars & Hnet).
  assert (Hb : _boostrap self reward_mb [] last_obs [] = Raise IndexError).
  { unfold _boostrap.
    h_next; [apply lift_Ok; exact Hts|].
    h_next; [apply lift_Ok; exact Hvars|].
    h_next; [apply lift_Ok; exact Hnet|].
    apply H_bind_raise. reflexivity. }
  unfold boostrap_targets. rewrite Hb. reflexivity.
Qed.

Section RolloutEdges.
Context `{Env} `{Torch} `{!ActionRows}.

(** X9: an agent whose [rollout_num_steps] is zero or negative cannot
    collect a rollout: the loop makes no pass, and [_boostrap], once the
    network has valued the observation, fails on [done_mb[-1]] with
    [IndexError].  No environment is stepped.  [_boostrap] fails that way on
    every empty list of done flags. *)
Theorem rollout_without_steps_raises (self : A2CAgent) (g : rng) (envs : list proc)
    (obs : observation) (v : list Qc) :
  (_rollout_num_steps self <= 0)%Z -> value_of self obs v ->
  _rollout self g envs obs = Raise IndexError /\
  rollout_loop self (Z.to_nat (_rollout_num_steps self)) g envs obs (Buffers [] [] [] [])
  = Ok (Buffers [] [] [] [], obs, g, envs) /\
  forall reward_mb, boostrap_targets self reward_mb [] obs = Raise IndexError.
Proof.
  intros Hsteps Hval.
  assert (Hn : Z.to_nat (_rollout_num_steps self) = 0) by lia.
  split_and!.
  - unfold _rollout. rewrite Hn. cbn [rollout_loop mbind result_bind reward_mb done_mb].
    rewrite (boostrap_without_done self [] obs v Hval). reflexivity.
  - rewrite Hn. reflexivity.
  - intros reward_mb. exact (boostrap_without_done self reward_mb obs v Hval).
Qed.

(** X11: on a GPU, [step] on a tuple of arrays of one shape does not hand
    the network the fields: its generator expands [ob], the whole tuple, once
    for each field, so that the network gets as many copies of one tensor,
    the stacked tuple under a new first axis, as the tuple has fields. *)
Theorem step_hands_the_tuple_for_each_field (self : A2CAgent) (g : rng)
    (fields : list ndarray) (a : ndarray) :
  _use_gpu self = true -> np_stack fields = Ok a ->
  a = Arr fields /\
  step self g (ObTuple fields)
  = '(prob_logit, _) ← _actor_critic self
                         (replicate (length fields) (Tensor cuda (Arr [Arr fields])));
    Ok (_sample_action g prob_logit).
Proof.
  intros Hgpu Hstack. pose proof (np_stack_Ok fields a Hstack) as ->.
  split; [reflexivity|].
  assert (Hne : fields <> []) by (intros ->; discriminate Hstack).
  unfold step.
  assert (Has : np_asarray fields = Ok (Arr fields)).
  { unfold np_asarray. destruct fields; [congruence|exact Hstack]. }
  rewrite (mapM_const (a ← np_asarray fields; Ok (Arr [a])) fields Hne), Has.
  cbn [mbind result_bind _ndarray_to_tensor]. rewrite Hgpu.
  cbn [mbind result_bind iter_tensors].
  assert (Hrep : map (fun array => to_cuda (from_numpy array))
                     (map (fun _ : ndarray => Arr [Arr fields]) fields)
                 = replicate (length fields) (Tensor cuda (Arr [Arr fields]))).
  { clear. generalize (Arr [Arr fields]). intros b.
    induction fields as [|x l IH]; [reflexivity|]. simpl. rewrite IH. reflexivity. }
  rewrite Hrep.
  destruct (_actor_critic self _) as [[logit value]|e]; [|reflexivity].
  cbn [mbind result_bind]. destruct (_sample_action g logit). reflexivity.
Qed.

End RolloutEdges.

Lemma rollout_without_steps_raises_witness :
  @_rollout counter_env toy_torch counter_rows
    (constant_agent [[1%Qc]] [Q2Qc 5] (Q2Qc (9 # 10)) 0 false) 0
    [Proc (@Running counter_env 0) [] []] (ObArray (Arr [Arr [Scalar 0%Qc]]))
  = Raise IndexError.
Proof.
  refine (proj1 (@rollout_without_steps_raises counter_env toy_torch counter_rows
                   (constant_agent [[1%Qc]] [Q2Qc 5] (Q2Qc (9 # 10)) 0 false) 0
                   [Proc (@Running counter_env 0) [] []]
                   (ObArray (Arr [Arr [Scalar 0%Qc]])) [Q2Qc 5] _ _)).
  - simpl. lia.
  - eexists _, _, _. split_and!; reflexivity.
Defined.

(** A screen and a minimap of one shape. *)
Lemma step_hands_the_tuple_for_each_field_witness :
  @step toy_torch
    (constant_agent [[1%Qc; 0%Qc]] [Q2Qc 5] (Q2Qc (9 # 10)) 5 true) 0
    (ObTuple [Arr [Scalar 1%Qc]; Arr [Scalar 0%Qc]])
  = '(prob_logit, _) ← _actor_critic
                         (constant_agent [[1%Qc; 0%Qc]] [Q2Qc 5] (Q2Qc (9 # 10)) 5 true)
                         (replicate 2 (Tensor cuda
                                         (Arr [Arr [Arr [Scalar 1%Qc]; Arr [Scalar 0%Qc]]])));
    Ok (@_sample_action toy_torch 0 prob_logit).
Proof.
  refine (proj2 (@step_hands_the_tuple_for_each_field toy_torch
                   (constant_agent [[1%Qc; 0%Qc]] [Q2Qc 5] (Q2Qc (9 # 10)) 5 true) 0
                   [Arr [Scalar 1%Qc]; Arr [Scalar 0%Qc]]
                   (Arr [Arr [Scalar 1%Qc]; Arr [Scalar 0%Qc]]) eq_refl eq_refl)).
Defined.

(** *** The rows of the batch [_update] trains on *)

Lemma lookup_concat_uniform {A} (n : nat) (ls : list (list A)) (t i : nat) (l : list A) :
  Forall (fun l => length l = n) ls -> ls !! t = Some l -> i < n ->
  concat ls !! (t * n + i) = l !! i.
Proof.
  intros Hls. revert t. induction Hls as [|l0 ls Hl0 _ IH]; intros t Ht Hi; [discriminate|].
  destruct t as [|t]; simpl in *.
  - injection Ht as ->. apply lookup_app_l. lia.
  - rewrite lookup_app_r by lia. rewrite <- (IH t Ht Hi). f_equal. lia.
Qed.

Lemma length_concat_uniform {A} (n : nat) (ls : list (list A)) :
  Forall (fun l => length l = n) ls -> length (concat ls) = length ls * n.
Proof.
  induction 1 as [|l ls Hl _ IH]; [reflexivity|]. simpl. rewrite length_app, IH, Hl. lia.
Qed.

Lemma torch_cat_Ok (ts : list tensor) (t : tensor) :
  torch_cat ts = Ok t ->
  exists rowss, Forall2 (fun f rows => t_value f = Arr rows) ts rowss /\
                t_value t = Arr (concat rowss).
Proof.
  unfold torch_cat. destruct ts as [|t0 ts]; [discriminate|]. intros Hc.
  apply bind_ok in Hc. destruct Hc as (rowss & Hrows & Hc).
  exists rowss. split.
  - apply mapM_Ok in Hrows. eapply Forall2_impl; [exact Hrows|].
    intros f rows Hf. unfold rows_of in Hf. destruct (t_value f); [discriminate|congruence].
  - destruct (concat rowss) as [|r rest]; [injection Hc as <-; reflexivity|].
    destruct (forallb _ _); [injection Hc as <-; reflexivity|discriminate].
Qed.

Section UpdateBatch.
Context `{Torch}.

Lemma update_from_inputs (self : A2CAgent) (obs_mb : list tensors)
    (action_mb : list (list nat)) (target_value_mb : list (list Qc)) :
  _update self obs_mb action_mb target_value_mb
  = inputs ← update_inputs obs_mb;
    '(prob_logit, value) ← _actor_critic self inputs;
    update_losses self prob_logit value action_mb target_value_mb.
Proof.
  unfold _update, update_inputs.
  destruct (getitem obs_mb 0) as [obs0|e]; [|reflexivity]. cbn [mbind result_bind].
  destruct (tensors_len obs0) as [n|e]; reflexivity.
Qed.

(** X12: the batch [_update] trains on is step-major.  For a rollout of
    observations of [k] fields with [N] rows each, the network gets [k]
    inputs, and row [t * N + i] of input [c] is row [i] of field [c] of the
    observation of step [t]; row [t * N + i] of the concatenated actions and
    of the concatenated targets are the action and the target of step [t]
    for replica [i].  So the rows the loss pairs up belong to one step of
    one replica. *)
Theorem update_batch_is_step_major (self : A2CAgent) (k N : nat)
    (obs_mb : list tensors) (action_mb : list (list nat))
    (target_value_mb : list (list Qc)) (inputs : list tensor) :
  Forall (fields_of k N) obs_mb ->
  Forall (fun row => length row = N) action_mb ->
  Forall (fun row => length row = N) target_value_mb ->
  update_inputs obs_mb = Ok inputs ->
  _update self obs_mb action_mb target_value_mb
  = ('(prob_logit, value) ← _actor_critic self inputs;
     update_losses self prob_logit value action_mb target_value_mb) /\
  length inputs = k /\
  (forall c t i fs f row,
     obs_mb !! t = Some (TList fs) -> fs !! c = Some f ->
     nd_getitem (t_value f) i = Ok row ->
     exists inp, inputs !! c = Some inp /\ nd_getitem (t_value inp) (t * N + i) = Ok row) /\
  (forall t i, i < N ->
     concat action_mb !! (t * N + i) = action_mb !! t ≫= (.!! i) /\
     concat target_value_mb !! (t * N + i) = target_value_mb !! t ≫= (.!! i)).
Proof.
  intros Hobs Hact Htg Hin. split_and!.
  - rewrite update_from_inputs, Hin. reflexivity.
  - unfold update_inputs in Hin.
    apply bind_ok in Hin. destruct Hin as (obs0 & Hobs0 & Hin).
    apply bind_ok in Hin. destruct Hin as (n & Hn & Hin).
    apply mapM_Ok, Forall2_length in Hin. rewrite length_seq in Hin.
    apply getitem_Ok in Hobs0.
    destruct (Forall_lookup_1 _ _ _ _ Hobs Hobs0) as (fs0 & -> & Hk & _).
    injection Hn as <-. lia.
  - intros c t i fs f row Ht Hc Hrow.
    unfold update_inputs in Hin.
    apply bind_ok in Hin. destruct Hin as (obs0 & Hobs0 & Hin).
    apply bind_ok in Hin. destruct Hin as (n & Hn & Hin).
    apply getitem_Ok in Hobs0.
    destruct (Forall_lookup_1 _ _ _ _ Hobs Hobs0) as (fs0 & -> & Hk0 & _).
    injection Hn as <-.
    destruct (Forall_lookup_1 _ _ _ _ Hobs Ht) as (fs' & [= <-] & Hk & Hrows).
    assert (Hck : c < length fs0) by (rewrite Hk0, <- Hk; eapply lookup_lt_Some; eauto).
    apply mapM_Ok in Hin.
    destruct (Forall2_lookup_l _ _ _ c c Hin) as (inp & Hinp & Hcat).
    { apply lookup_seq. lia. }
    exists inp. split; [exact Hinp|].
    apply bind_ok in Hcat. destruct Hcat as (col & Hcol & Hcat).
    apply mapM_Ok in Hcol.
    destruct (Forall2_lookup_l _ _ _ _ _ Hcol Ht) as (f' & Hf' & Hget).
    cbn [tensors_getitem] in Hget. apply getitem_Ok in Hget.
    assert (f' = f) as -> by congruence.
    destruct (torch_cat_Ok col inp Hcat) as (rowss & Hrowss & Hval).
    destruct (Forall2_lookup_l _ _ _ _ _ Hrowss Hf') as (rows & Hrows_t & Hfv).
    rewrite Hval. rewrite Hfv in Hrow. cbn [nd_getitem] in *.
    apply getitem_Ok in Hrow. apply getitem_lookup.
    rewrite (lookup_concat_uniform N rowss t i rows); auto.
    + (* every field [c] of every step has [N] rows *)
      apply Forall_forall. intros rs Hrs. apply list_elem_of_lookup in Hrs.
      destruct Hrs as [t' Hrs].
      destruct (Forall2_lookup_r _ _ _ _ _ Hrowss Hrs) as (g & Hg & Hgv).
      destruct (Forall2_lookup_r _ _ _ _ _ Hcol Hg) as (obs' & Hobs' & Hget').
      destruct (Forall_lookup_1 _ _ _ _ Hobs Hobs') as (fs' & -> & _ & Hrows').
      cbn [tensors_getitem] in Hget'. apply getitem_Ok in Hget'.
      destruct (Forall_lookup_1 _ _ _ _ Hrows' Hget') as (rs' & Hrs' & Hlen).
      congruence.
    + destruct (Forall_lookup_1 _ _ _ _ Hrows Hc) as (rs' & Hrs' & Hlen).
      assert (rs' = rows) as -> by congruence.
      rewrite <- Hlen. eapply lookup_lt_Some; eauto.
  - intros t i Hi. split.
    + destruct (action_mb !! t) as [row|] eqn:Hrow; simpl.
      * apply lookup_concat_uniform; assumption.
      * apply lookup_ge_None. apply lookup_ge_None in Hrow.
        rewrite (length_concat_uniform N) by exact Hact. nia.
    + destruct (target_value_mb !! t) as [row|] eqn:Hrow; simpl.
      * apply lookup_concat_uniform; assumption.
      * apply lookup_ge_None. apply lookup_ge_None in Hrow.
        rewrite (length_concat_uniform N) by exact Htg. nia.
Qed.

End UpdateBatch.

(** Two steps of two replicas with a screen and a minimap of one number. *)
Lemma update_batch_is_step_major_witness :
  exists inp,
    [Tensor cuda (Arr [Scalar (Q2Qc 1); Scalar (Q2Qc 2); Scalar (Q2Qc 5); Scalar (Q2Qc 6)]);
     Tensor cuda (Arr [Scalar (Q2Qc 3); Scalar (Q2Qc 4); Scalar (Q2Qc 7); Scalar (Q2Qc 8)])]
    !! 1 = Some inp /\
    nd_getitem (t_value inp) (1 * 2 + 0) = Ok (Scalar (Q2Qc 7)).
Proof.
  refine (proj1 (proj2 (proj2
    (@update_batch_is_step_major toy_torch
       (constant_agent [] [] (Q2Qc (9 # 10)) 2 true) 2 2
       [TList [Tensor cuda (Arr [Scalar (Q2Qc 1); Scalar (Q2Qc 2)]);
               Tensor cuda (Arr [Scalar (Q2Qc 3); Scalar (Q2Qc 4)])];
        TList [Tensor cuda (Arr [Scalar (Q2Qc 5); Scalar (Q2Qc 6)]);
               Tensor cuda (Arr [Scalar (Q2Qc 7); Scalar (Q2Qc 8)])]]
       [[0; 1]; [1; 0]] [[Q2Qc 1; Q2Qc 2]; [Q2Qc 3; Q2Qc 4]]
       _ _ _ _ _))) 1 1 0
    [Tensor cuda (Arr [Scalar (Q2Qc 5); Scalar (Q2Qc 6)]);
     Tensor cuda (Arr [Scalar (Q2Qc 7); Scalar (Q2Qc 8)])]
    (Tensor cuda (Arr [Scalar (Q2Qc 7); Scalar (Q2Qc 8)])) (Scalar (Q2Qc 7))
    eq_refl eq_refl eq_refl).
  - constructor; [|constructor; [|constructor]];
      (eexists; split; [reflexivity|]; split; [reflexivity|];
       constructor; [eexists; split; reflexivity|];
       constructor; [eexists; split; reflexivity|]; constructor).
  - repeat constructor.
  - repeat constructor.
  - reflexivity.
Defined.

(** ** More of [wrappers/zerg_observation_wrappers.py] *)

Section Flip.
Context `{Numpy} `{UNIT_TYPEID}.

Lemma np_flip_1_2_involutive (a : list (list (list Qc))) : np_flip_1_2 (np_flip_1_2 a) = a.
Proof.
  unfold np_flip_1_2. rewrite !map_map. rewrite <- (map_id a) at 2.
  apply map_ext. intros ch. change (map ?f ?l) with (f <$> l).
  rewrite fmap_reverse, <- list_fmap_compose, fmap_reverse, reverse_involutive.
  unfold id. rewrite <- (list_fmap_id ch) at 2. apply list_fmap_ext. intros _ row _. simpl.
  apply reverse_involutive.
Qed.

Lemma np_flip_1_2_cell (c h w : nat) (a : list (list (list Qc))) (k y x : nat) :
  has_shape3 c h w a -> y < h -> x < w ->
  cell3 (np_flip_1_2 a) k y x = cell3 a k (h - 1 - y) (w - 1 - x).
Proof.
  intros [_ Ha] Hy Hx. unfold cell3, np_flip_1_2. rewrite map_map.
  change (map ?f ?l) with (f <$> l). rewrite list_lookup_fmap.
  destruct (a !! k) as [ch|] eqn:Hch; [|reflexivity]. simpl.
  destruct (Forall_lookup_1 _ _ _ _ Ha Hch) as [Hh Hrows].
  rewrite list_lookup_fmap, reverse_lookup by lia. rewrite Hh.
  replace (h - S y) with (h - 1 - y) by lia.
  destruct (ch !! (h - 1 - y)) as [row|] eqn:Hrow; [|reflexivity]. simpl.
  pose proof (Forall_lookup_1 _ _ _ _ Hrows Hrow) as Hw. cbv beta in Hw.
  rewrite reverse_lookup by lia. rewrite Hw. f_equal. lia.
Qed.

(** X13: [_diagonal_flip] is its own inverse.  It leaves the features of
    every player but player 0 as they are; for player 0 it turns every
    channel by half a turn: the cell in row [y] and column [x] of the result
    is the cell in row [h - 1 - y] and column [w - 1 - x] of the features,
    and the channels keep their order. *)
Theorem diagonal_flip_is_a_half_turn (self : ZergObservationWrapper.t)
    (feature : list (list (list Qc))) :
  ZergObservationWrapper._diagonal_flip self
    (ZergObservationWrapper._diagonal_flip self feature) = feature /\
  (ZergObservationWrapper.env_player_position self <> 0%Z ->
   ZergObservationWrapper._diagonal_flip self feature = feature) /\
  (ZergObservationWrapper.env_player_position self = 0%Z ->
   forall c h w k y x, has_shape3 c h w feature -> y < h -> x < w ->
     cell3 (ZergObservationWrapper._diagonal_flip self feature) k y x
     = cell3 feature k (h - 1 - y) (w - 1 - x)).
Proof.
  unfold ZergObservationWrapper._diagonal_flip. split_and!.
  - destruct (decide _); [apply np_flip_1_2_involutive|reflexivity].
  - intros Hp. rewrite decide_False by exact Hp. reflexivity.
  - intros Hp c h w k y x Hs Hy Hx. rewrite decide_True by exact Hp.
    apply (np_flip_1_2_cell c); assumption.
Qed.

End Flip.

Section Masks.
Context `{Numpy} `{UNIT_TYPEID}.

Lemma init_Ok (resolution : nat) (env_masked self_masked : bool) (position : Z)
    (flip : bool) :
  ZergObservationWrapper.__init__ resolution env_masked self_masked position flip
  = Ok (ZergObservationWrapper.Build
          (UnitType3DFeature.Build ZergObservationWrapper.type_map resolution
             default_world_size)
          (PlayerRelative3DFeature.Build resolution default_world_size)
          (UnitCount1DFeature.Build ZergObservationWrapper.type_list)
          flip env_masked self_masked position
          ([22 + 3; resolution; resolution],
           [UnitStat1DFeature.num_dims
            + UnitCount1DFeature.num_dims
                (UnitCount1DFeature.Build ZergObservationWrapper.type_list)
            + Player1DFeature.num_dims])).
Proof.
  unfold ZergObservationWrapper.__init__, UnitType3DFeature.num_channels.
  cbn [UnitType3DFeature._type_map]. rewrite type_map_max. reflexivity.
Qed.

(** X14: a wrapper on an environment with maskable actions hands the action
    mask through untouched, and the mask has no part in the features: on
    the pair of a raw observation and a mask it returns, or raises, what the
    wrapper on an environment without masks returns for the raw observation
    alone, with the mask as third component. *)
Theorem observation_hands_mask_through (resolution : nat) (position : Z) (flip : bool)
    (masking plain : ZergObservationWrapper.t) (ob : raw_observation)
    (action_mask : list bool) :
  ZergObservationWrapper.__init__ resolution true true position flip = Ok masking ->
  ZergObservationWrapper.__init__ resolution false false position flip = Ok plain ->
  ZergObservationWrapper._observation masking (ZergObservationWrapper.WithMask ob action_mask)
  = match ZergObservationWrapper._observation plain (ZergObservationWrapper.Plain ob) with
    | Ok (spatial, nonspatial, _) => Ok (spatial, nonspatial, Some action_mask)
    | Raise e => Raise e
    end.
Proof.
  rewrite !init_Ok. intros [= <-] [= <-].
  unfold ZergObservationWrapper._observation.
  cbn [ZergObservationWrapper.env_maskable ZergObservationWrapper.self_maskable
       ZergObservationWrapper._player_relative_feature
       ZergObservationWrapper._unit_type_feature
       ZergObservationWrapper._unit_count_feature
       ZergObservationWrapper._flip mbind result_bind].
  destruct (PlayerRelative3DFeature.features _ ob) as [pr|e]; [|reflexivity].
  cbn [mbind result_bind].
  destruct (UnitType3DFeature.features _ ob) as [ut|e]; [|reflexivity].
  cbn [mbind result_bind].
  destruct (Player1DFeature.features ob) as [pf|e]; [|reflexivity].
  cbn [mbind result_bind].
  destruct (np_concatenate3 pr ut) as [sp|e]; reflexivity.
Qed.

(** X15: a wrapper whose resolution is zero fails on every observation, with
    or without units, with [ZeroDivisionError]: the width of a grid cell is
    computed before any unit is looked at. *)
Theorem observation_needs_a_resolution (position : Z) (flip : bool)
    (self : ZergObservationWrapper.t) (ob : raw_observation) :
  ZergObservationWrapper.__init__ 0 false false position flip = Ok self ->
  ZergObservationWrapper.observation_space self = ([25; 0; 0], [112]) /\
  PlayerRelative3DFeature.features
    (ZergObservationWrapper._player_relative_feature self) ob = Raise ZeroDivisionError /\
  UnitType3DFeature.features
    (ZergObservationWrapper._unit_type_feature self) ob = Raise ZeroDivisionError /\
  ZergObservationWrapper._observation self (ZergObservationWrapper.Plain ob)
  = Raise ZeroDivisionError.
Proof.
  rewrite init_Ok. intros [= <-].
  assert (Hpr : forall us,
            PlayerRelative3DFeature._generate_features
              (PlayerRelative3DFeature.Build 0 default_world_size) us
            = Raise ZeroDivisionError) by reflexivity.
  assert (Hut : forall us,
            UnitType3DFeature._generate_features
              (UnitType3DFeature.Build ZergObservationWrapper.type_map 0 default_world_size) us
            = Raise ZeroDivisionError).
  { intros us. unfold UnitType3DFeature._generate_features.
    cbn [UnitType3DFeature._type_map]. rewrite type_map_max. reflexivity. }
  split_and!.
  - reflexivity.
  - cbn [ZergObservationWrapper._player_relative_feature].
    unfold PlayerRelative3DFeature.features. rewrite !Hpr. reflexivity.
  - cbn [ZergObservationWrapper._unit_type_feature].
    unfold UnitType3DFeature.features. rewrite !Hut. reflexivity.
  - unfold ZergObservationWrapper._observation.
    cbn [ZergObservationWrapper.env_maskable ZergObservationWrapper._player_relative_feature
         mbind result_bind].
    unfold PlayerRelative3DFeature.features. rewrite !Hpr. reflexivity.
Qed.

End Masks.

Lemma observation_hands_mask_through_witness :
  @ZergObservationWrapper._observation shape_numpy
    (ZergObservationWrapper.Build
       (UnitType3DFeature.Build (@ZergObservationWrapper.type_map sc2_unit_typeid) 4
          default_world_size)
       (PlayerRelative3DFeature.Build 4 default_world_size)
       (UnitCount1DFeature.Build (@ZergObservationWrapper.type_list sc2_unit_typeid))
       true true true 0 ([25; 4; 4], [112]))
    (ZergObservationWrapper.WithMask sample_observation [true; false])
  = match @ZergObservationWrapper._observation shape_numpy
            (ZergObservationWrapper.Build
               (UnitType3DFeature.Build (@ZergObservationWrapper.type_map sc2_unit_typeid) 4
                  default_world_size)
               (PlayerRelative3DFeature.Build 4 default_world_size)
               (UnitCount1DFeature.Build (@ZergObservationWrapper.type_list sc2_unit_typeid))
               true false false 0 ([25; 4; 4], [112]))
            (ZergObservationWrapper.Plain sample_observation) with
    | Ok (spatial, nonspatial, _) => Ok (spatial, nonspatial, Some [true; false])
    | Raise e => Raise e
    end.
Proof.
  apply (@observation_hands_mask_through shape_numpy sc2_unit_typeid 4 0 true).
  - apply (@init_Ok sc2_unit_typeid).
  - apply (@init_Ok sc2_unit_typeid).
Defined.

Lemma observation_needs_a_resolution_witness :
  @ZergObservationWrapper._observation shape_numpy
    (ZergObservationWrapper.Build
       (UnitType3DFeature.Build (@ZergObservationWrapper.type_map sc2_unit_typeid) 0
          default_world_size)
       (PlayerRelative3DFeature.Build 0 default_world_size)
       (UnitCount1DFeature.Build (@ZergObservationWrapper.type_list sc2_unit_typeid))
       true false false 0 ([25; 0; 0], [112]))
    (ZergObservationWrapper.Plain sample_observation)
  = Raise ZeroDivisionError.
Proof.
  refine (proj2 (proj2 (proj2
    (@observation_needs_a_resolution shape_numpy sc2_unit_typeid 0 true _ sample_observation
       _)))).
  apply (@init_Ok sc2_unit_typeid).
Defined.

Section PlayerVector.
Context `{Numpy} `{UNIT_TYPEID}.

Lemma length_slice_1_m2 {A} (l : list A) : length (slice_1_m2 l) = length l - 3.
Proof. unfold slice_1_m2. rewrite length_drop, length_take. lia. Qed.

(** X16: [Player1DFeature.features] by the length of the player vector.
    The 11 entries of pysc2 give the 16 features the wrapper declares.  A
    vector of 4 entries is accepted as well: its one inner entry is
    broadcast against the 8 scales, and the features are 8 + 1 = 9, so
    that [_observation] returns a vector of 105 entries where its
    observation space declares 112.  Every other length raises
    [ValueError]. *)
Theorem player_features_by_length (ob : raw_observation) :
  (length (player ob) = 11 ->
   exists pf, Player1DFeature.features ob = Ok pf /\ length pf = 16) /\
  (length (player ob) = 4 ->
   (exists pf, Player1DFeature.features ob = Ok pf /\ length pf = 9) /\
   forall resolution position flip self spatial nonspatial mask,
     NoDup ZergObservationWrapper.type_list ->
     ZergObservationWrapper.__init__ resolution false false position flip = Ok self ->
     ZergObservationWrapper._observation self (ZergObservationWrapper.Plain ob)
     = Ok (spatial, nonspatial, mask) ->
     length nonspatial = 105 /\
     ZergObservationWrapper.observation_space self = ([25; resolution; resolution], [112])) /\
  (length (player ob) <> 11 -> length (player ob) <> 4 ->
   Player1DFeature.features ob = Raise ValueError).
Proof.
  pose proof (length_slice_1_m2 (player ob)) as Hs.
  assert (H4 : length (player ob) = 4 ->
               exists pf, Player1DFeature.features ob = Ok pf /\ length pf = 9).
  { intros Hp. unfold Player1DFeature.features, np_divide.
    rewrite Hp in Hs. rewrite decide_False by (rewrite Hs; simpl; lia).
    destruct (slice_1_m2 (player ob)) as [|x [|y l]]; try discriminate Hs.
    cbn [mbind result_bind]. eexists. split; reflexivity. }
  split_and!.
  - intros Hp. destruct (player_features_total ob Hp) as [pf Hpf].
    exists pf. split; [exact Hpf|]. exact (player_features_length ob pf Hp Hpf).
  - intros Hp. split; [exact (H4 Hp)|].
    intros resolution position flip self spatial nonspatial mask Hnd Hinit Hobs.
    destruct (H4 Hp) as (pf & Hpf & Hlen).
    rewrite init_Ok in Hinit. injection Hinit as <-.
    unfold ZergObservationWrapper._observation in Hobs.
    cbn [ZergObservationWrapper.env_maskable ZergObservationWrapper.self_maskable
         ZergObservationWrapper._player_relative_feature
         ZergObservationWrapper._unit_type_feature
         ZergObservationWrapper._unit_count_feature
         ZergObservationWrapper._flip mbind result_bind] in Hobs.
    apply bind_ok in Hobs. destruct Hobs as (pr & _ & Hobs).
    apply bind_ok in Hobs. destruct Hobs as (ut & _ & Hobs).
    rewrite Hpf in Hobs. cbn [mbind result_bind] in Hobs.
    apply bind_ok in Hobs. destruct Hobs as (sp & _ & Hobs).
    remember (UnitStat1DFeature.features ob) as stat eqn:Hstat.
    remember (UnitCount1DFeature.features
                (UnitCount1DFeature.Build ZergObservationWrapper.type_list) ob)
      as count eqn:Hcount.
    injection Hobs as _ <- _. split; [|reflexivity].
    rewrite !length_app, Hlen, Hstat, Hcount, unit_stat_features_length.
    rewrite (unit_count_features_length
               (UnitCount1DFeature.Build ZergObservationWrapper.type_list) ob Hnd).
    reflexivity.
  - intros H11 Hn4. unfold Player1DFeature.features, np_divide.
    rewrite decide_False by (rewrite Hs; simpl; lia).
    destruct (slice_1_m2 (player ob)) as [|x [|y l]]; [reflexivity| |reflexivity].
    simpl in Hs. lia.
Qed.

End PlayerVector.

Section Allies.
Context `{Numpy} `{UNIT_TYPEID}.

Lemma filter_counted (a : AllianceType) (us : list unit_) :
  a <> ALLY ->
  filter (fun u => alliance u = alliance_value a) (filter counted us)
  = filter (fun u => alliance u = alliance_value a) us.
Proof.
  intros Ha. rewrite list_filter_filter. apply list_filter_iff. intros u.
  unfold counted. destruct a; try congruence; tauto.
Qed.

(** X17: the features never look at allied units, nor at a unit whose
    alliance is none of the four: an observation and the one without them
    give the same features, spatial and not, and [_observation] returns the
    same for both. *)
Theorem observation_ignores_allies (self : ZergObservationWrapper.t) (ob : raw_observation) :
  PlayerRelative3DFeature.features
    (ZergObservationWrapper._player_relative_feature self) (only_counted ob)
  = PlayerRelative3DFeature.features
      (ZergObservationWrapper._player_relative_feature self) ob /\
  UnitType3DFeature.features (ZergObservationWrapper._unit_type_feature self) (only_counted ob)
  = UnitType3DFeature.features (ZergObservationWrapper._unit_type_feature self) ob /\
  UnitCount1DFeature.features (ZergObservationWrapper._unit_count_feature self)
    (only_counted ob)
  = UnitCount1DFeature.features (ZergObservationWrapper._unit_count_feature self) ob /\
  UnitStat1DFeature.features (only_counted ob) = UnitStat1DFeature.features ob /\
  Player1DFeature.features (only_counted ob) = Player1DFeature.features ob /\
  ZergObservationWrapper._observation self (ZergObservationWrapper.Plain (only_counted ob))
  = ZergObservationWrapper._observation self (ZergObservationWrapper.Plain ob) /\
  forall action_mask,
    ZergObservationWrapper._observation self
      (ZergObservationWrapper.WithMask (only_counted ob) action_mask)
    = ZergObservationWrapper._observation self
        (ZergObservationWrapper.WithMask ob action_mask).
Proof.
  assert (Hpr : forall f, PlayerRelative3DFeature.features f (only_counted ob)
                          = PlayerRelative3DFeature.features f ob).
  { intros f. unfold PlayerRelative3DFeature.features, only_counted. cbn [units].
    rewrite !filter_counted by discriminate. reflexivity. }
  assert (Hut : forall f, UnitType3DFeature.features f (only_counted ob)
                          = UnitType3DFeature.features f ob).
  { intros f. unfold UnitType3DFeature.features, only_counted. cbn [units].
    rewrite !filter_counted by discriminate. reflexivity. }
  assert (Huc : forall f, UnitCount1DFeature.features f (only_counted ob)
                          = UnitCount1DFeature.features f ob).
  { intros f. unfold UnitCount1DFeature.features, only_counted. cbn [units].
    rewrite !filter_counted by discriminate. reflexivity. }
  assert (Hus : UnitStat1DFeature.features (only_counted ob) = UnitStat1DFeature.features ob).
  { unfold UnitStat1DFeature.features, only_counted. cbn [units].
    rewrite !filter_counted by discriminate. reflexivity. }
  assert (Hpf : Player1DFeature.features (only_counted ob) = Player1DFeature.features ob)
    by reflexivity.
  split_and!; auto.
  - unfold ZergObservationWrapper._observation.
    destruct (ZergObservationWrapper.env_maskable self); [reflexivity|].
    cbn [mbind result_bind]. rewrite Hpr, Hut, Huc, Hus, Hpf. reflexivity.
  - intros action_mask. unfold ZergObservationWrapper._observation.
    destruct (ZergObservationWrapper.env_maskable self); [|reflexivity].
    cbn [mbind result_bind]. rewrite Hpr, Hut, Huc, Hus, Hpf. reflexivity.
Qed.

End Allies.

(* [set_solver] clears hypotheses by name *)
#[local] Set Warnings "-clear-no-such-hyp".

Lemma dom_foldl_insert {V} (items : list (Z * V)) (m : gmap Z V) :
  dom (foldl (fun m kv => <[kv.1 := kv.2]> m) m items) = dom m ∪ list_to_set items.*1.
Proof.
  revert m. induction items as [|[k v] items IH]; intros m; simpl.
  - set_solver.
  - rewrite IH, dom_insert_L. set_solver.
Qed.

Lemma fst_zero_pairs (l : list Z) : (map (fun t => (t, 0)) l).*1 = l.
Proof. induction l as [|x l IH]; simpl; [reflexivity|]. f_equal. exact IH. Qed.

Lemma dom_count_loop (us : list unit_) (count : gmap Z nat) :
  dom (foldl (fun count u =>
                if decide (is_Some (count !! unit_type u))
                then alter S (unit_type u) count else count) count us) = dom count.
Proof.
  revert count. induction us as [|u us IH]; intros count; [reflexivity|].
  simpl. rewrite IH. destruct (decide _); [apply dom_alter_L|reflexivity].
Qed.

Lemma size_list_to_set_length (l : list Z) :
  size (list_to_set l : gset Z) <= length l /\
  (size (list_to_set l : gset Z) = length l <-> NoDup l).
Proof.
  induction l as [|x l [IHle IHiff]].
  - rewrite list_to_set_nil, size_empty. split; [reflexivity|].
    split; [constructor|reflexivity].
  - rewrite list_to_set_cons. cbn [length]. destruct (decide (x ∈ l)) as [Hin|Hnin].
    + assert (Heq : ({[x]} ∪ list_to_set l : gset Z) = list_to_set l) by set_solver.
      rewrite Heq. split; [lia|]. split; [lia|].
      intros Hnd. apply NoDup_cons in Hnd. tauto.
    + rewrite size_union by set_solver. rewrite size_singleton.
      split; [lia|]. rewrite NoDup_cons. split.
      * intros Hs. split; [exact Hnin|]. apply IHiff. lia.
      * intros [_ Hnd]. apply IHiff in Hnd. lia.
Qed.

Section UnitCounts.
Context `{Numpy}.

Lemma unit_count_generate_distinct (self : UnitCount1DFeature.t) (us : list unit_) :
  length (UnitCount1DFeature._generate_features self us)
  = size (list_to_set (UnitCount1DFeature._type_list self) : gset Z).
Proof.
  unfold UnitCount1DFeature._generate_features, dict_values.
  rewrite length_map, length_fmap, length_map_to_list.
  rewrite <- (size_dom (D := gset Z)), dom_count_loop.
  unfold dict_of. rewrite dom_foldl_insert, fst_zero_pairs, dom_empty_L.
  f_equal. set_solver.
Qed.

(** X18: the unit counts are kept in a dict keyed by unit type, so a type
    that the list names twice is counted once: the features have four
    entries for each distinct type of the list, never more than [num_dims],
    which counts the list as it is; they fill [num_dims] exactly when the
    list names no type twice. *)
Theorem unit_count_fills_num_dims_iff_distinct (self : UnitCount1DFeature.t)
    (ob : raw_observation) :
  length (UnitCount1DFeature.features self ob)
  = 4 * size (list_to_set (UnitCount1DFeature._type_list self) : gset Z) /\
  length (UnitCount1DFeature.features self ob) <= UnitCount1DFeature.num_dims self /\
  (length (UnitCount1DFeature.features self ob) = UnitCount1DFeature.num_dims self
   <-> NoDup (UnitCount1DFeature._type_list self)).
Proof.
  assert (Hlen : length (UnitCount1DFeature.features self ob)
                 = 4 * size (list_to_set (UnitCount1DFeature._type_list self) : gset Z)).
  { unfold UnitCount1DFeature.features.
    rewrite !length_app, !length_map, !length_app, !unit_count_generate_distinct. lia. }
  destruct (size_list_to_set_length (UnitCount1DFeature._type_list self)) as [Hle Hiff].
  rewrite Hlen. unfold UnitCount1DFeature.num_dims. split_and!; [reflexivity|lia|].
  rewrite <- Hiff. lia.
Qed.

End UnitCounts.

Lemma dict_of_zero_lookup (l : list Z) (m : gmap Z nat) (t : Z) :
  foldl (fun m kv => <[kv.1 := kv.2]> m) m (map (fun t => (t, 0)) l) !! t
  = if decide (t ∈ l) then Some 0 else m !! t.
Proof.
  revert m. induction l as [|x l IH]; intros m; cbn [map foldl fst snd].
  - rewrite decide_False by apply not_elem_of_nil. reflexivity.
  - rewrite IH. destruct (decide (t ∈ l)) as [Hin|Hnin].
    + rewrite decide_True by (right; exact Hin). reflexivity.
    + destruct (decide (t = x)) as [->|Hne].
      * rewrite decide_True by left. apply lookup_insert_eq.
      * rewrite decide_False by (intros Hc; apply elem_of_cons in Hc; tauto).
        apply lookup_insert_ne. congruence.
Qed.

Lemma count_loop_lookup (us : list unit_) (count : gmap Z nat) (t : Z) :
  foldl (fun count u =>
           if decide (is_Some (count !! unit_type u))
           then alter S (unit_type u) count else count) count us !! t
  = (fun n => n + length (filter (fun u => unit_type u = t) us)) <$> count !! t.
Proof.
  revert count. induction us as [|u us IH]; intros count.
  - simpl. destruct (count !! t); simpl; [f_equal; lia|reflexivity].
  - cbn [foldl]. rewrite IH. destruct (decide (unit_type u = t)) as [Hu|Hu].
    + rewrite filter_cons_True by exact Hu. cbn [length]. subst t.
      destruct (decide (is_Some (count !! unit_type u))) as [[n Hn]|Hnone].
      * rewrite lookup_alter, decide_True by reflexivity. rewrite Hn. simpl. f_equal. lia.
      * destruct (count !! unit_type u) as [n|]; [exfalso; apply Hnone; eauto|reflexivity].
    + rewrite filter_cons_False by exact Hu.
      destruct (decide (is_Some (count !! unit_type u))); [|reflexivity].
      rewrite lookup_alter, decide_False by exact Hu. reflexivity.
Qed.

Section UnitCountValues.
Context `{Numpy}.

(** X19: for a list of distinct unit types, [_generate_features] returns,
    in the order of the dict's values, the number of units of each type of
    the list; a unit of any other type is not counted. *)
Theorem unit_count_counts_each_type (self : UnitCount1DFeature.t) (us : list unit_) :
  NoDup (UnitCount1DFeature._type_list self) ->
  UnitCount1DFeature._generate_features self us
  ≡ₚ map (fun t => of_nat (length (filter (fun u => unit_type u = t) us)))
         (UnitCount1DFeature._type_list self).
Proof.
  intros Hnd. unfold UnitCount1DFeature._generate_features, dict_values, dict_of.
  set (l := UnitCount1DFeature._type_list self) in *.
  set (cnt := fun t => length (filter (fun u => unit_type u = t) us)).
  set (m := foldl _ (foldl _ ∅ _) us).
  assert (Hm : m = list_to_map (map (fun t => (t, cnt t)) l)).
  { apply map_eq. intros t. unfold m. rewrite count_loop_lookup, dict_of_zero_lookup.
    assert (Hfst : (map (fun t => (t, cnt t)) l).*1 = l).
    { clear. induction l as [|x l IH]; simpl; [reflexivity|]. f_equal. exact IH. }
    destruct (decide (t ∈ l)) as [Hin|Hnin]; simpl.
    - symmetry. apply elem_of_list_to_map_1; [rewrite Hfst; exact Hnd|].
      change (map ?f ?k) with (f <$> k). apply list_elem_of_fmap. exists t. auto.
    - rewrite lookup_empty. symmetry. apply not_elem_of_list_to_map_1.
      rewrite Hfst. exact Hnin. }
  rewrite Hm.
  assert (Hfst : (map (fun t => (t, cnt t)) l).*1 = l).
  { clear. induction l as [|x l IH]; simpl; [reflexivity|]. f_equal. exact IH. }
  rewrite map_to_list_to_map by (rewrite Hfst; exact Hnd).
  change (map ?f ?k) with (f <$> k). rewrite <- !list_fmap_compose. reflexivity.
Qed.

End UnitCountValues.

(** Two drones, a zergling and a unit that is not in the list. *)
Lemma unit_count_counts_each_type_witness :
  @UnitCount1DFeature._generate_features
    (UnitCount1DFeature.Build [104; 105; 110]%Z)
    [Unit 104 1 0%Qc 0%Qc false; Unit 105 1 0%Qc 0%Qc false;
     Unit 104 1 0%Qc 0%Qc false; Unit 341 1 0%Qc 0%Qc false]
  ≡ₚ map (fun t => of_nat (length (filter (fun u => unit_type u = t)
                                     [Unit 104 1 0%Qc 0%Qc false; Unit 105 1 0%Qc 0%Qc false;
                                      Unit 104 1 0%Qc 0%Qc false; Unit 341 1 0%Qc 0%Qc false])))
         [104; 105; 110]%Z.
Proof.
  apply (unit_count_counts_each_type (UnitCount1DFeature.Build [104; 105; 110]%Z)).
  apply (bool_decide_unpack _). vm_compute. exact I.
Defined.

(** *** The cells of the spatial features *)

Lemma of_nat_S (n : nat) : of_nat (S n) = (of_nat n + 1)%Qc.
Proof.
  unfold of_nat, Qcplus. apply Q2Qc_eq_iff. cbn [this Q2Qc].
  rewrite Qred_correct, Nat2Z.inj_succ, <- Z.add_1_r, inject_Z_plus. reflexivity.
Qed.

Lemma incr3_cell (c h w : nat) (a a' : list (list (list Qc))) (k : nat) (y x : Z) :
  has_shape3 c h w a -> (0 <= y < Z.of_nat h)%Z -> (0 <= x < Z.of_nat w)%Z ->
  incr3 a k y x = Ok a' ->
  forall k' y' x',
    cell3 a' k' y' x'
    = if decide (k' = k /\ y' = Z.to_nat y /\ x' = Z.to_nat x)
      then (fun v => v + 1)%Qc <$> cell3 a k' y' x' else cell3 a k' y' x'.
Proof.
  intros [Hc Ha] Hy Hx Hi k' y' x'. unfold incr3 in Hi.
  apply bind_ok in Hi. destruct Hi as (channel & Hch & Hi). apply getitem_Ok in Hch.
  pose proof (Forall_lookup_1 _ _ _ _ Ha Hch) as [Hh Hrows].
  rewrite Hh in Hi. destruct (norm_index_Ok h y Hy) as [Hny Hyi]. rewrite Hny in Hi.
  cbn [mbind result_bind] in Hi.
  apply bind_ok in Hi. destruct Hi as (row & Hrow & Hi). apply getitem_Ok in Hrow.
  pose proof (Forall_lookup_1 _ _ _ _ Hrows Hrow) as Hw. cbv beta in Hw.
  rewrite Hw in Hi. destruct (norm_index_Ok w x Hx) as [Hnx Hxi]. rewrite Hnx in Hi.
  cbn [mbind result_bind] in Hi.
  apply bind_ok in Hi. destruct Hi as (v & Hv & [= <-]). apply getitem_Ok in Hv.
  unfold cell3.
  destruct (decide (k' = k)) as [->|Hk].
  - rewrite list_lookup_insert_eq by (eapply lookup_lt_Some; eauto). rewrite Hch. simpl.
    destruct (decide (y' = Z.to_nat y)) as [->|Hy'].
    + rewrite list_lookup_insert_eq by lia. rewrite Hrow. simpl.
      destruct (decide (x' = Z.to_nat x)) as [->|Hx'].
      * rewrite list_lookup_insert_eq by lia. rewrite Hv.
        rewrite decide_True by auto. reflexivity.
      * rewrite list_lookup_insert_ne by congruence.
        rewrite decide_False by tauto. reflexivity.
    + rewrite list_lookup_insert_ne by congruence.
      rewrite decide_False by tauto. reflexivity.
  - rewrite list_lookup_insert_ne by congruence.
    rewrite decide_False by tauto. reflexivity.
Qed.

(** A loop of increments: when every pass returns and adds one to the cell
    the unit is placed in, if any, the loop returns and adds to every cell
    the number of units placed in it. *)
Lemma placing_loop (c h w : nat) (step : list (list (list Qc)) -> unit_ ->
                                          result (list (list (list Qc))))
    (place : unit_ -> option (nat * nat * nat)) (us : list unit_) :
  (forall a u, u ∈ us -> has_shape3 c h w a ->
     exists a', step a u = Ok a' /\ has_shape3 c h w a' /\
       forall k y x, cell3 a' k y x
                     = if decide (place u = Some (k, y, x))
                       then (fun v => v + 1)%Qc <$> cell3 a k y x else cell3 a k y x) ->
  forall a0, has_shape3 c h w a0 ->
    exists a, foldl (fun acc u => acc ← acc; step acc u) (Ok a0) us = Ok a /\
      has_shape3 c h w a /\
      forall k y x,
        cell3 a k y x
        = (fun v => v + of_nat (length (filter (fun u => place u = Some (k, y, x)) us)))%Qc
            <$> cell3 a0 k y x.
Proof.
  induction us as [|u us IH]; intros Hstep a0 Ha0.
  - exists a0. split_and!; [reflexivity|exact Ha0|]. intros k y x. simpl.
    destruct (cell3 a0 k y x); simpl; [|reflexivity].
    f_equal. unfold of_nat. change (Q2Qc (inject_Z (Z.of_nat 0))) with 0%Qc. ring.
  - destruct (Hstep a0 u ltac:(left) Ha0) as (a1 & Hs & Ha1 & Hcell).
    destruct (IH (fun a v Hv => Hstep a v ltac:(right; exact Hv)) a1 Ha1)
      as (a & Hf & Ha & Hcount).
    exists a. cbn [foldl mbind result_bind]. rewrite Hs. split_and!; [exact Hf|exact Ha|].
    intros k y x. rewrite Hcount, Hcell.
    destruct (decide (place u = Some (k, y, x))) as [Hp|Hp].
    + rewrite filter_cons_True by exact Hp. cbn [length]. rewrite of_nat_S.
      destruct (cell3 a0 k y x); simpl; [|reflexivity]. f_equal. ring.
    + rewrite filter_cons_False by exact Hp. reflexivity.
Qed.

Lemma cell3_zeros (c h w k y x : nat) :
  k < c -> y < h -> x < w -> cell3 (zeros3 c h w) k y x = Some 0%Qc.
Proof.
  intros Hk Hy Hx. unfold cell3, zeros3.
  rewrite lookup_replicate_2 by exact Hk. simpl.
  rewrite lookup_replicate_2 by exact Hy. simpl.
  apply lookup_replicate_2. exact Hx.
Qed.

Lemma unit_cell_in_world (resolution : nat) (ws : Qc * Qc) (u : unit_) :
  0 < resolution -> in_world ws u ->
  exists y x,
    grid_cell resolution (fst ws / of_nat resolution) (snd ws / of_nat resolution) u
    = Ok (y, x) /\
    (0 <= y < Z.of_nat resolution)%Z /\ (0 <= x < Z.of_nat resolution)%Z /\
    unit_cell resolution ws u = Some (Z.to_nat y, Z.to_nat x).
Proof.
  intros Hres Hu. destruct (grid_cell_range resolution ws u Hres Hu) as (y & x & Hg & Hy & Hx).
  exists y, x. split; [exact Hg|]. split; [exact Hy|]. split; [exact Hx|].
  unfold unit_cell. rewrite Hg. rewrite decide_True by tauto. reflexivity.
Qed.

Lemma player_relative_generate_cells (self : PlayerRelative3DFeature.t) (us : list unit_) :
  0 < PlayerRelative3DFeature._resolution self ->
  Forall (in_world (PlayerRelative3DFeature._world_size self)) us ->
  exists a,
    PlayerRelative3DFeature._generate_features self us = Ok a /\
    has_shape3 1 (PlayerRelative3DFeature._resolution self)
               (PlayerRelative3DFeature._resolution self) a /\
    forall y x,
      y < PlayerRelative3DFeature._resolution self ->
      x < PlayerRelative3DFeature._resolution self ->
      cell3 a 0 y x
      = Some (of_nat (length (filter
                (fun u => unit_cell (PlayerRelative3DFeature._resolution self)
                            (PlayerRelative3DFeature._world_size self) u = Some (y, x))
                us))).
Proof.
  intros Hres Hus. unfold PlayerRelative3DFeature._generate_features.
  set (res := PlayerRelative3DFeature._resolution self) in *.
  set (ws := PlayerRelative3DFeature._world_size self) in *.
  fold (of_nat res). rewrite !truediv_Ok by (apply of_nat_pos, Hres).
  cbn [mbind result_bind].
  destruct (placing_loop 1 res res
              (fun features u =>
                 '(y, x) ← grid_cell res (fst ws / of_nat res) (snd ws / of_nat res) u;
                 incr3 features 0 y x)
              (fun u => (fun p : nat * nat => (0, p.1, p.2)) <$> unit_cell res ws u) us)
    with (a0 := zeros3 1 res res) as (a & Hf & Ha & Hcount); [|apply zeros3_shape|].
  - intros a u Hu Ha. rewrite Forall_forall in Hus.
    destruct (unit_cell_in_world res ws u Hres (Hus u Hu)) as (y & x & Hg & Hy & Hx & Hcell).
    rewrite Hg, Hcell. cbn [mbind result_bind fmap option_fmap option_map fst snd].
    destruct (incr3_Ok 1 res res a 0 y x Ha ltac:(lia) Hy Hx) as [a' Ha'].
    exists a'. split_and!; [exact Ha'|eapply incr3_shape; eauto|].
    intros k y' x'. rewrite (incr3_cell 1 res res a a' 0 y x Ha Hy Hx Ha').
    destruct (decide (k = 0 /\ y' = Z.to_nat y /\ x' = Z.to_nat x)) as [(-> & -> & ->)|Hn].
    + rewrite decide_True by reflexivity. reflexivity.
    + rewrite decide_False; [reflexivity|]. intros [= <- <- <-]. tauto.
  - exists a. split_and!; [exact Hf|exact Ha|]. intros y x Hy Hx.
    rewrite Hcount, cell3_zeros by (lia || assumption). simpl. f_equal.
    rewrite Qcplus_0_l. do 2 f_equal. apply list_filter_iff. intros u.
    destruct (unit_cell res ws u) as [[y' x']|]; simpl; [|split; discriminate].
    split; intros [= <- <-]; reflexivity.
Qed.

Lemma unit_type_generate_cells (self : UnitType3DFeature.t) (us : list unit_) (m : nat) :
  max_of (dict_values (UnitType3DFeature._type_map self)) = Ok m ->
  0 < UnitType3DFeature._resolution self ->
  Forall (in_world (UnitType3DFeature._world_size self)) us ->
  exists a,
    UnitType3DFeature._generate_features self us = Ok a /\
    has_shape3 (m + 1) (UnitType3DFeature._resolution self)
               (UnitType3DFeature._resolution self) a /\
    forall c y x,
      c <= m ->
      y < UnitType3DFeature._resolution self ->
      x < UnitType3DFeature._resolution self ->
      cell3 a c y x
      = Some (of_nat (length (filter
                (fun u => UnitType3DFeature._type_map self !! unit_type u = Some c /\
                          unit_cell (UnitType3DFeature._resolution self)
                            (UnitType3DFeature._world_size self) u = Some (y, x))
                us))).
Proof.
  intros Hm Hres Hus. unfold UnitType3DFeature._generate_features. rewrite Hm.
  set (res := UnitType3DFeature._resolution self) in *.
  set (ws := UnitType3DFeature._world_size self) in *.
  set (tm := UnitType3DFeature._type_map self) in *.
  cbn [mbind result_bind]. fold (of_nat res).
  rewrite !truediv_Ok by (apply of_nat_pos, Hres). cbn [mbind result_bind].
  destruct (placing_loop (m + 1) res res
              (fun features u =>
                 match tm !! unit_type u with
                 | Some c =>
                     '(y, x) ← grid_cell res (fst ws / of_nat res) (snd ws / of_nat res) u;
                     incr3 features c y x
                 | None => Ok features
                 end)
              (fun u => match tm !! unit_type u with
                        | Some c => (fun p : nat * nat => (c, p.1, p.2)) <$> unit_cell res ws u
                        | None => None
                        end) us)
    with (a0 := zeros3 (m + 1) res res) as (a & Hf & Ha & Hcount); [|apply zeros3_shape|].
  - intros a u Hu Ha. rewrite Forall_forall in Hus.
    destruct (tm !! unit_type u) as [c|] eqn:Hc.
    + assert (Hcm : c <= m).
      { apply (max_of_ge _ _ _ Hm). unfold dict_values. apply list_elem_of_fmap.
        exists (unit_type u, c). split; [reflexivity|]. apply elem_of_map_to_list. exact Hc. }
      destruct (unit_cell_in_world res ws u Hres (Hus u Hu))
        as (y & x & Hg & Hy & Hx & Hcell).
      rewrite Hg, Hcell. cbn [mbind result_bind fmap option_fmap option_map fst snd].
      destruct (incr3_Ok (m + 1) res res a c y x Ha ltac:(lia) Hy Hx) as [a' Ha'].
      exists a'. split_and!; [exact Ha'|eapply incr3_shape; eauto|].
      intros k y' x'. rewrite (incr3_cell (m + 1) res res a a' c y x Ha Hy Hx Ha').
      destruct (decide (k = c /\ y' = Z.to_nat y /\ x' = Z.to_nat x)) as [(-> & -> & ->)|Hn].
      * rewrite decide_True by reflexivity. reflexivity.
      * rewrite decide_False; [reflexivity|]. intros [= <- <- <-]. tauto.
    + exists a. split_and!; [reflexivity|exact Ha|]. intros k y' x'.
      rewrite decide_False by discriminate. reflexivity.
  - exists a. split_and!; [exact Hf|exact Ha|]. intros c y x Hc Hy Hx.
    rewrite Hcount, cell3_zeros by (lia || assumption). simpl. f_equal.
    rewrite Qcplus_0_l. do 2 f_equal. apply list_filter_iff. intros u.
    destruct (tm !! unit_type u) as [c'|]; [|split; [discriminate|intros [? _]; discriminate]].
    destruct (unit_cell res ws u) as [[y' x']|]; simpl.
    + split; [intros [= <- <- <-]; auto|intros [[= <-] [= <- <-]]; reflexivity].
    + split; [discriminate|intros [_ ?]; discriminate].
Qed.

Section SpatialCells.
Context `{Numpy} `{UNIT_TYPEID}.



End SpatialCells.

(** Four cells a side: cells of 50 by 44, both exact. *)
Lemma exact_grid_4 : exact_grid 4 default_world_size.
Proof.
  unfold exact_grid, binary64. split_and!.
  - exists 200%Z, 0%Z. split_and!; try lia. apply Qc_is_canon. reflexivity.
  - exists 176%Z, 0%Z. split_and!; try lia. apply Qc_is_canon. reflexivity.
  - exists 50%Z, 0%Z. split_and!; try lia. apply Qc_is_canon. reflexivity.
  - exists 44%Z, 0%Z. split_and!; try lia. apply Qc_is_canon. reflexivity.
Qed.



(** *** Units beyond the far border *)

Lemma Qc_this_of_nat (n : nat) : (this (of_nat n) == inject_Z (Z.of_nat n))%Q.
Proof. unfold of_nat. cbn [this Q2Qc]. apply Qred_correct. Qed.

Lemma floordiv_grid (a w : Qc) (n : nat) :
  0 < n -> (0 < w)%Qc ->
  exists k, floordiv a (w / of_nat n) = Ok k /\
            ((w <= a)%Qc -> (Z.of_nat n <= k)%Z) /\
            ((a < 0)%Qc -> (k < 0)%Z).
Proof.
  intros Hn Hw. pose proof (of_nat_pos n Hn) as Hr. pose proof (grid_pos w n Hn Hw) as Hg.
  unfold floordiv. rewrite decide_False by (apply Qclt_neq, Hg).
  eexists. split; [reflexivity|].
  set (q := (a / (w / of_nat n))%Qc).
  assert (Hqg : (q * (w / of_nat n))%Qc = a) by (apply test_field, Qclt_neq, Hg).
  split.
  - intros Hwa.
    assert (Hq : (of_nat n <= q)%Qc).
    { apply Qcnot_lt_le. intros Hlt.
      apply (Qcmult_lt_compat_r _ _ (w / of_nat n)%Qc Hg) in Hlt.
      rewrite Hqg, Qcmult_div_r in Hlt by (apply Qclt_neq, Hr).
      exact (Qcle_not_lt _ _ Hwa Hlt). }
    rewrite <- (Qfloor_Z (Z.of_nat n)). apply Qfloor_resp_le.
    unfold Qcle in Hq. rewrite Qc_this_of_nat in Hq. exact Hq.
  - intros Ha.
    assert (Hq : (q < 0)%Qc).
    { apply Qcnot_le_lt. intros Hle.
      apply (Qcmult_le_compat_r _ _ (w / of_nat n)%Qc) in Hle; [|apply Qclt_le_weak, Hg].
      rewrite Hqg, Qcmult_0_l in Hle. exact (Qclt_not_le _ _ Ha Hle). }
    rewrite Zlt_Qlt. eapply Qle_lt_trans; [apply Qfloor_le|]. exact Hq.
Qed.

Lemma norm_index_inv (n : nat) (i : Z) :
  (exists k, norm_index n i = Ok k /\ (- Z.of_nat n <= i < Z.of_nat n)%Z) \/
  (norm_index n i = Raise IndexError /\ ~ (- Z.of_nat n <= i < Z.of_nat n)%Z).
Proof.
  unfold norm_index. destruct (decide (0 <= i < Z.of_nat n)%Z); [left; eexists; split; [reflexivity|lia]|].
  destruct (decide (- Z.of_nat n <= i < 0)%Z); [left; eexists; split; [reflexivity|lia]|].
  right. split; [reflexivity|lia].
Qed.

Lemma getitem_inv {A} (l : list A) (i : nat) :
  (exists x, getitem l i = Ok x) \/ getitem l i = Raise IndexError.
Proof. unfold getitem. destruct (l !! i); eauto. Qed.

(** [features[c, y, x] += 1.0] returns only for indices numpy accepts, and
    raises nothing but [IndexError]. *)
Lemma incr3_inv (c h w : nat) (a : list (list (list Qc))) (k : nat) (y x : Z) :
  has_shape3 c h w a ->
  (exists a', incr3 a k y x = Ok a' /\
              (- Z.of_nat h <= y < Z.of_nat h)%Z /\ (- Z.of_nat w <= x < Z.of_nat w)%Z) \/
  incr3 a k y x = Raise IndexError.
Proof.
  intros [Hc Ha]. unfold incr3.
  destruct (a !! k) as [channel|] eqn:Hch;
    [rewrite (getitem_lookup _ _ _ Hch)|unfold getitem; rewrite Hch; right; reflexivity].
  cbn [mbind result_bind].
  pose proof (Forall_lookup_1 _ _ _ _ Ha Hch) as [Hh Hrows]. rewrite Hh.
  destruct (norm_index_inv h y) as [(yi & -> & Hy)|[-> _]]; [|right; reflexivity].
  cbn [mbind result_bind].
  destruct (channel !! yi) as [row|] eqn:Hrow;
    [rewrite (getitem_lookup _ _ _ Hrow)|unfold getitem; rewrite Hrow; right; reflexivity].
  cbn [mbind result_bind].
  pose proof (Forall_lookup_1 _ _ _ _ Hrows Hrow) as Hw. cbv beta in Hw. rewrite Hw.
  destruct (norm_index_inv w x) as [(xi & -> & Hx)|[-> _]]; [|right; reflexivity].
  cbn [mbind result_bind].
  destruct (row !! xi) as [v|] eqn:Hv;
    [rewrite (getitem_lookup _ _ _ Hv)|unfold getitem; rewrite Hv; right; reflexivity].
  cbn [mbind result_bind]. left. eauto.
Qed.

(** A loop whose passes fail with one exception only: so does the loop, and
    it fails when one element makes every pass fail. *)
Lemma foldl_one_exception {A B} (P : A -> Prop) (bad : B -> Prop)
    (step : A -> B -> result A) (e : exn) (l : list B) :
  (forall a b, P a -> (exists a', step a b = Ok a' /\ P a') \/ step a b = Raise e) ->
  (forall a b, P a -> bad b -> step a b = Raise e) ->
  forall a, P a ->
    ((exists a', foldl (fun acc b => acc ← acc; step acc b) (Ok a) l = Ok a' /\ P a') \/
     foldl (fun acc b => acc ← acc; step acc b) (Ok a) l = Raise e) /\
    ((exists b, b ∈ l /\ bad b) ->
     foldl (fun acc b => acc ← acc; step acc b) (Ok a) l = Raise e).
Proof.
  intros Hstep Hbad. induction l as [|b l IH]; intros a Ha.
  - split; [left; eauto|]. intros (b & Hb & _). inversion Hb.
  - cbn [foldl mbind result_bind].
    destruct (Hstep a b Ha) as [(a1 & Hs & Ha1)|Hs]; rewrite Hs.
    + destruct (IH a1 Ha1) as [IH1 IH2]. split; [exact IH1|].
      intros (b0 & Hb0 & Hbad0). apply elem_of_cons in Hb0. destruct Hb0 as [->|Hb0].
      * rewrite (Hbad a b Ha Hbad0) in Hs. discriminate.
      * apply IH2. eauto.
    + rewrite foldl_raise by reflexivity. split; [right; reflexivity|reflexivity].
Qed.

Lemma player_relative_generate_far (self : PlayerRelative3DFeature.t) (us : list unit_) :
  0 < PlayerRelative3DFeature._resolution self ->
  (0 < fst (PlayerRelative3DFeature._world_size self))%Qc ->
  (0 < snd (PlayerRelative3DFeature._world_size self))%Qc ->
  ((exists a, PlayerRelative3DFeature._generate_features self us = Ok a) \/
   PlayerRelative3DFeature._generate_features self us = Raise IndexError) /\
  ((exists u, u ∈ us /\
      ((fst (PlayerRelative3DFeature._world_size self) <= pos_x u)%Qc \/ (pos_y u < 0)%Qc)) ->
   PlayerRelative3DFeature._generate_features self us = Raise IndexError).
Proof.
  intros Hres Hw Hh. unfold PlayerRelative3DFeature._generate_features.
  set (res := PlayerRelative3DFeature._resolution self) in *.
  set (ws := PlayerRelative3DFeature._world_size self) in *.
  fold (of_nat res). rewrite !truediv_Ok by (apply of_nat_pos, Hres).
  cbn [mbind result_bind].
  destruct (foldl_one_exception (has_shape3 1 res res)
              (fun u => (fst ws <= pos_x u)%Qc \/ (pos_y u < 0)%Qc)
              (fun features u =>
                 '(y, x) ← grid_cell res (fst ws / of_nat res) (snd ws / of_nat res) u;
                 incr3 features 0 y x) IndexError us) with (a := zeros3 1 res res)
    as [H1 H2]; [| |apply zeros3_shape|].
  - intros a u Ha. unfold grid_cell.
    destruct (floordiv_grid (pos_x u) (fst ws) res Hres Hw) as (x & -> & _).
    destruct (floordiv_grid (pos_y u) (snd ws) res Hres Hh) as (fy & -> & _).
    cbn [mbind result_bind].
    destruct (incr3_inv 1 res res a 0 (Z.of_nat res - 1 - fy) x Ha)
      as [(a' & Hi & _)|Hi]; [left|right; exact Hi].
    exists a'. split; [exact Hi|]. eapply incr3_shape; eauto.
  - intros a u Ha Hbad. unfold grid_cell.
    destruct (floordiv_grid (pos_x u) (fst ws) res Hres Hw) as (x & -> & Hx & _).
    destruct (floordiv_grid (pos_y u) (snd ws) res Hres Hh) as (fy & -> & _ & Hy).
    cbn [mbind result_bind].
    destruct (incr3_inv 1 res res a 0 (Z.of_nat res - 1 - fy) x Ha)
      as [(a' & _ & Hyr & Hxr)|Hi]; [exfalso|exact Hi].
    destruct Hbad as [Hbx|Hby]; [specialize (Hx Hbx)|specialize (Hy Hby)]; lia.
  - split; [|exact H2]. destruct H1 as [(a & Ha & _)|H1]; eauto.
Qed.

Section FarBorder.
Context `{Numpy} `{UNIT_TYPEID}.

(** X22: a unit on or beyond the east border of the world
    ([pos_x >= 200]) on a grid whose cell sizes are exact in binary64, or a
    unit below the south border ([pos_y < 0]), makes [_observation] fail
    with [IndexError], whoever the unit belongs to among the player, the
    enemy and the neutral ones: its cell lies outside the grid, and the
    increment of the player-relative features, which are computed first,
    refuses the index. *)
Theorem observation_raises_beyond_far_border (resolution : nat) (position : Z)
    (flip : bool) (self : ZergObservationWrapper.t) (ob : raw_observation) (u : unit_) :
  0 < resolution ->
  ZergObservationWrapper.__init__ resolution false false position flip = Ok self ->
  u ∈ units ob -> counted u ->
  ((exact_grid resolution default_world_size /\ (fst default_world_size <= pos_x u)%Qc) \/
   (pos_y u < 0)%Qc) ->
  PlayerRelative3DFeature.features
    (ZergObservationWrapper._player_relative_feature self) ob = Raise IndexError /\
  ZergObservationWrapper._observation self (ZergObservationWrapper.Plain ob)
  = Raise IndexError.
Proof.
  intros Hres Hinit Hu Hcounted Hfar.
  assert (Hfar' : (fst default_world_size <= pos_x u)%Qc \/ (pos_y u < 0)%Qc) by tauto.
  clear Hfar. rename Hfar' into Hfar.
  rewrite init_Ok in Hinit. injection Hinit as <-.
  cbn [ZergObservationWrapper._player_relative_feature].
  set (prf := PlayerRelative3DFeature.Build resolution default_world_size).
  assert (Hw : (0 < fst default_world_size)%Qc) by (vm_compute; reflexivity).
  assert (Hh : (0 < snd default_world_size)%Qc) by (vm_compute; reflexivity).
  assert (Hgen : forall us,
            ((exists a, PlayerRelative3DFeature._generate_features prf us = Ok a) \/
             PlayerRelative3DFeature._generate_features prf us = Raise IndexError) /\
            (u ∈ us -> PlayerRelative3DFeature._generate_features prf us = Raise IndexError)).
  { intros us. destruct (player_relative_generate_far prf us Hres Hw Hh) as [Hany Hbad].
    split; [exact Hany|]. intros Hin. apply Hbad. exists u. split; [exact Hin|exact Hfar]. }
  assert (Hpr : PlayerRelative3DFeature.features prf ob = Raise IndexError).
  { unfold PlayerRelative3DFeature.features.
    set (s := filter (fun u => alliance u = alliance_value SELF) (units ob)).
    set (e := filter (fun u => alliance u = alliance_value ENEMY) (units ob)).
    set (n := filter (fun u => alliance u = alliance_value NEUTRAL) (units ob)).
    destruct (Hgen s) as [[[a1 Hs]|Hs] Hsu]; rewrite Hs; [|reflexivity].
    cbn [mbind result_bind].
    destruct (Hgen e) as [[[a2 He]|He] Heu]; rewrite He; [|reflexivity].
    cbn [mbind result_bind].
    destruct (Hgen n) as [[[a3 Hn]|Hn] Hnu]; rewrite Hn; [|reflexivity].
    exfalso. destruct Hcounted as [Hc|[Hc|Hc]].
    - rewrite Hsu in Hs; [discriminate|]. apply list_elem_of_filter. auto.
    - rewrite Heu in He; [discriminate|]. apply list_elem_of_filter. auto.
    - rewrite Hnu in Hn; [discriminate|]. apply list_elem_of_filter. auto. }
  split; [exact Hpr|].
  unfold ZergObservationWrapper._observation.
  cbn [ZergObservationWrapper.env_maskable ZergObservationWrapper._player_relative_feature
       mbind result_bind].
  fold prf. rewrite Hpr. reflexivity.
Qed.

End FarBorder.

(** A zergling of the player at [pos_x = 200]. *)
Lemma observation_raises_beyond_far_border_witness :
  @ZergObservationWrapper._observation shape_numpy
    (ZergObservationWrapper.Build
       (UnitType3DFeature.Build (@ZergObservationWrapper.type_map sc2_unit_typeid) 4
          default_world_size)
       (PlayerRelative3DFeature.Build 4 default_world_size)
       (UnitCount1DFeature.Build (@ZergObservationWrapper.type_list sc2_unit_typeid))
       true false false 0 ([25; 4; 4], [112]))
    (ZergObservationWrapper.Plain border_observation)
  = Raise IndexError.
Proof.
  refine (proj2 (@observation_raises_beyond_far_border shape_numpy sc2_unit_typeid
                   4 0 true _ border_observation
                   (Unit 105 1 (Q2Qc 200) (Q2Qc 100) false) _ _ _ _ _)).
  - lia.
  - apply (@init_Ok sc2_unit_typeid).
  - right. left.
  - left. reflexivity.
  - left. split; [exact exact_grid_4|]. vm_compute. congruence.
Defined.

(** *** Units beyond the near border *)

Lemma Qfloor_unique (q : Q) (z : Z) :
  (inject_Z z <= q)%Q -> (q < inject_Z (z + 1))%Q -> Qfloor q = z.
Proof.
  intros Hle Hlt. apply Z.le_antisymm.
  - apply Z.lt_succ_r. rewrite Zlt_Qlt. eapply Qle_lt_trans; [apply Qfloor_le|].
    exact Hlt.
  - rewrite <- (Qfloor_Z z). apply Qfloor_resp_le. exact Hle.
Qed.

Lemma Qfloor_add_Z (q : Q) (n : Z) : Qfloor (q + inject_Z n) = (Qfloor q + n)%Z.
Proof.
  apply Qfloor_unique.
  - rewrite inject_Z_plus. apply Qplus_le_compat; [apply Qfloor_le|apply Qle_refl].
  - replace (Qfloor q + n + 1)%Z with ((Qfloor q + 1) + n)%Z by lia.
    rewrite inject_Z_plus. apply Qplus_lt_le_compat; [apply Qlt_floor|apply Qle_refl].
Qed.

Lemma floordiv_wrap (a w : Qc) (n : nat) :
  0 < n -> (0 < w)%Qc ->
  exists k, floordiv a (w / of_nat n) = Ok k /\
            floordiv (a - w) (w / of_nat n) = Ok (k - Z.of_nat n)%Z /\
            floordiv (a + w) (w / of_nat n) = Ok (k + Z.of_nat n)%Z.
Proof.
  intros Hn Hw. pose proof (of_nat_pos n Hn) as Hr. pose proof (grid_pos w n Hn Hw) as Hg.
  unfold floordiv. rewrite !decide_False by (apply Qclt_neq, Hg).
  eexists. split; [reflexivity|].
  assert (Hm : ((a - w) / (w / of_nat n) = a / (w / of_nat n) - of_nat n)%Qc).
  { field. split; apply Qclt_neq; assumption. }
  assert (Hp : ((a + w) / (w / of_nat n) = a / (w / of_nat n) + of_nat n)%Qc).
  { field. split; apply Qclt_neq; assumption. }
  rewrite Hm, Hp. split; apply (f_equal Ok).
  - transitivity (Qfloor (this (a / (w / of_nat n))%Qc + inject_Z (- Z.of_nat n))).
    + apply Qfloor_comp. unfold Qcminus, Qcplus, Qcopp. cbn [this Q2Qc].
      rewrite !Qred_correct, inject_Z_opp, Qc_this_of_nat. reflexivity.
    + rewrite Qfloor_add_Z. lia.
  - transitivity (Qfloor (this (a / (w / of_nat n))%Qc + inject_Z (Z.of_nat n))).
    + apply Qfloor_comp. unfold Qcplus. cbn [this Q2Qc].
      rewrite !Qred_correct, Qc_this_of_nat. reflexivity.
    + apply Qfloor_add_Z.
Qed.

Lemma norm_index_wrap (n : nat) (i : Z) :
  (0 <= i < Z.of_nat n)%Z -> norm_index n (i - Z.of_nat n) = norm_index n i.
Proof.
  intros Hi. unfold norm_index.
  rewrite (decide_True (P := (0 <= i < Z.of_nat n)%Z)) by exact Hi.
  rewrite decide_False by lia. rewrite decide_True by lia. f_equal. lia.
Qed.

Lemma incr3_same_index (c h w : nat) (a : list (list (list Qc))) (k : nat) (y y' x x' : Z) :
  has_shape3 c h w a ->
  norm_index h y' = norm_index h y -> norm_index w x' = norm_index w x ->
  incr3 a k y' x' = incr3 a k y x.
Proof.
  intros [_ Ha] Hy Hx. unfold incr3.
  destruct (a !! k) as [channel|] eqn:Hch;
    [rewrite (getitem_lookup _ _ _ Hch)|unfold getitem; rewrite Hch; reflexivity].
  cbn [mbind result_bind].
  pose proof (Forall_lookup_1 _ _ _ _ Ha Hch) as [Hh Hrows]. rewrite Hh, Hy.
  destruct (norm_index h y) as [yi|e]; [|reflexivity]. cbn [mbind result_bind].
  destruct (channel !! yi) as [row|] eqn:Hrow;
    [rewrite (getitem_lookup _ _ _ Hrow)|unfold getitem; rewrite Hrow; reflexivity].
  cbn [mbind result_bind].
  pose proof (Forall_lookup_1 _ _ _ _ Hrows Hrow) as Hw. cbv beta in Hw. rewrite Hw, Hx.
  reflexivity.
Qed.

(** The cell of a unit that wraps to one inside the world is found at
    indices that numpy reads as the same cell. *)
Lemma grid_cell_wraps (resolution : nat) (ws : Qc * Qc) (u u' : unit_) :
  0 < resolution -> in_world ws u -> wraps_to ws u u' ->
  exists y x y' x',
    grid_cell resolution (fst ws / of_nat resolution) (snd ws / of_nat resolution) u
    = Ok (y, x) /\
    grid_cell resolution (fst ws / of_nat resolution) (snd ws / of_nat resolution) u'
    = Ok (y', x') /\
    norm_index resolution y' = norm_index resolution y /\
    norm_index resolution x' = norm_index resolution x.
Proof.
  intros Hres (Hx0 & Hx1 & Hy0 & Hy1) (_ & _ & _ & Hpx & Hpy).
  assert (Hw : (0 < fst ws)%Qc) by exact (Qcle_lt_trans _ _ _ Hx0 Hx1).
  assert (Hh : (0 < snd ws)%Qc) by exact (Qcle_lt_trans _ _ _ Hy0 Hy1).
  destruct (floordiv_range (pos_x u) (fst ws) resolution Hres Hx0 Hx1) as (x & Hfx & Hx).
  destruct (floordiv_range (pos_y u) (snd ws) resolution Hres Hy0 Hy1) as (fy & Hfy & Hy).
  destruct (floordiv_wrap (pos_x u) (fst ws) resolution Hres Hw) as (x1 & Hx1a & Hx1b & _).
  destruct (floordiv_wrap (pos_y u) (snd ws) resolution Hres Hh) as (fy1 & Hy1a & _ & Hy1b).
  assert (x1 = x) as -> by congruence. assert (fy1 = fy) as -> by congruence.
  unfold grid_cell. rewrite Hfx, Hfy. cbn [mbind result_bind].
  destruct Hpx as [->| ->], Hpy as [->| ->];
    rewrite ?Hfx, ?Hfy, ?Hx1b, ?Hy1b; cbn [mbind result_bind];
    eexists _, _, _, _; (split; [reflexivity|]); (split; [reflexivity|]); split;
    try reflexivity;
    try (apply norm_index_wrap; lia);
    try (replace (Z.of_nat resolution - 1 - (fy + Z.of_nat resolution))%Z
           with ((Z.of_nat resolution - 1 - fy) - Z.of_nat resolution)%Z by lia;
         apply norm_index_wrap; lia).
Qed.

Lemma foldl_result_Forall2 {A B} (P : A -> Prop) (R : B -> B -> Prop)
    (step : A -> B -> result A) (l l' : list B) :
  (forall a b b', P a -> R b b' -> step a b' = step a b) ->
  (forall a b a', P a -> step a b = Ok a' -> P a') ->
  Forall2 R l l' ->
  forall a, P a ->
    foldl (fun acc b => acc ← acc; step acc b) (Ok a) l'
    = foldl (fun acc b => acc ← acc; step acc b) (Ok a) l.
Proof.
  intros Hsame Hkeep HR. induction HR as [|b b' l l' Hb _ IH]; intros a Ha; [reflexivity|].
  cbn [foldl mbind result_bind]. rewrite (Hsame a b b' Ha Hb).
  destruct (step a b) as [a1|e] eqn:Hs.
  - apply IH. eapply Hkeep; eauto.
  - rewrite !foldl_raise by reflexivity. reflexivity.
Qed.

Lemma Forall2_filter_same {B} (R : B -> B -> Prop) (P : B -> Prop)
    `{!forall b, Decision (P b)} (l l' : list B) :
  (forall b b', R b b' -> (P b <-> P b')) ->
  Forall2 R l l' -> Forall2 R (filter P l) (filter P l').
Proof.
  intros HP HR. induction HR as [|b b' l l' Hb _ IH]; [constructor|].
  destruct (decide (P b)) as [Hp|Hp].
  - rewrite (filter_cons_True P b l) by exact Hp.
    rewrite (filter_cons_True P b' l') by (apply (HP b b' Hb); exact Hp).
    constructor; assumption.
  - rewrite (filter_cons_False P b l) by exact Hp.
    rewrite (filter_cons_False P b' l') by (rewrite <- (HP b b' Hb); exact Hp).
    exact IH.
Qed.

Lemma Forall2_in_world_wraps (ws : Qc * Qc) (us us' : list unit_) :
  Forall (in_world ws) us -> Forall2 (wraps_to ws) us us' ->
  Forall2 (fun u u' => in_world ws u /\ wraps_to ws u u') us us'.
Proof.
  intros Hin Hw. induction Hw as [|u u' us us' Hu _ IH]; [constructor|].
  apply Forall_cons in Hin. destruct Hin as [Hi Hin]. constructor; auto.
Qed.

Lemma player_relative_generate_wraps (self : PlayerRelative3DFeature.t)
    (us us' : list unit_) :
  0 < PlayerRelative3DFeature._resolution self ->
  Forall2 (fun u u' => in_world (PlayerRelative3DFeature._world_size self) u /\
                       wraps_to (PlayerRelative3DFeature._world_size self) u u') us us' ->
  PlayerRelative3DFeature._generate_features self us'
  = PlayerRelative3DFeature._generate_features self us.
Proof.
  intros Hres HR. unfold PlayerRelative3DFeature._generate_features.
  set (res := PlayerRelative3DFeature._resolution self) in *.
  set (ws := PlayerRelative3DFeature._world_size self) in *.
  destruct (truediv (fst ws) _) as [gw|e] eqn:Hgw; [|reflexivity].
  destruct (truediv (snd ws) _) as [gh|e] eqn:Hgh; [|reflexivity].
  fold (of_nat res) in Hgw, Hgh.
  rewrite truediv_Ok in Hgw, Hgh by (apply of_nat_pos, Hres).
  injection Hgw as <-. injection Hgh as <-. cbn [mbind result_bind].
  apply (foldl_result_Forall2 (has_shape3 1 res res)
           (fun u u' => in_world ws u /\ wraps_to ws u u')
           (fun features u =>
              '(y, x) ← grid_cell res (fst ws / of_nat res) (snd ws / of_nat res) u;
              incr3 features 0 y x)); [| |exact HR|apply zeros3_shape].
  - intros a u u' Ha [Hin Hwr].
    destruct (grid_cell_wraps res ws u u' Hres Hin Hwr)
      as (y & x & y' & x' & -> & -> & Hy & Hx).
    cbn [mbind result_bind]. apply (incr3_same_index 1 res res); assumption.
  - intros a u a' Ha Hs. apply bind_ok in Hs. destruct Hs as ([y x] & _ & Hs).
    eapply incr3_shape; eauto.
Qed.

Lemma unit_type_generate_wraps (self : UnitType3DFeature.t) (us us' : list unit_) :
  0 < UnitType3DFeature._resolution self ->
  Forall2 (fun u u' => in_world (UnitType3DFeature._world_size self) u /\
                       wraps_to (UnitType3DFeature._world_size self) u u') us us' ->
  UnitType3DFeature._generate_features self us'
  = UnitType3DFeature._generate_features self us.
Proof.
  intros Hres HR. unfold UnitType3DFeature._generate_features.
  set (res := UnitType3DFeature._resolution self) in *.
  set (ws := UnitType3DFeature._world_size self) in *.
  set (tm := UnitType3DFeature._type_map self) in *.
  destruct (max_of (dict_values tm)) as [m|e]; [|reflexivity]. cbn [mbind result_bind].
  destruct (truediv (fst ws) _) as [gw|e] eqn:Hgw; [|reflexivity].
  destruct (truediv (snd ws) _) as [gh|e] eqn:Hgh; [|reflexivity].
  fold (of_nat res) in Hgw, Hgh.
  rewrite truediv_Ok in Hgw, Hgh by (apply of_nat_pos, Hres).
  injection Hgw as <-. injection Hgh as <-. cbn [mbind result_bind].
  apply (foldl_result_Forall2 (has_shape3 (m + 1) res res)
           (fun u u' => in_world ws u /\ wraps_to ws u u')
           (fun features u =>
              match tm !! unit_type u with
              | Some c =>
                  '(y, x) ← grid_cell res (fst ws / of_nat res) (snd ws / of_nat res) u;
                  incr3 features c y x
              | None => Ok features
              end)); [| |exact HR|apply zeros3_shape].
  - intros a u u' Ha [Hin Hwr].
    destruct (grid_cell_wraps res ws u u' Hres Hin Hwr)
      as (y & x & y' & x' & -> & -> & Hy & Hx).
    destruct Hwr as (-> & _). destruct (tm !! unit_type u) as [c|]; [|reflexivity].
    cbn [mbind result_bind]. apply (incr3_same_index (m + 1) res res); assumption.
  - intros a u a' Ha Hs. destruct (tm !! unit_type u) as [c|].
    + apply bind_ok in Hs. destruct Hs as ([y x] & _ & Hs). eapply incr3_shape; eauto.
    + injection Hs as <-. exact Ha.
Qed.

(** X23: a unit west of the world by less than its width, or north of it by
    less than its height, is not refused: its indices are negative, numpy
    counts them from the end, and, on a grid whose cell sizes are exact in
    binary64, the unit is counted in the cell of the unit one world width
    to the east, one world height to the south.  So the spatial features of
    an observation do not change when units inside the world are moved out
    of it that way. *)
Theorem spatial_features_wrap_around (resolution : nat) (world_size : Qc * Qc)
    (type_map : gmap Z nat) (ob ob' : raw_observation) :
  0 < resolution -> exact_grid resolution world_size ->
  Forall (in_world world_size) (units ob) ->
  Forall2 (wraps_to world_size) (units ob) (units ob') ->
  PlayerRelative3DFeature.features (PlayerRelative3DFeature.Build resolution world_size) ob'
  = PlayerRelative3DFeature.features (PlayerRelative3DFeature.Build resolution world_size) ob /\
  UnitType3DFeature.features (UnitType3DFeature.Build type_map resolution world_size) ob'
  = UnitType3DFeature.features (UnitType3DFeature.Build type_map resolution world_size) ob.
Proof.
  intros Hres _ Hin Hwr.
  pose proof (Forall2_in_world_wraps world_size _ _ Hin Hwr) as HR.
  assert (Hf : forall v,
            Forall2 (fun u u' => in_world world_size u /\ wraps_to world_size u u')
              (filter (fun u => alliance u = v) (units ob))
              (filter (fun u => alliance u = v) (units ob'))).
  { intros v. apply Forall2_filter_same; [|exact HR].
    intros u u' [_ (_ & Ha & _)]. rewrite Ha. reflexivity. }
  split.
  - unfold PlayerRelative3DFeature.features.
    rewrite !(player_relative_generate_wraps
                (PlayerRelative3DFeature.Build resolution world_size) _ _ Hres (Hf _)).
    reflexivity.
  - unfold UnitType3DFeature.features.
    rewrite !(unit_type_generate_wraps
                (UnitType3DFeature.Build type_map resolution world_size) _ _ Hres (Hf _)).
    reflexivity.
Qed.

Lemma spatial_features_wrap_around_witness :
  PlayerRelative3DFeature.features (PlayerRelative3DFeature.Build 4 default_world_size)
    wrapped_observation_sample
  = PlayerRelative3DFeature.features (PlayerRelative3DFeature.Build 4 default_world_size)
      sample_observation.
Proof.
  refine (proj1 (spatial_features_wrap_around 4 default_world_size ∅
                   sample_observation wrapped_observation_sample _ _ _ _)).
  - lia.
  - exact exact_grid_4.
  - repeat constructor; vm_compute; congruence.
  - unfold wraps_to.
    constructor; [split_and!; try reflexivity; left; reflexivity|].
    constructor; [split_and!; try reflexivity; [right|left]; reflexivity|].
    constructor; [split_and!; try reflexivity; [left|right]; reflexivity|].
    constructor; [split_and!; try reflexivity; left; reflexivity|].
    constructor.
Defined.
